(** * usbcat: the transfer-queue engine and its event loop

    A shallow embedding of [usbcat.c] (from the point where [main] has opened
    the device and fetched the transport's poll descriptors) and the
    properties of its double-buffered queues, readiness gating, shutdown and
    error paths.

    The program is a single-threaded loop around [poll].  Everything the
    outside world decides (results of [fcntl], [poll], [read], [write],
    [libusb_submit_transfer] and the completions delivered inside
    [libusb_handle_events_timeout]) is read from a script of responses, so
    that a run is a function of its script.  Calls made by the program are
    recorded, newest first, in a trace. *)

From Stdlib Require Import ZArith List Bool Lia String.
From stdpp Require Import base list.
Import ListNotations.
Local Open Scope Z_scope.

(** ** Constants *)

(** The anonymous [enum] at the top of the file. *)
Definition USB_XFER_SZ : Z := 512.
Definition USB_BUFS : Z := 2.
Definition USB_TIMEOUT : Z := -1.

(** Values of the system headers ([<poll.h>], [<errno.h>], [<stdlib.h>],
    [<unistd.h>], [libusb.h]) on Linux. *)
Definition POLLIN : Z := 1.
Definition POLLOUT : Z := 4.
Definition POLLERR : Z := 8.
Definition POLLHUP : Z := 16.
Definition POLLNVAL : Z := 32.
Definition EINTR : Z := 4.
Definition EAGAIN : Z := 11.
Definition EXIT_SUCCESS : Z := 0.
Definition EXIT_FAILURE : Z := 1.
Definition STDIN_FILENO : Z := 0.
Definition STDOUT_FILENO : Z := 1.
Definition LIBUSB_SUCCESS : Z := 0.
Definition LIBUSB_ENDPOINT_DIR_MASK : Z := 128.

Definition fd_in : Z := STDIN_FILENO.
Definition fd_out : Z := STDOUT_FILENO.

(** Wrap-around of [unsigned], [size_t] and [unsigned char]. *)
Definition u32 (x : Z) : Z := x mod 2 ^ 32.
Definition size_t (x : Z) : Z := x mod 2 ^ 64.
Definition u8 (x : Z) : Z := x mod 2 ^ 8.

(** ** Data *)

Inductive libusb_transfer_status :=
| LIBUSB_TRANSFER_COMPLETED
| LIBUSB_TRANSFER_ERROR
| LIBUSB_TRANSFER_TIMED_OUT
| LIBUSB_TRANSFER_CANCELLED
| LIBUSB_TRANSFER_STALL
| LIBUSB_TRANSFER_NO_DEVICE
| LIBUSB_TRANSFER_OVERFLOW.

(** The two queues of [main]; a transfer's [user_data] points at one. *)
Inductive qref := usb_write_buf_ref | usb_read_buf_ref.

(** [struct libusb_transfer], by index in the store of transfers.  Data
    buffers are named by the index [malloc] gave them; their bytes are not
    modelled.  [submitted] is the transport's side of the handle: set by a
    successful submission, cleared when the completion is delivered. *)
Record libusb_transfer := mk_transfer {
  endpoint : Z;
  status : libusb_transfer_status;
  xlength : Z;
  actual_length : Z;
  buffer : option nat;
  user_data : option qref;
  callback : bool;
  submitted : bool
}.

Record pollfd_t := mk_pollfd { fd : Z; events : Z; revents : Z }.

(** [struct buffer_t]; [None] is a pointer that was never assigned. *)
Record buffer_t := mk_buffer { usb_xfer : option nat; data : option nat }.

(** [struct buffer_queue_t]; [pollfd] is an index into [fds] ([None] for
    [NULL]), so that the queue and the scan of [main] share one entry. *)
Record buffer_queue_t := mk_queue {
  buf : list buffer_t;
  buf_tail : Z;
  buf_head : Z;
  pollfd : option nat;
  xfer_length : Z;
  xfer_written : Z;
  shutdown : bool;
  error : bool
}.

(** Calls made by the program. *)
Inductive action :=
| AFcntl (fd_ : Z)
| APoll (ret : Z)
| ARead (b : nat) (count ret : Z)
| AWrite (b : nat) (off count ret : Z)
| ASubmit (x : nat) (q : option qref) (ep len ret : Z)
| AHandleEvents
| ACallback (x : nat) (q : option qref) (st : libusb_transfer_status)
| AStderr (msg : string).

Record state := mk_state {
  fds : list pollfd_t;
  usb_write_buf : buffer_queue_t;
  usb_read_buf : buffer_queue_t;
  xfers : list libusb_transfer;
  mallocs : nat;
  trace : list action
}.

(** What the command line and the transport hand to the loop: the two
    endpoint numbers ([-1] when not given), the descriptors of
    [libusb_get_pollfds] with their interest masks, and the indeterminate
    contents of the two [size_t] fields [main] leaves unset. *)
Record env := mk_env {
  read_ep : Z;
  write_ep : Z;
  usb_fds : list (Z * Z);
  junk : Z
}.

(** ** Field updates *)

Definition set_events (e : Z) (p : pollfd_t) : pollfd_t :=
  mk_pollfd (fd p) e (revents p).
Definition set_revents (r : Z) (p : pollfd_t) : pollfd_t :=
  mk_pollfd (fd p) (events p) r.

Definition set_buf (b : list buffer_t) (q : buffer_queue_t) :=
  mk_queue b (buf_tail q) (buf_head q) (pollfd q) (xfer_length q) (xfer_written q) (shutdown q) (error q).
Definition set_buf_tail (t : Z) (q : buffer_queue_t) :=
  mk_queue (buf q) t (buf_head q) (pollfd q) (xfer_length q) (xfer_written q) (shutdown q) (error q).
Definition set_buf_head (h : Z) (q : buffer_queue_t) :=
  mk_queue (buf q) (buf_tail q) h (pollfd q) (xfer_length q) (xfer_written q) (shutdown q) (error q).
Definition set_pollfd (p : option nat) (q : buffer_queue_t) :=
  mk_queue (buf q) (buf_tail q) (buf_head q) p (xfer_length q) (xfer_written q) (shutdown q) (error q).
Definition set_xfer_length (n : Z) (q : buffer_queue_t) :=
  mk_queue (buf q) (buf_tail q) (buf_head q) (pollfd q) n (xfer_written q) (shutdown q) (error q).
Definition set_xfer_written (n : Z) (q : buffer_queue_t) :=
  mk_queue (buf q) (buf_tail q) (buf_head q) (pollfd q) (xfer_length q) n (shutdown q) (error q).
Definition set_shutdown (b : bool) (q : buffer_queue_t) :=
  mk_queue (buf q) (buf_tail q) (buf_head q) (pollfd q) (xfer_length q) (xfer_written q) b (error q).
Definition set_error (b : bool) (q : buffer_queue_t) :=
  mk_queue (buf q) (buf_tail q) (buf_head q) (pollfd q) (xfer_length q) (xfer_written q) (shutdown q) b.

Definition set_fds (f : list pollfd_t) (s : state) :=
  mk_state f (usb_write_buf s) (usb_read_buf s) (xfers s) (mallocs s) (trace s).
Definition set_xfers (x : list libusb_transfer) (s : state) :=
  mk_state (fds s) (usb_write_buf s) (usb_read_buf s) x (mallocs s) (trace s).
Definition set_mallocs (n : nat) (s : state) :=
  mk_state (fds s) (usb_write_buf s) (usb_read_buf s) (xfers s) n (trace s).
Definition set_trace (t : list action) (s : state) :=
  mk_state (fds s) (usb_write_buf s) (usb_read_buf s) (xfers s) (mallocs s) t.

(** Dereference of a [struct buffer_queue_t *]. *)
Definition getq (r : qref) (s : state) : buffer_queue_t :=
  match r with
  | usb_write_buf_ref => usb_write_buf s
  | usb_read_buf_ref => usb_read_buf s
  end.
Definition setq (r : qref) (q : buffer_queue_t) (s : state) : state :=
  match r with
  | usb_write_buf_ref => mk_state (fds s) q (usb_read_buf s) (xfers s) (mallocs s) (trace s)
  | usb_read_buf_ref => mk_state (fds s) (usb_write_buf s) q (xfers s) (mallocs s) (trace s)
  end.
Definition updq (r : qref) (f : buffer_queue_t -> buffer_queue_t) (s : state) : state :=
  setq r (f (getq r s)) s.

(** [fds[i].events = f (fds[i].events)] and an assignment to fields of
    transfer [x]; both are made through pointers that were followed before. *)
Definition upd_events (i : nat) (f : Z -> Z) (s : state) : state :=
  set_fds (alter (fun p => set_events (f (events p)) p) i (fds s)) s.

Definition upd_xfer (x : nat) (f : libusb_transfer -> libusb_transfer) (s : state) : state :=
  set_xfers (alter f x (xfers s)) s.

(** ** The world and the monad of runs *)

(** A completion delivered by the transport: the transfer, its status and
    the number of bytes moved. *)
Definition completion : Type := nat * libusb_transfer_status * Z.

Inductive response :=
| RFcntl (ret errno : Z)
| RPollReady (revs : list Z)
| RPollFail (errno : Z)
| RRead (ret errno : Z)
| RWrite (ret errno : Z)
| RSubmit (ret : Z)
| REvents (done : list completion) (ret : Z).

(** The four [assert]s of the source. *)
Inductive assertion :=
| assert_callback_space   (* usb_callback: q->buf_head != buf_tail *)
| assert_callback_mask    (* usb_callback: !(q->pollfd->events & mask) *)
| assert_stdin_spare      (* main, stdin branch: q->buf_head != q->buf_tail *)
| assert_stdout_queued.   (* main, stdout branch: q->buf_head != q->buf_tail *)

(** How a run ends: [main] returns or [exit] is called; an [assert] fails;
    a null or unassigned pointer is dereferenced; or the script holds no
    admissible response for the next call, and the run is known up to that
    call only. *)
Inductive outcome :=
| Returned (code : Z) (s : state)
| Aborted (a : assertion) (s : state)
| Faulted (s : state)
| Cut (s : state).

Inductive res (A : Type) :=
| Ok (a : A) (w : list response) (s : state)
| Stop (o : outcome).
Arguments Ok {A} a w s.
Arguments Stop {A} o.

Definition M (A : Type) : Type := list response -> state -> res A.

Definition ret {A} (a : A) : M A := fun w s => Ok a w s.
Definition bind {A B} (m : M A) (f : A -> M B) : M B :=
  fun w s => match m w s with
             | Ok a w' s' => f a w' s'
             | Stop o => Stop o
             end.

Declare Scope run_scope.
Delimit Scope run_scope with run.
Notation "x <- m ;; k" := (bind m (fun x => k))
  (at level 100, m at next level, right associativity) : run_scope.
Notation "m ;; k" := (bind m (fun _ => k))
  (at level 100, right associativity) : run_scope.
Local Open Scope run_scope.

Definition get : M state := fun w s => Ok s w s.
Definition modify (f : state -> state) : M unit := fun w s => Ok tt w (f s).
Definition halt {A} (o : state -> outcome) : M A := fun _ s => Stop (o s).
Definition log (a : action) : M unit := modify (fun s => set_trace (a :: trace s) s).

(** [assert(b)]. *)
Definition assert_ (a : assertion) (b : bool) : M unit :=
  if b then ret tt else halt (Aborted a).

(** Following a pointer. *)
Definition deref {A} (o : option A) : M A :=
  match o with
  | Some a => ret a
  | None => halt Faulted
  end.

(** The next response of the world, when it is one for this call. *)
Definition respond {A} (f : response -> option A) : M A :=
  fun w s => match w with
             | r :: w' => match f r with
                          | Some a => Ok a w' s
                          | None => Stop (Cut s)
                          end
             | [] => Stop (Cut s)
             end.

(** [fprintf(stderr, ...)]. *)
Definition eprint (msg : string) : M unit := log (AStderr msg).

(** ** The calls into the system and the transport *)

(** [fcntl(fd, ...)]. *)
Definition fcntl (fd_ : Z) : M (Z * Z) :=
  r <- respond (fun r => match r with RFcntl v e => Some (v, e) | _ => None end) ;;
  log (AFcntl fd_) ;;
  ret r.

(** [poll] reports, for a descriptor, only events that were asked for, or
    [POLLERR], [POLLHUP], [POLLNVAL]. *)
Definition poll_admissible (p : pollfd_t) (rev : Z) : bool :=
  (0 <=? rev) &&
  (Z.land rev (Z.lnot (Z.lor (events p) (Z.lor POLLERR (Z.lor POLLHUP POLLNVAL)))) =? 0).

Fixpoint poll_fill (l : list pollfd_t) (revs : list Z) : option (list pollfd_t) :=
  match l, revs with
  | [], [] => Some []
  | p :: l', r :: revs' =>
      if poll_admissible p r
      then option_map (cons (set_revents r p)) (poll_fill l' revs')
      else None
  | _, _ => None
  end.

Definition count_ready (l : list pollfd_t) : Z :=
  Z.of_nat (List.length (List.filter (fun p => negb (revents p =? 0)) l)).

(** [poll(fds, fd_num, -1)]: the number of descriptors with events and
    their [revents] written into [fds], or [-1] and an [errno].  With an
    infinite timeout the call does not return 0. *)
Definition poll : M (Z * Z) :=
  r <- respond (fun r => match r with
                         | RPollReady revs => Some (inl revs)
                         | RPollFail e => Some (inr e)
                         | _ => None
                         end) ;;
  s <- get ;;
  match r with
  | inl revs =>
      match poll_fill (fds s) revs with
      | Some l =>
          if 0 <? count_ready l
          then modify (set_fds l) ;; log (APoll (count_ready l)) ;; ret (count_ready l, 0)
          else halt Cut
      | None => halt Cut
      end
  | inr e => log (APoll (-1)) ;; ret (-1, e)
  end.

(** [read(fd, data, count)] and [write(fd, data + off, count)]: a count
    between 0 and [count], or [-1] and an [errno]. *)
Definition sys_read (b : nat) (count : Z) : M (Z * Z) :=
  r <- respond (fun r => match r with RRead v e => Some (v, e) | _ => None end) ;;
  if (-1 <=? fst r) && (fst r <=? count)
  then log (ARead b count (fst r)) ;; ret r
  else halt Cut.

Definition sys_write (b : nat) (off count : Z) : M (Z * Z) :=
  r <- respond (fun r => match r with RWrite v e => Some (v, e) | _ => None end) ;;
  if (-1 <=? fst r) && (fst r <=? count)
  then log (AWrite b off count (fst r)) ;; ret r
  else halt Cut.

(** [libusb_alloc_transfer(0)] and [malloc]: a fresh zeroed transfer, a
    fresh buffer. *)
Definition libusb_alloc_transfer : M nat :=
  s <- get ;;
  modify (set_xfers (xfers s ++
    [mk_transfer 0 LIBUSB_TRANSFER_COMPLETED 0 0 None None false false])) ;;
  ret (List.length (xfers s)).

Definition malloc : M nat :=
  s <- get ;;
  modify (set_mallocs (S (mallocs s))) ;;
  ret (mallocs s).

(** [libusb_fill_bulk_transfer(xfer, usb_dev, ep, data, len, usb_callback,
    q, USB_TIMEOUT)]; the endpoint parameter is an [unsigned char]. *)
Definition filled (ep : Z) (d : option nat) (len : Z) (q : qref)
    (t : libusb_transfer) : libusb_transfer :=
  mk_transfer (u8 ep) (status t) len (actual_length t) d (Some q) true (submitted t).

Definition libusb_fill_bulk_transfer (x : nat) (ep : Z) (d : option nat) (len : Z)
    (q : qref) : M unit :=
  s <- get ;;
  t <- deref (xfers s !! x) ;;
  modify (upd_xfer x (filled ep d len q)).

(** [libusb_submit_transfer(xfer)]: on success the transport holds the
    transfer until it delivers its completion. *)
Definition held (b : bool) (t : libusb_transfer) : libusb_transfer :=
  mk_transfer (endpoint t) (status t) (xlength t) (actual_length t) (buffer t)
              (user_data t) (callback t) b.

Definition libusb_submit_transfer (x : nat) : M Z :=
  s <- get ;;
  t <- deref (xfers s !! x) ;;
  r <- respond (fun r => match r with RSubmit v => Some v | _ => None end) ;;
  log (ASubmit x (user_data t) (endpoint t) (xlength t) r) ;;
  (if r =? LIBUSB_SUCCESS then modify (upd_xfer x (held true)) else ret tt) ;;
  ret r.

(** ** [diag] and [non_blocking] *)

Definition diag (context : string) (ok : bool) : M bool :=
  if ok then ret ok
  else eprint context ;; halt (Returned 1).

Definition non_blocking (fd_ : Z) : M Z :=
  r <- fcntl fd_ ;;
  ok <- diag "F_GETFL" (negb (fst r =? -1)) ;;
  if ok then
    r' <- fcntl fd_ ;;
    ok' <- diag "F_SETFL" (negb (fst r' =? -1)) ;;
    if ok' then ret 0 else ret (-1)
  else ret (-1).

(** ** [usb_callback] *)

Definition usb_callback (x : nat) : M unit :=
  s <- get ;;
  xfer <- deref (xfers s !! x) ;;
  qr <- deref (user_data xfer) ;;
  let q := getq qr s in
  (* Check if the queue has space for one more buffer. *)
  let buf_tail' := u32 (buf_tail q + 1) mod USB_BUFS in
  assert_ assert_callback_space (negb (buf_head q =? buf_tail')) ;;
  match status xfer with
  | LIBUSB_TRANSFER_COMPLETED =>
      (* add the buffer to the queue tail *)
      modify (updq qr (fun q =>
        set_buf (<[Z.to_nat (buf_tail q) := mk_buffer (Some x) (buffer xfer)]> (buf q)) q)) ;;
      (if buf_head q =? buf_tail q then
         let mask := if Z.land (endpoint xfer) LIBUSB_ENDPOINT_DIR_MASK =? 0
                     then POLLIN else POLLOUT in
         p <- deref (pollfd q) ;;
         pf <- deref (fds s !! p) ;;
         assert_ assert_callback_mask (Z.land (events pf) mask =? 0) ;;
         if shutdown q then ret tt
         else
           (* If it is the first buffer, unblock the other side. *)
           modify (upd_events p (fun ev => Z.lor ev mask)) ;;
           (* Also, set up the pointers, necessary for writing only. *)
           modify (updq qr (set_xfer_written 0)) ;;
           modify (updq qr (set_xfer_length (size_t (actual_length xfer))))
       else ret tt) ;;
      modify (updq qr (set_buf_tail buf_tail'))
  | LIBUSB_TRANSFER_TIMED_OUT =>
      r <- libusb_submit_transfer x ;;
      if r =? LIBUSB_SUCCESS then ret tt
      else eprint "Error re-submitting timed-out transfer" ;; halt (Returned 1)
  | _ =>
      eprint "USB transfer failed on endpoint" ;;
      modify (updq qr (set_error true))
  end.

(** ** [libusb_handle_events_timeout] *)

(** One completion: the transport completes only a transfer it holds, with
    no more bytes than the transfer has room for, and calls its callback. *)
Definition completed (st : libusb_transfer_status) (n : Z)
    (t : libusb_transfer) : libusb_transfer :=
  mk_transfer (endpoint t) st (xlength t) n (buffer t) (user_data t) (callback t) false.

Definition deliver (c : completion) : M unit :=
  let '(x, st, n) := c in
  s <- get ;;
  match xfers s !! x with
  | Some t =>
      if submitted t && (0 <=? n) && (n <=? xlength t) then
        modify (upd_xfer x (completed st n)) ;;
        log (ACallback x (user_data t) st) ;;
        (if callback t then usb_callback x else ret tt)
      else halt Cut
  | None => halt Cut
  end.

Fixpoint deliver_all (cs : list completion) : M unit :=
  match cs with
  | [] => ret tt
  | c :: cs' => deliver c ;; deliver_all cs'
  end.

Definition libusb_handle_events_timeout : M Z :=
  r <- respond (fun r => match r with REvents cs v => Some (cs, v) | _ => None end) ;;
  log AHandleEvents ;;
  deliver_all (fst r) ;;
  ret (snd r).

(** ** The body of the loop in [main] *)

Section Main.

Variable e : env.

(** The branch [fds[i].fd == fd_in], up to the final [ret--]. *)
Definition on_stdin (i : nat) : M unit :=
  s <- get ;;
  p <- deref (fds s !! i) ;;
  let q := usb_write_buf s in
  if negb (Z.land (revents p) POLLIN =? 0) then
    (* check if there are spare buffers in the USB queue *)
    assert_ assert_stdin_spare (negb (buf_head q =? buf_tail q)) ;;
    b <- deref (buf q !! Z.to_nat (buf_head q)) ;;
    d <- deref (data b) ;;
    r <- sys_read d (USB_XFER_SZ / 2) ;;
    if 0 <? fst r then
      x <- deref (usb_xfer b) ;;
      libusb_fill_bulk_transfer x (write_ep e) (data b) (fst r) usb_write_buf_ref ;;
      rc <- libusb_submit_transfer x ;;
      if negb (rc =? LIBUSB_SUCCESS) then
        eprint "Error submitting USB OUT transfer" ;; halt (Returned EXIT_FAILURE)
      else
        let h := u32 (buf_head q + 1) mod USB_BUFS in
        modify (updq usb_write_buf_ref (set_buf_head h)) ;;
        (* No spare buffers, block stdin *)
        if h =? buf_tail q
        then modify (upd_events i (fun ev => Z.land ev (Z.lnot POLLIN)))
        else ret tt
    else if fst r =? 0 then
      (* End of input. *)
      modify (updq usb_write_buf_ref (set_shutdown true))
    else if negb (snd r =? EINTR) then
      eprint "Error reading input" ;; halt (Returned EXIT_FAILURE)
    else ret tt
  else
    (* POLHUP/POLLERR *)
    modify (updq usb_write_buf_ref (set_shutdown true)).

(** The branch [fds[i].fd == fd_out]; its final [ret--] decrements the
    [ssize_t ret] declared in the branch, not the count of [poll]. *)
Definition on_stdout (i : nat) : M unit :=
  s <- get ;;
  let q := usb_read_buf s in
  (* check if there are spare buffers in the USB queue *)
  assert_ assert_stdout_queued (negb (buf_head q =? buf_tail q)) ;;
  b <- deref (buf q !! Z.to_nat (buf_head q)) ;;
  p <- deref (pollfd q) ;;
  pf <- deref (fds s !! p) ;;
  d <- deref (data b) ;;
  r <- sys_write d (xfer_written q) (size_t (xfer_length q - xfer_written q)) ;;
  if 0 <=? fst r then
    let written := size_t (xfer_written q + fst r) in
    modify (updq usb_read_buf_ref (set_xfer_written written)) ;;
    (* When a buffer is fully sent to stdout, return it to USB and move to
       the next one. *)
    if written =? xfer_length q then
      x <- deref (usb_xfer b) ;;
      libusb_fill_bulk_transfer x (read_ep e) (data b) USB_XFER_SZ usb_read_buf_ref ;;
      rc <- libusb_submit_transfer x ;;
      if negb (rc =? LIBUSB_SUCCESS) then
        eprint "Error submitting USB IN transfer" ;; halt (Returned EXIT_FAILURE)
      else
        let h := u32 (buf_head q + 1) mod USB_BUFS in
        modify (updq usb_read_buf_ref (set_buf_head h)) ;;
        if negb (h =? buf_tail q) then
          s' <- get ;;
          b' <- deref (buf (usb_read_buf s') !! Z.to_nat h) ;;
          x' <- deref (usb_xfer b') ;;
          t' <- deref (xfers s' !! x') ;;
          modify (updq usb_read_buf_ref (set_xfer_written 0)) ;;
          modify (updq usb_read_buf_ref (set_xfer_length (size_t (actual_length t'))))
        else modify (upd_events i (fun ev => Z.land ev (Z.lnot POLLOUT)))
    else ret tt
  else if negb (snd r =? EINTR) then
    eprint "Error writing output" ;; halt (Returned EXIT_FAILURE)
  else ret tt.

(** [for (i = 0; i != fd_num && ret != 0; ++i)], with [n] descriptors left
    to look at.  A descriptor of the transport ends the scan. *)
Fixpoint scan (n : nat) (i : nat) (ret_ : Z) : M unit :=
  match n with
  | O => ret tt
  | S n' =>
      if ret_ =? 0 then ret tt
      else
        s <- get ;;
        p <- deref (fds s !! i) ;;
        if negb (Z.land (events p) (revents p) =? 0) then
          if fd p =? fd_in then
            on_stdin i ;; scan n' (S i) (ret_ - 1)
          else if fd p =? fd_out then
            on_stdout i ;; scan n' (S i) ret_
          else
            (* Check out any USB events. *)
            r <- libusb_handle_events_timeout ;;
            if negb (r =? LIBUSB_SUCCESS) then
              eprint "Error handling libusb events" ;; halt (Returned EXIT_FAILURE)
            else ret tt
        else scan n' (S i) ret_
  end.

(** One turn of the [while] loop. *)
Definition iteration : M unit :=
  r <- poll ;;
  if 0 <? fst r then
    s <- get ;;
    scan (List.length (fds s)) 0 (fst r)
  else if negb (snd r =? EINTR) then
    eprint "Poll returned error" ;; halt (Returned EXIT_FAILURE)
  else ret tt.

(** The condition of the [while] loop. *)
Definition loop_cond (s : state) : bool :=
  negb (error (usb_write_buf s))
  && negb (error (usb_read_buf s))
  && (negb (shutdown (usb_write_buf s))
      || negb (u32 (buf_tail (usb_write_buf s) + 1) mod USB_BUFS
               =? buf_head (usb_write_buf s))).

(** How the loop is left: by its condition, or because the run ended
    inside it. *)
Inductive loop_end :=
| Left_loop (s : state)
| Ended (o : outcome).

(** The [while] loop; each turn has its own script, of which it uses a
    prefix.  When the scripts run out the run is cut at the [poll]. *)
Fixpoint event_loop (iters : list (list response)) (s : state) : loop_end :=
  if loop_cond s then
    match iters with
    | [] => Ended (Cut s)
    | w :: iters' =>
        match iteration w s with
        | Ok _ _ s' => event_loop iters' s'
        | Stop o => Ended o
        end
    end
  else Left_loop s.

(** ** Set-up of the two queues *)

Fixpoint alloc_write_bufs (n : nat) (i : nat) : M unit :=
  match n with
  | O => ret tt
  | S n' =>
      x <- libusb_alloc_transfer ;;
      d <- malloc ;;
      modify (updq usb_write_buf_ref (fun q =>
        set_buf (<[i := mk_buffer (Some x) (Some d)]> (buf q)) q)) ;;
      alloc_write_bufs n' (S i)
  end.

Fixpoint submit_read_bufs (n : nat) : M unit :=
  match n with
  | O => ret tt
  | S n' =>
      x <- libusb_alloc_transfer ;;
      d <- malloc ;;
      libusb_fill_bulk_transfer x (read_ep e) (Some d) USB_XFER_SZ usb_read_buf_ref ;;
      rc <- libusb_submit_transfer x ;;
      if negb (rc =? LIBUSB_SUCCESS) then
        eprint "Error submitting transfer" ;; halt (Returned EXIT_FAILURE)
      else submit_read_bufs n'
  end.

(** [fds[fd_num] = p; fd_num++]: [fd_num] is the length of [fds]. *)
Definition push_fd (p : pollfd_t) : M unit :=
  modify (fun s => set_fds (fds s ++ [p]) s).

Definition setup_write : M unit :=
  modify (updq usb_write_buf_ref (set_buf_head 0)) ;;
  modify (updq usb_write_buf_ref (set_shutdown false)) ;;
  modify (updq usb_write_buf_ref (set_error false)) ;;
  non_blocking fd_in ;;
  if 0 <=? write_ep e then
    s <- get ;;
    modify (updq usb_write_buf_ref (set_buf_tail (USB_BUFS - 1))) ;;
    modify (updq usb_write_buf_ref (set_pollfd (Some (List.length (fds s))))) ;;
    alloc_write_bufs (Z.to_nat (USB_BUFS - 1)) 0 ;;
    push_fd (mk_pollfd fd_in (Z.lor POLLIN (Z.lor POLLHUP POLLERR)) 0)
  else
    modify (updq usb_write_buf_ref (set_buf_tail 0)) ;;
    modify (updq usb_write_buf_ref (set_pollfd None)).

Definition setup_read : M unit :=
  modify (updq usb_read_buf_ref (set_buf_head 0)) ;;
  modify (updq usb_read_buf_ref (set_buf_tail 0)) ;;
  modify (updq usb_read_buf_ref (set_shutdown false)) ;;
  modify (updq usb_read_buf_ref (set_error false)) ;;
  non_blocking fd_out ;;
  if 0 <=? read_ep e then
    s <- get ;;
    modify (updq usb_read_buf_ref (set_pollfd (Some (List.length (fds s))))) ;;
    submit_read_bufs (Z.to_nat (USB_BUFS - 1)) ;;
    (* no polling of stdout until there is data to send *)
    push_fd (mk_pollfd fd_out (Z.lor POLLHUP POLLERR) 0)
  else
    modify (updq usb_read_buf_ref (set_pollfd None)).

(** Copy USB fds to the poll fd array. *)
Definition copy_usb_fds : M unit :=
  modify (fun s => set_fds (fds s ++ List.map (fun p => mk_pollfd (fst p) (snd p) 0) (usb_fds e)) s).

Definition setup : M unit :=
  setup_write ;; setup_read ;; copy_usb_fds.

(** The automatic variables of [main] before they are assigned: the slots
    of both rings hold no pointer, [xfer_length] and [xfer_written] hold
    whatever the stack held. *)
Definition blank_queue : buffer_queue_t :=
  mk_queue (List.repeat (mk_buffer None None) (Z.to_nat USB_BUFS))
           (junk e) (junk e) None (junk e) (junk e) false false.

Definition blank : state :=
  mk_state [] blank_queue blank_queue [] 0 [].

(** [main], from [libusb_get_pollfds] on.  After the loop the interface is
    released and the device closed, and [main] returns [EXIT_SUCCESS]. *)
Definition main (w0 : list response) (iters : list (list response)) : outcome :=
  match setup w0 blank with
  | Stop o => o
  | Ok _ _ s =>
      match event_loop iters s with
      | Left_loop s' => Returned EXIT_SUCCESS s'
      | Ended o => o
      end
  end.

End Main.

(** ** Configurations *)

(** Which directions are enabled, and where the second one finds its
    descriptor, its transfer and its buffer: the write side is set up
    first. *)
Definition we (e : env) : bool := 0 <=? write_ep e.
Definition re (e : env) : bool := 0 <=? read_ep e.
Definition ixR (e : env) : nat := if we e then 1%nat else 0%nat.

(** The configurations the usage text asks for: a write endpoint is an OUT
    endpoint (bit 7 clear), a read endpoint an IN endpoint (bit 7 set); and
    the descriptors of the transport are not the standard streams, which are
    open when the transport opens its own. *)
Definition well_configured (e : env) : bool :=
  (negb (we e) || (Z.land (u8 (write_ep e)) LIBUSB_ENDPOINT_DIR_MASK =? 0))
  && (negb (re e) || negb (Z.land (u8 (read_ep e)) LIBUSB_ENDPOINT_DIR_MASK =? 0))
  && forallb (fun p => negb (fst p =? fd_in) && negb (fst p =? fd_out)) (usb_fds e).

(** The descriptors of [fds], in order. *)
Definition layout (e : env) : list Z :=
  (if we e then [fd_in] else []) ++ (if re e then [fd_out] else [])
  ++ List.map fst (usb_fds e).

(** ** Occupancy *)

Definition same_queue (a b : qref) : bool :=
  match a, b with
  | usb_write_buf_ref, usb_write_buf_ref => true
  | usb_read_buf_ref, usb_read_buf_ref => true
  | _, _ => false
  end.

(** Transfers of a queue held by the transport. *)
Definition owned_by (r : qref) (t : libusb_transfer) : bool :=
  match user_data t with
  | Some r' => same_queue r r'
  | None => false
  end.
Definition in_flight (r : qref) (s : state) : Z :=
  Z.of_nat (List.length (List.filter (fun t => submitted t && owned_by r t) (xfers s))).

(** Slots between [buf_head] and [buf_tail]. *)
Definition occupied (q : buffer_queue_t) : Z :=
  (buf_tail q - buf_head q) mod USB_BUFS.

(** ** Traces *)

Definition terminal (st : libusb_transfer_status) : bool :=
  match st with
  | LIBUSB_TRANSFER_COMPLETED | LIBUSB_TRANSFER_TIMED_OUT => false
  | _ => true
  end.

(** A completion with a terminal status was delivered for queue [q]. *)
Definition failed_on (q : qref) (a : action) : bool :=
  match a with
  | ACallback _ (Some q') st => same_queue q q' && terminal st
  | _ => false
  end.
Definition errored (q : qref) (t : list action) : bool := existsb (failed_on q) t.

(** A read returned 0. *)
Definition is_eof (a : action) : bool :=
  match a with ARead _ _ r => r =? 0 | _ => false end.
Definition eof_seen (t : list action) : bool := existsb is_eof t.

Definition is_read (a : action) : bool :=
  match a with ARead _ _ _ => true | _ => false end.
Definition reads (t : list action) : nat := List.length (List.filter is_read t).

(** The newest call is not a read that took bytes in. *)
Definition settled (t : list action) : Prop :=
  match t with
  | ARead _ _ n :: _ => n <= 0
  | _ => True
  end.

Section Order.

Variable e : env.

(** What may come after what: [a] is the call made after the calls [pre]. *)
Definition ok_after (a : action) (pre : list action) : Prop :=
  match a with
  | APoll _ =>
      errored usb_write_buf_ref pre = false /\ errored usb_read_buf_ref pre = false
  | ASubmit _ (Some q) _ _ _ => errored q pre = false
  | ARead _ _ _ => eof_seen pre = false
  | _ => True
  end
  /\ match pre with
     | ARead b _ n :: _ =>
         0 < n -> exists x r, a = ASubmit x (Some usb_write_buf_ref) (u8 (write_ep e)) n r
     | _ => True
     end.

Fixpoint orderly (t : list action) : Prop :=
  match t with
  | [] => True
  | a :: pre => ok_after a pre /\ orderly pre
  end.

End Order.

(** ** The invariant *)

(** Interest masks of the two standard streams. *)
Definition ev_quiet : Z := Z.lor POLLHUP POLLERR.
Definition ev_stdin_on : Z := Z.lor POLLIN (Z.lor POLLHUP POLLERR).
Definition ev_stdout_on : Z := Z.lor (Z.lor POLLHUP POLLERR) POLLOUT.

Section Invariant.

Variable e : env.

(** The write side, seen through its queue, its descriptor and its one
    transfer: either the transfer waits in the ring for a read (and
    [POLLIN] is asked for unless input is shut down), or head has caught up
    with tail, [POLLIN] is withdrawn and the transport holds the transfer,
    unless it failed. *)
Inductive wside (q : buffer_queue_t) (pf : pollfd_t) (t : libusb_transfer) : Prop :=
| W_spare :
    buf_head q <> buf_tail q ->
    buf q !! Z.to_nat (buf_head q) = Some (mk_buffer (Some 0%nat) (Some 0%nat)) ->
    submitted t = false ->
    error q = false ->
    (events pf = ev_stdin_on \/ (shutdown q = true /\ events pf = ev_quiet)) ->
    wside q pf t
| W_flight :
    buf_head q = buf_tail q ->
    events pf = ev_quiet ->
    submitted t = negb (error q) ->
    user_data t = Some usb_write_buf_ref ->
    endpoint t = u8 (write_ep e) ->
    buffer t = Some 0%nat ->
    callback t = true ->
    wside q pf t.

Record inv_write (s : state) : Prop := {
  iw_off : we e = false ->
      buf_head (usb_write_buf s) = 0 /\ buf_tail (usb_write_buf s) = 0
      /\ shutdown (usb_write_buf s) = false /\ error (usb_write_buf s) = false
      /\ pollfd (usb_write_buf s) = None;
  iw_on : we e = true ->
      pollfd (usb_write_buf s) = Some 0%nat
      /\ List.length (buf (usb_write_buf s)) = 2%nat
      /\ 0 <= buf_head (usb_write_buf s) < 2
      /\ 0 <= buf_tail (usb_write_buf s) < 2
      /\ exists pf t, fds s !! 0%nat = Some pf /\ xfers s !! 0%nat = Some t
                      /\ wside (usb_write_buf s) pf t
}.

(** The read side: either the transport holds the transfer (unless it
    failed) and [POLLOUT] is not asked for, or the completed transfer sits
    at the head, partly written, and [POLLOUT] is asked for. *)
Inductive rside (q : buffer_queue_t) (pf : pollfd_t) (t : libusb_transfer) : Prop :=
| R_flight :
    buf_head q = buf_tail q ->
    events pf = ev_quiet ->
    submitted t = negb (error q) ->
    rside q pf t
| R_queued :
    buf_head q <> buf_tail q ->
    events pf = ev_stdout_on ->
    buf q !! Z.to_nat (buf_head q) = Some (mk_buffer (Some (ixR e)) (Some (ixR e))) ->
    submitted t = false ->
    error q = false ->
    0 <= xfer_written q <= xfer_length q ->
    xfer_length q = actual_length t ->
    0 <= actual_length t <= USB_XFER_SZ ->
    rside q pf t.

Record inv_read (s : state) : Prop := {
  ir_off : re e = false ->
      buf_head (usb_read_buf s) = 0 /\ buf_tail (usb_read_buf s) = 0
      /\ error (usb_read_buf s) = false /\ pollfd (usb_read_buf s) = None;
  ir_shutdown : shutdown (usb_read_buf s) = false;
  ir_on : re e = true ->
      pollfd (usb_read_buf s) = Some (ixR e)
      /\ List.length (buf (usb_read_buf s)) = 2%nat
      /\ 0 <= buf_head (usb_read_buf s) < 2
      /\ 0 <= buf_tail (usb_read_buf s) < 2
      /\ exists pf t, fds s !! ixR e = Some pf /\ xfers s !! ixR e = Some t
                      /\ user_data t = Some usb_read_buf_ref
                      /\ endpoint t = u8 (read_ep e)
                      /\ buffer t = Some (ixR e)
                      /\ callback t = true
                      /\ xlength t = USB_XFER_SZ
                      /\ rside (usb_read_buf s) pf t
}.

Definition count (b : bool) : nat := if b then 1%nat else 0%nat.

Record inv (s : state) : Prop := {
  inv_layout : List.map fd (fds s) = layout e;
  inv_store : List.length (xfers s) = (count (we e) + count (re e))%nat;
  inv_w : inv_write s;
  inv_r : inv_read s
}.

(** What holds of the trace, and of the flags with it, at every point of a
    run; [keep] fixes the number of reads once input is shut down. *)
Record inv_trace (keep : option nat) (s : state) : Prop := {
  it_order : orderly e (trace s);
  it_error : forall q, errored q (trace s) = true -> error (getq q s) = true;
  it_eof : eof_seen (trace s) = true -> shutdown (usb_write_buf s) = true;
  it_keep : forall n, keep = Some n ->
      shutdown (usb_write_buf s) = true /\ reads (trace s) = n
}.

(** Between two calls of the loop.  Once a read of 0 bytes is on record
    the write side keeps its spare buffer: nothing is in flight. *)
Record steady (keep : option nat) (s : state) : Prop := {
  st_inv : inv s;
  st_trace : inv_trace keep s;
  st_settled : settled (trace s);
  st_eof : eof_seen (trace s) = true ->
      buf_head (usb_write_buf s) <> buf_tail (usb_write_buf s)
}.

(** While [fds] is scanned from index [i] on: no error flag is set yet,
    what [poll] wrote for the entries still to be looked at is admissible,
    and before the stdin entry is looked at a shut-down write side has no
    spare buffer. *)
Record scanning (keep : option nat) (i : nat) (s : state) : Prop := {
  sc_steady : steady keep s;
  sc_werr : error (usb_write_buf s) = false;
  sc_rerr : error (usb_read_buf s) = false;
  sc_adm : forall j pf, (i <= j)%nat -> fds s !! j = Some pf ->
      poll_admissible pf (revents pf) = true;
  sc_shut : i = 0%nat -> shutdown (usb_write_buf s) = true ->
      buf_head (usb_write_buf s) = buf_tail (usb_write_buf s)
}.

Definition outcome_state (o : outcome) : state :=
  match o with
  | Returned _ s | Aborted _ s | Faulted s | Cut s => s
  end.

(** How a run may end inside the loop: with status [EXIT_FAILURE]; cut; or
    on the assertion of the stdout branch, and then with a stdout entry for
    which [poll] reported no [POLLOUT]. *)
Definition ending (keep : option nat) (o : outcome) : Prop :=
  inv_trace keep (outcome_state o)
  /\ match o with
     | Returned c _ => c = EXIT_FAILURE
     | Aborted a s =>
         a = assert_stdout_queued
         /\ exists pf, fds s !! ixR e = Some pf /\ fd pf = fd_out
                       /\ Z.land (revents pf) POLLOUT = 0
                       /\ buf_head (usb_read_buf s) = buf_tail (usb_read_buf s)
     | Faulted _ => False
     | Cut _ => True
     end.

End Invariant.

(** ** Repeated writes *)

(** The stdout branch taken [n] times, as over [n] turns of the loop in
    which only standard output is ready. *)
Fixpoint repeat_stdout (e : env) (i : nat) (n : nat) : M unit :=
  match n with
  | O => ret tt
  | S n' => on_stdout e i ;; repeat_stdout e i n'
  end.

(** The record of a series of writes of [ks] bytes each, from the buffer
    [d] of length [len], starting at offset [off]. *)
Fixpoint write_log (d : nat) (off len : Z) (ks : list Z) (t : list action) : list action :=
  match ks with
  | [] => t
  | k :: ks' => write_log d (off + k) len ks' (AWrite d off (len - off) k :: t)
  end.

Definition sum_list (ks : list Z) : Z := List.fold_right Z.add 0 ks.

(** ** Sample configurations and scripts *)

(** [-r 0x81 -w 0x01], [-r 0x81] and [-w 0x01], with one descriptor of the
    transport. *)
Definition cfg_both : env := mk_env 129 1 [(5, POLLIN)] 0.
Definition cfg_read : env := mk_env 129 (-1) [(5, POLLIN)] 0.
Definition cfg_write : env := mk_env (-1) 1 [(5, POLLIN)] 0.

(** Set-up in which every call succeeds. *)
Definition setup_fine : list response :=
  [RFcntl 0 0; RFcntl 0 0; RFcntl 0 0; RFcntl 0 0; RSubmit LIBUSB_SUCCESS].

(** Read-only: the first inbound transfer stalls. *)
Definition run_stall : list (list response) :=
  [[RPollReady [0; POLLIN]; REvents [(0%nat, LIBUSB_TRANSFER_STALL, 0)] LIBUSB_SUCCESS]].

(** Write-only: the first read fails with [EAGAIN]. *)
Definition run_read_eagain : list (list response) :=
  [[RPollReady [POLLIN; 0]; RRead (-1) EAGAIN]].

(** Read-only: ten bytes arrive, then the write fails with [EAGAIN]. *)
Definition run_arrival : list (list response) :=
  [[RPollReady [0; POLLIN];
    REvents [(0%nat, LIBUSB_TRANSFER_COMPLETED, 10)] LIBUSB_SUCCESS]].
Definition run_write_eagain : list (list response) :=
  run_arrival ++ [[RPollReady [POLLOUT; 0]; RWrite (-1) EAGAIN]].

(** Both directions: 100 bytes are read and submitted, standard input hangs
    up while they are in flight, then the inbound transfer stalls. *)
Definition run_hangup : list (list response) :=
  [[RPollReady [POLLIN; 0; 0]; RRead 100 0; RSubmit LIBUSB_SUCCESS];
   [RPollReady [POLLHUP; 0; 0]]].
Definition run_hangup_stall : list (list response) :=
  run_hangup
  ++ [[RPollReady [0; 0; POLLIN];
       REvents [(1%nat, LIBUSB_TRANSFER_STALL, 0)] LIBUSB_SUCCESS]].

(** Both directions: 100 bytes are read and submitted, their transfer
    completes, and the next read returns 0. *)
Definition run_eof : list (list response) :=
  [[RPollReady [POLLIN; 0; 0]; RRead 100 0; RSubmit LIBUSB_SUCCESS];
   [RPollReady [0; 0; POLLIN];
    REvents [(0%nat, LIBUSB_TRANSFER_COMPLETED, 100)] LIBUSB_SUCCESS];
   [RPollReady [POLLIN; 0; 0]; RRead 0 0]].

(** Write-only: one read of 100 bytes. *)
Definition turn_read : list response :=
  [RPollReady [POLLIN; 0]; RRead 100 0; RSubmit LIBUSB_SUCCESS].

(** Read-only: standard output reports [POLLERR] before anything arrived. *)
Definition run_stdout_err : list (list response) := [[RPollReady [POLLERR; 0]]].

(** Write-only: 100 bytes are read and submitted, standard input hangs up,
    then the transfer completes. *)
Definition run_drain_start : list (list response) :=
  [turn_read; [RPollReady [POLLHUP; 0]]].
Definition run_drain : list (list response) :=
  run_drain_start
  ++ [[RPollReady [0; POLLIN];
       REvents [(0%nat, LIBUSB_TRANSFER_COMPLETED, 100)] LIBUSB_SUCCESS]].

(** Both directions: the read is interrupted and ten bytes arrive. *)
Definition run_both_ready : list (list response) :=
  [[RPollReady [POLLIN; 0; POLLIN]; RRead (-1) EINTR;
    REvents [(1%nat, LIBUSB_TRANSFER_COMPLETED, 10)] LIBUSB_SUCCESS]].

(** The state in which a run was cut or ended. *)
Definition state_after (e : env) (iters : list (list response)) : state :=
  outcome_state (main e setup_fine iters).

(** ** From the command line to the loop *)

(** Conversion of an [unsigned long] or an [unsigned] to [int], as the
    compilers of the platform do it. *)
Definition s32 (x : Z) : Z := (x + 2 ^ 31) mod 2 ^ 32 - 2 ^ 31.

(** What [getopt_long] hands to the [switch] of [main], call after call;
    an option with an argument carries what [strtoul(optarg, NULL, 0)]
    returns for it.  [opt_unknown msg] is ['?'], for an option that is not
    known or lacks its argument: [opterr] is never cleared, so that
    [getopt_long] has printed a line [msg] of its own on standard error
    before it returns. *)
Inductive cli_option :=
| opt_v (n : Z)
| opt_p (n : Z)
| opt_i (n : Z)
| opt_d
| opt_r (n : Z)
| opt_w (n : Z)
| opt_h
| opt_unknown (msg : string).

(** The variables of [main] that the options set: [ret], [help], [detach],
    [vid], [pid], [int_no], [read_ep] and [write_ep]. *)
Record options := mk_options {
  o_ret : Z;
  o_help : bool;
  o_detach : bool;
  o_vid : Z;
  o_pid : Z;
  o_int_no : Z;
  o_read_ep : Z;
  o_write_ep : Z
}.

Definition defaults : options :=
  mk_options EXIT_SUCCESS false false 0 0 0 (-1) (-1).

(** The [switch (c)]. *)
Definition set_option (l : options) (o : cli_option) : options :=
  match o with
  | opt_v n => mk_options (o_ret l) (o_help l) (o_detach l) (u32 n) (o_pid l) (o_int_no l)
                          (o_read_ep l) (o_write_ep l)
  | opt_p n => mk_options (o_ret l) (o_help l) (o_detach l) (o_vid l) (u32 n) (o_int_no l)
                          (o_read_ep l) (o_write_ep l)
  | opt_i n => mk_options (o_ret l) (o_help l) (o_detach l) (o_vid l) (o_pid l) (u32 n)
                          (o_read_ep l) (o_write_ep l)
  | opt_d => mk_options (o_ret l) (o_help l) true (o_vid l) (o_pid l) (o_int_no l)
                        (o_read_ep l) (o_write_ep l)
  | opt_r n => mk_options (o_ret l) (o_help l) (o_detach l) (o_vid l) (o_pid l) (o_int_no l)
                          (s32 n) (o_write_ep l)
  | opt_w n => mk_options (o_ret l) (o_help l) (o_detach l) (o_vid l) (o_pid l) (o_int_no l)
                          (o_read_ep l) (s32 n)
  | opt_h => mk_options (o_ret l) true (o_detach l) (o_vid l) (o_pid l) (o_int_no l)
                        (o_read_ep l) (o_write_ep l)
  | opt_unknown _ => mk_options EXIT_FAILURE (o_help l) (o_detach l) (o_vid l) (o_pid l)
                              (o_int_no l) (o_read_ep l) (o_write_ep l)
  end.

(** The [while] loop around [getopt_long]; [char] is signed on the
    platform, so that the loop ends when [getopt_long] returns -1. *)
Definition getopt_loop (opts : list cli_option) : options :=
  List.fold_left set_option opts defaults.

(** Calls made on the way to the loop and after it, oldest first; an
    interface number is recorded as the [int] that the transport is
    handed. *)
Inductive call :=
| c_stderr (msg : string)
| c_stdout (msg : string)
| c_init (r : Z)
| c_get_device_list (cnt : Z)
| c_get_device_descriptor (i : nat) (r : Z)
| c_open (i : nat) (r : Z)
| c_free_device_list
| c_detach_kernel_driver (int_no : Z) (r : Z)
| c_claim_interface (int_no : Z) (r : Z)
| c_get_pollfds
| c_release_interface (int_no : Z)
| c_close
| c_exit.

(** A device of the list: what [libusb_get_device_descriptor] returns for
    it and writes into the descriptor, and what [libusb_open] returns. *)
Record usb_device := mk_device {
  descriptor_ret : Z;
  idVendor : Z;
  idProduct : Z;
  open_ret : Z
}.

(** What the transport answers on the way to the loop: the results of
    [libusb_init], [libusb_get_device_list] (the count and the list),
    [libusb_detach_kernel_driver], [libusb_claim_interface] and
    [libusb_get_pollfds], and what the stack holds where the queues are
    going to be. *)
Record usb_world := mk_world {
  init_ret : Z;
  device_cnt : Z;
  device_list : list usb_device;
  detach_ret : Z;
  claim_ret : Z;
  pollfds : list (Z * Z);
  stack_junk : Z
}.

(** What [getopt_long] itself prints while the options are read. *)
Definition getopt_said (opts : list cli_option) : list call :=
  List.flat_map (fun o => match o with opt_unknown msg => [c_stderr msg] | _ => [] end) opts.

(** [usage(help)]. *)
Definition usage (help : bool) : list call :=
  c_stderr "Usage: usbcat [-d] -v vid -p pid [-i interface] [-r read-endpoint] [-w write-endoint]"
  :: (if help then [c_stdout "Read or write raw data to USB endpoints."] else []).

(** The [for] loop of [open_device], at index [i] with the devices [rest]
    from there on: the handle that [h] ends with ([Some None] for [NULL]),
    or [None] when [devices[i]] is not a device of the list. *)
Fixpoint open_scan (vid pid cnt : Z) (i : nat) (rest : list usb_device)
    : list call * option (option nat) :=
  if Z.of_nat i =? cnt - 1 then ([], Some None)
  else
    match rest with
    | [] => ([], None)
    | d :: rest' =>
        let next := open_scan vid pid cnt (S i) rest' in
        if negb (descriptor_ret d =? 0) then
          (c_get_device_descriptor i (descriptor_ret d) :: fst next, snd next)
        else if (idVendor d =? vid) && (idProduct d =? pid) then
          if open_ret d =? 0 then
            ([c_get_device_descriptor i 0; c_open i 0], Some (Some i))
          else
            (c_get_device_descriptor i 0 :: c_open i (open_ret d)
               :: c_stderr "Error opening device" :: fst next, snd next)
        else (c_get_device_descriptor i 0 :: fst next, snd next)
    end.

(** [open_device(ctx, vid, pid)]. *)
Definition open_device (W : usb_world) (vid pid : Z) : list call * option (option nat) :=
  let cnt := device_cnt W in
  if cnt =? 0 then
    ([c_get_device_list cnt; c_stderr "Error getting USB device list"], Some None)
  else
    let r := open_scan vid pid cnt 0 (device_list W) in
    match snd r with
    | None => (c_get_device_list cnt :: fst r, None)
    | Some h => (c_get_device_list cnt :: fst r ++ [c_free_device_list], Some h)
    end.

(** How the way to the loop ends: [main] returns, the run is lost in
    [open_device], or the device is open and its interface claimed. *)
Inductive start :=
| Exits (code : Z)
| Lost
| Starts (l : options) (dev : nat).

(** [main] up to [libusb_get_pollfds]. *)
Definition before_loop (opts : list cli_option) (W : usb_world) : list call * start :=
  let l := getopt_loop opts in
  if o_help l then (getopt_said opts ++ usage true, Exits (o_ret l))
  else
    let no_ids := (o_vid l =? 0) || (o_pid l =? 0) in
    let no_ep := (o_read_ep l <? 0) && (o_write_ep l <? 0) in
    let said :=
      getopt_said opts
      ++ (if no_ids then [c_stderr "Vendor ID and product ID must be specified."] else [])
      ++ (if no_ep then [c_stderr "At least one endpoint number must be specified."] else []) in
    let ret_ := if no_ids || no_ep then EXIT_FAILURE else o_ret l in
    if negb (ret_ =? EXIT_SUCCESS) then (said ++ usage false, Exits ret_)
    else if negb (init_ret W =? LIBUSB_SUCCESS) then
      (said ++ [c_init (init_ret W); c_stderr "Error initializing libusb"], Exits EXIT_FAILURE)
    else
      let found := open_device W (o_vid l) (o_pid l) in
      let cs := said ++ c_init (init_ret W) :: fst found in
      match snd found with
      | None => (cs, Lost)
      | Some None => (cs ++ [c_stderr "Error finding USB device"], Exits EXIT_FAILURE)
      | Some (Some dev) =>
          let detached :=
            if o_detach l then
              c_detach_kernel_driver (s32 (o_int_no l)) (detach_ret W)
              :: (if negb (detach_ret W =? LIBUSB_SUCCESS)
                  then [c_stderr "Error detaching the kernel driver from the interface"]
                  else [])
            else [] in
          let cs' := cs ++ detached ++ [c_claim_interface (s32 (o_int_no l)) (claim_ret W)] in
          if negb (claim_ret W =? LIBUSB_SUCCESS) then
            (cs' ++ [c_stderr "Error claiming interface"], Exits EXIT_FAILURE)
          else (cs' ++ [c_get_pollfds], Starts l dev)
      end.

(** What the loop is given. *)
Definition loop_env (l : options) (W : usb_world) : env :=
  mk_env (o_read_ep l) (o_write_ep l) (pollfds W) (stack_junk W).

(** How the program ends: before set-up with a status, lost in
    [open_device], inside set-up or the loop, or after the loop, and then
    with status [EXIT_SUCCESS]. *)
Inductive finish :=
| Before (code : Z)
| Lost_before
| Inside (o : outcome)
| After (s : state).

(** The whole of [main]. *)
Definition usbcat (opts : list cli_option) (W : usb_world) (w0 : list response)
    (iters : list (list response)) : list call * finish :=
  match before_loop opts W with
  | (cs, Exits c) => (cs, Before c)
  | (cs, Lost) => (cs, Lost_before)
  | (cs, Starts l dev) =>
      let e := loop_env l W in
      match setup e w0 (blank e) with
      | Stop o => (cs, Inside o)
      | Ok _ _ s =>
          match event_loop e iters s with
          | Ended o => (cs, Inside o)
          | Left_loop s' =>
              (cs ++ [c_release_interface (s32 (o_int_no l)); c_close; c_exit], After s')
          end
      end
  end.

(** The status the process ends with, when it ends with one. *)
Definition exit_status (f : finish) : option Z :=
  match f with
  | Before c => Some c
  | Inside (Returned c _) => Some c
  | After _ => Some EXIT_SUCCESS
  | _ => None
  end.

(** A device that [open_device] takes: its descriptor can be read, its
    identifiers are the ones asked for, and it can be opened. *)
Definition usable (vid pid : Z) (d : usb_device) : bool :=
  (descriptor_ret d =? 0) && (idVendor d =? vid) && (idProduct d =? pid)
  && (open_ret d =? 0).

Definition is_help (o : cli_option) : bool :=
  match o with opt_h => true | _ => false end.
Definition is_unknown (o : cli_option) : bool :=
  match o with opt_unknown _ => true | _ => false end.

(** Calls that give back what the way to the loop has taken. *)
Definition is_cleanup (c : call) : bool :=
  match c with c_release_interface _ | c_close | c_exit => true | _ => false end.
Definition is_init (c : call) : bool :=
  match c with c_init _ => true | _ => false end.

(** The command line is in order: no unknown option, identifiers that are
    not 0, an endpoint that is not negative. *)
Definition command_line_ok (opts : list cli_option) : bool :=
  let l := getopt_loop opts in
  negb (existsb is_unknown opts) && negb (o_vid l =? 0) && negb (o_pid l =? 0)
  && ((0 <=? o_read_ep l) || (0 <=? o_write_ep l)).

(** ** Ways out of set-up and of the loop *)

(** A return with a reason: the status is [EXIT_FAILURE] and the newest
    call is a message on standard error. *)
Definition reported (o : outcome) : Prop :=
  match o with
  | Returned c s => c = EXIT_FAILURE /\ exists msg t, trace s = AStderr msg :: t
  | _ => True
  end.

(** ** Sizes *)

(** A call that stays within the buffers of [USB_XFER_SZ] bytes: a read
    asks for half a buffer; a write starts inside the buffer and does not
    reach past its end; a transfer to the write endpoint carries what one
    read took in, and a transfer from the read endpoint asks for a full
    buffer. *)
Definition within_buffer (e : env) (a : action) : Prop :=
  match a with
  | ARead _ count r => count = USB_XFER_SZ / 2 /\ r <= count
  | AWrite _ off count r =>
      0 <= off /\ 0 <= count /\ off + count <= USB_XFER_SZ /\ r <= count
  | ASubmit _ (Some usb_write_buf_ref) ep len _ =>
      ep = u8 (write_ep e) /\ 1 <= len <= USB_XFER_SZ / 2
  | ASubmit _ (Some usb_read_buf_ref) ep len _ =>
      ep = u8 (read_ep e) /\ len = USB_XFER_SZ
  | ASubmit _ None _ _ _ => False
  | _ => True
  end.

(** A transfer filled for its queue. *)
Definition sized (e : env) (t : libusb_transfer) : Prop :=
  match user_data t with
  | Some usb_write_buf_ref =>
      endpoint t = u8 (write_ep e) /\ 1 <= xlength t <= USB_XFER_SZ / 2
  | Some usb_read_buf_ref => endpoint t = u8 (read_ep e) /\ xlength t = USB_XFER_SZ
  | None => False
  end.

(** All calls so far stayed within the buffers, and so will the transfers
    that the transport holds when they are submitted again. *)
Record fits (e : env) (s : state) : Prop := {
  fit_trace : Forall (within_buffer e) (trace s);
  fit_held : forall x t, xfers s !! x = Some t -> submitted t = true -> sized e t
}.

(** ** Who holds a transfer *)

(** By the calls on record, the transport holds transfer [x]: its last
    submission succeeded and no completion has been delivered since. *)
Fixpoint flying (x : nat) (t : list action) : bool :=
  match t with
  | [] => false
  | ASubmit y _ _ _ r :: pre => if Nat.eqb y x then r =? LIBUSB_SUCCESS else flying x pre
  | ACallback y _ _ :: pre => if Nat.eqb y x then false else flying x pre
  | _ :: pre => flying x pre
  end.

(** The transfer a call hands over, or whose buffer it reads or writes:
    set-up allocates transfers and buffers in pairs, so that buffer [k] is
    the buffer of transfer [k]. *)
Definition touches (a : action) : option nat :=
  match a with
  | ASubmit x _ _ _ _ => Some x
  | ARead b _ _ => Some b
  | AWrite b _ _ _ => Some b
  | _ => None
  end.

(** No call touched a transfer that the transport held. *)
Fixpoint exclusive (t : list action) : Prop :=
  match t with
  | [] => True
  | a :: pre =>
      match touches a with
      | Some x => flying x pre = false
      | None => True
      end /\ exclusive pre
  end.

(** The record of calls and the transport agree on who holds what. *)
Record apart (s : state) : Prop := {
  ap_trace : exclusive (trace s);
  ap_held : forall x t, xfers s !! x = Some t -> submitted t = flying x (trace s)
}.

(** ** The poll set *)

(** The poll set holds the descriptors that set-up put there; what is asked
    of the descriptors of the transport is what the transport asked for;
    and POLLHUP and POLLERR are asked for on the standard streams. *)
Record poll_set_kept (e : env) (s : state) : Prop := {
  ps_fd : List.map fd (fds s) = layout e;
  ps_usb : List.map events (drop (count (we e) + count (re e)) (fds s))
           = List.map snd (usb_fds e);
  ps_std : forall j pf, (j < count (we e) + count (re e))%nat -> fds s !! j = Some pf ->
      Z.land (events pf) ev_quiet = ev_quiet
}.

(** ** What a submission follows *)

(** A transfer is submitted right after the [read] that filled its buffer,
    with the number of bytes read, right after a [write] to standard
    output, right after its own time-out, or, the first time on the read
    side, at the end of set-up. *)
Definition prompted (a : action) (before : list action) : Prop :=
  match a with
  | ASubmit x q ep len r =>
      match before with
      | ARead b c n :: _ => q = Some usb_write_buf_ref /\ len = n
      | AWrite b off c n :: _ => q = Some usb_read_buf_ref
      | ACallback y q' st :: _ => y = x /\ q' = q /\ st = LIBUSB_TRANSFER_TIMED_OUT
      | AFcntl _ :: _ => q = Some usb_read_buf_ref
      | _ => False
      end
  | _ => True
  end.

Fixpoint all_prompted (t : list action) : Prop :=
  match t with
  | [] => True
  | a :: t' => prompted a t' /\ all_prompted t'
  end.

(** ** Running a computation step by step *)

(** What holds after [m], on the script [w] from the state [s]: [Q] when it
    returns, [E] when the run ends in it. *)
Definition wp {A} (m : M A) (Q : A -> list response -> state -> Prop)
    (E : outcome -> Prop) (w : list response) (s : state) : Prop :=
  match m w s with
  | Ok a w' s' => Q a w' s'
  | Stop o => E o
  end.

(** Triples, for computations used as a whole. *)
Definition triple {A} (P : state -> Prop) (m : M A) (Q : A -> state -> Prop)
    (E : outcome -> Prop) : Prop :=
  forall w s, P s -> wp m (fun a _ s' => Q a s') E w s.

(** States between two turns of the loop, in some run. *)
Inductive reachable (e : env) : state -> Prop :=
| reach_setup (w w' : list response) (s : state) :
    setup e w (blank e) = Ok tt w' s -> reachable e s
| reach_turn (s : state) (w w' : list response) (s' : state) :
    reachable e s -> loop_cond s = true -> iteration e w s = Ok tt w' s' ->
    reachable e s'.

(** During set-up only [fcntl], messages and the first submissions of the
    read side are on record, and a state is known up to its trace. *)
Definition plain (t : list action) : bool :=
  forallb (fun a => match a with
                    | AFcntl _ | AStderr _ | ASubmit _ (Some usb_read_buf_ref) _ _ _ => true
                    | _ => false
                    end) t.

Definition same_but_trace (s0 s : state) : Prop :=
  fds s = fds s0 /\ usb_write_buf s = usb_write_buf s0
  /\ usb_read_buf s = usb_read_buf s0 /\ xfers s = xfers s0 /\ mallocs s = mallocs s0.

Definition starting (s0 s : state) : Prop :=
  same_but_trace s0 s /\ plain (trace s) = true.

(** Projections out of updated states and queues. *)
Ltac proj :=
  cbn [fds xfers trace usb_write_buf usb_read_buf mallocs
       upd_events upd_xfer updq setq getq set_fds set_xfers set_trace set_mallocs
       buf buf_tail buf_head pollfd xfer_length xfer_written shutdown error
       set_buf set_buf_tail set_buf_head set_pollfd set_xfer_length set_xfer_written
       set_shutdown set_error
       fd events revents set_events set_revents
       endpoint status xlength actual_length buffer user_data callback submitted
       filled held completed usb_xfer data fst snd negb].

(** A call is added to the trace: is a read of 0 bytes on record? *)
Ltac eof_step H :=
  intros H; cbn [eof_seen existsb is_eof orb] in H.

(** ** Basic facts *)

Lemma land_sub (r m b : Z) :
  Z.land r (Z.lnot m) = 0 -> Z.land m b = 0 -> Z.land r b = 0.
Proof.
  intros Hr Hm. apply Z.bits_inj'. intros n Hn.
  rewrite Z.land_spec, Z.bits_0.
  assert (H1 := f_equal (fun z => Z.testbit z n) Hr).
  assert (H2 := f_equal (fun z => Z.testbit z n) Hm).
  cbv beta in H1, H2.
  rewrite Z.land_spec, Z.lnot_spec, Z.bits_0 in H1 by exact Hn.
  rewrite Z.land_spec, Z.bits_0 in H2.
  destruct (Z.testbit r n), (Z.testbit m n), (Z.testbit b n); simpl in *; congruence.
Qed.

(** A bit that was not asked for and is not an error bit is not reported. *)
Lemma admissible_bit (pf : pollfd_t) (r b : Z) :
  poll_admissible pf r = true ->
  Z.land (Z.lor (events pf) (Z.lor POLLERR (Z.lor POLLHUP POLLNVAL))) b = 0 ->
  Z.land r b = 0.
Proof.
  unfold poll_admissible. intros H Hb.
  apply andb_true_iff in H as [_ H]. apply Z.eqb_eq in H.
  eapply land_sub; eassumption.
Qed.

Lemma quiet_no_pollin (pf : pollfd_t) :
  poll_admissible pf (revents pf) = true -> events pf = ev_quiet ->
  Z.land (revents pf) POLLIN = 0.
Proof. intros H Hev. eapply admissible_bit; [exact H|]. rewrite Hev. reflexivity. Qed.

Lemma quiet_no_pollout (pf : pollfd_t) :
  poll_admissible pf (revents pf) = true -> events pf = ev_quiet ->
  Z.land (revents pf) POLLOUT = 0.
Proof. intros H Hev. eapply admissible_bit; [exact H|]. rewrite Hev. reflexivity. Qed.

Lemma map_fd_alter (g : pollfd_t -> pollfd_t) (i : nat) (l : list pollfd_t) :
  (forall p, fd (g p) = fd p) -> List.map fd (alter g i l) = List.map fd l.
Proof.
  intros Hg. revert i. induction l as [|p l IH]; intros [|i]; simpl; try reflexivity.
  - f_equal. apply Hg.
  - f_equal. apply IH.
Qed.

Lemma lookup_map_fd (l : list pollfd_t) (i : nat) (p : pollfd_t) :
  l !! i = Some p -> List.map fd l !! i = Some (fd p).
Proof.
  revert i. induction l as [|a l IH]; intros [|i] H; simpl in *; try discriminate.
  - congruence.
  - apply IH, H.
Qed.

Lemma next_index (i : Z) :
  0 <= i < 2 -> u32 (i + 1) mod USB_BUFS = 1 - i.
Proof.
  intros H. assert (i = 0 \/ i = 1) as [-> | ->] by lia; reflexivity.
Qed.

Lemma size_t_small (x : Z) : 0 <= x <= USB_XFER_SZ -> size_t x = x.
Proof. intros H. apply Z.mod_small. unfold USB_XFER_SZ in H. lia. Qed.

Section Layout.

Variable e : env.
Hypothesis Hcfg : well_configured e = true.

Lemma usb_fd_not_std (x : Z) :
  In x (List.map fst (usb_fds e)) -> x <> fd_in /\ x <> fd_out.
Proof.
  intros Hin. apply in_map_iff in Hin as [p [<- Hp]].
  unfold well_configured in Hcfg. apply andb_true_iff in Hcfg as [_ H].
  rewrite forallb_forall in H. specialize (H p Hp).
  apply andb_true_iff in H as [H1 H2].
  apply negb_true_iff, Z.eqb_neq in H1. apply negb_true_iff, Z.eqb_neq in H2.
  split; assumption.
Qed.

Lemma write_ep_out : we e = true ->
  (Z.land (u8 (write_ep e)) LIBUSB_ENDPOINT_DIR_MASK =? 0) = true.
Proof.
  intros H. unfold well_configured in Hcfg. rewrite H in Hcfg. simpl in Hcfg.
  apply andb_true_iff in Hcfg as [Hc _]. apply andb_true_iff in Hc as [Hc _]. exact Hc.
Qed.

Lemma read_ep_in : re e = true ->
  (Z.land (u8 (read_ep e)) LIBUSB_ENDPOINT_DIR_MASK =? 0) = false.
Proof.
  intros H. unfold well_configured in Hcfg. rewrite H in Hcfg.
  apply andb_true_iff in Hcfg as [Hc _]. apply andb_true_iff in Hc as [_ Hc].
  rewrite orb_false_l in Hc. apply negb_true_iff in Hc. exact Hc.
Qed.

(** Only the first entry can be standard input, and only the entry after
    it (or the first, when there is no write side) standard output. *)
Lemma layout_stdin (l : list pollfd_t) (i : nat) (p : pollfd_t) :
  List.map fd l = layout e -> l !! i = Some p -> fd p = fd_in ->
  we e = true /\ i = 0%nat.
Proof.
  intros Hl Hi Hfd. apply lookup_map_fd in Hi. rewrite Hl, Hfd in Hi.
  unfold layout in Hi.
  assert (Hu : forall j, List.map fst (usb_fds e) !! j = Some fd_in -> False).
  { intros j Hj. apply list_elem_of_lookup_2, list_elem_of_In, usb_fd_not_std in Hj.
    destruct Hj as [Hj _]. congruence. }
  destruct (we e), (re e); simpl in Hi.
  - destruct i as [|[|i]]; simpl in Hi; [auto | discriminate | destruct (Hu _ Hi)].
  - destruct i as [|i]; simpl in Hi; [auto | destruct (Hu _ Hi)].
  - destruct i as [|i]; simpl in Hi; [discriminate | destruct (Hu _ Hi)].
  - destruct (Hu _ Hi).
Qed.

Lemma layout_stdout (l : list pollfd_t) (i : nat) (p : pollfd_t) :
  List.map fd l = layout e -> l !! i = Some p -> fd p = fd_out ->
  re e = true /\ i = ixR e.
Proof.
  intros Hl Hi Hfd. apply lookup_map_fd in Hi. rewrite Hl, Hfd in Hi.
  unfold layout in Hi. unfold ixR.
  assert (Hu : forall j, List.map fst (usb_fds e) !! j = Some fd_out -> False).
  { intros j Hj. apply list_elem_of_lookup_2, list_elem_of_In, usb_fd_not_std in Hj.
    destruct Hj as [_ Hj]. congruence. }
  destruct (we e), (re e); simpl in Hi.
  - destruct i as [|[|i]]; simpl in Hi; [discriminate | auto | destruct (Hu _ Hi)].
  - destruct i as [|i]; simpl in Hi; [discriminate | destruct (Hu _ Hi)].
  - destruct i as [|i]; simpl in Hi; [auto | destruct (Hu _ Hi)].
  - destruct (Hu _ Hi).
Qed.

Lemma layout_ixR (l : list pollfd_t) (p : pollfd_t) :
  List.map fd l = layout e -> re e = true -> l !! ixR e = Some p -> fd p = fd_out.
Proof.
  intros Hl Hre Hi. apply lookup_map_fd in Hi. rewrite Hl in Hi.
  unfold layout, ixR in Hi. rewrite Hre in Hi.
  destruct (we e); simpl in Hi; congruence.
Qed.

End Layout.

(** ** Facts about traces *)

Lemma errored_cons (q : qref) (a : action) (t : list action) :
  errored q (a :: t) = failed_on q a || errored q t.
Proof. reflexivity. Qed.

Lemma eof_seen_cons (a : action) (t : list action) :
  eof_seen (a :: t) = is_eof a || eof_seen t.
Proof. reflexivity. Qed.

Lemma reads_cons (a : action) (t : list action) :
  reads (a :: t) = ((if is_read a then 1 else 0) + reads t)%nat.
Proof. unfold reads. simpl. destruct (is_read a); reflexivity. Qed.

(** ** Rules *)

Lemma wp_bind {A B} (m : M A) (f : A -> M B) Q E w s :
  wp m (fun a w' s' => wp (f a) Q E w' s') E w s -> wp (bind m f) Q E w s.
Proof. unfold wp, bind. destruct (m w s); auto. Qed.

Lemma wp_ret {A} (a : A) (Q : A -> list response -> state -> Prop) E w s :
  Q a w s -> wp (ret a) Q E w s.
Proof. auto. Qed.

Lemma wp_get (Q : state -> list response -> state -> Prop) E w s :
  Q s w s -> wp get Q E w s.
Proof. auto. Qed.

Lemma wp_modify f (Q : unit -> list response -> state -> Prop) E w s :
  Q tt w (f s) -> wp (modify f) Q E w s.
Proof. auto. Qed.

Lemma wp_log a (Q : unit -> list response -> state -> Prop) E w s :
  Q tt w (set_trace (a :: trace s) s) -> wp (log a) Q E w s.
Proof. auto. Qed.

Lemma wp_eprint msg (Q : unit -> list response -> state -> Prop) E w s :
  Q tt w (set_trace (AStderr msg :: trace s) s) -> wp (eprint msg) Q E w s.
Proof. auto. Qed.

Lemma wp_halt {A} o (Q : A -> list response -> state -> Prop) (E : outcome -> Prop) w s :
  E (o s) -> wp (halt o) Q E w s.
Proof. auto. Qed.

Lemma wp_assert a b (Q : unit -> list response -> state -> Prop) E w s :
  b = true -> Q tt w s -> wp (assert_ a b) Q E w s.
Proof. intros ->. auto. Qed.

Lemma wp_assert_fail a b (Q : unit -> list response -> state -> Prop)
    (E : outcome -> Prop) w s :
  b = false -> E (Aborted a s) -> wp (assert_ a b) Q E w s.
Proof. intros ->. auto. Qed.

Lemma wp_deref {A} (o : option A) (a : A) (Q : A -> list response -> state -> Prop) E w s :
  o = Some a -> Q a w s -> wp (deref o) Q E w s.
Proof. intros ->. auto. Qed.

Lemma wp_respond {A} (f : response -> option A) (Q : A -> list response -> state -> Prop)
    (E : outcome -> Prop) w s :
  E (Cut s) -> (forall r w' a, w = r :: w' -> f r = Some a -> Q a w' s) ->
  wp (respond f) Q E w s.
Proof.
  intros HE HQ. unfold wp, respond. destruct w as [|r w']; [exact HE|].
  destruct (f r) eqn:Hf; [eapply HQ; eauto | exact HE].
Qed.

Lemma wp_fill x ep d len q t (Q : unit -> list response -> state -> Prop) E w s :
  xfers s !! x = Some t ->
  Q tt w (upd_xfer x (filled ep d len q) s) ->
  wp (libusb_fill_bulk_transfer x ep d len q) Q E w s.
Proof.
  intros Hx HQ. unfold libusb_fill_bulk_transfer.
  apply wp_bind, wp_get. apply wp_bind. eapply wp_deref; [exact Hx|]. apply wp_modify, HQ.
Qed.

Lemma wp_submit x t (Q : Z -> list response -> state -> Prop) (E : outcome -> Prop) w s :
  xfers s !! x = Some t ->
  E (Cut s) ->
  (forall r w', w = RSubmit r :: w' ->
     let s1 := set_trace (ASubmit x (user_data t) (endpoint t) (xlength t) r :: trace s) s in
     Q r w' (if r =? LIBUSB_SUCCESS then upd_xfer x (held true) s1 else s1)) ->
  wp (libusb_submit_transfer x) Q E w s.
Proof.
  intros Hx HE HQ. unfold libusb_submit_transfer.
  apply wp_bind, wp_get. apply wp_bind. eapply wp_deref; [exact Hx|].
  apply wp_bind. apply wp_respond; [exact HE|].
  intros r w' a -> Hr. destruct r; try discriminate. injection Hr as ->.
  apply wp_bind, wp_log. apply wp_bind.
  specialize (HQ a w' eq_refl). cbv zeta in HQ.
  destruct (a =? LIBUSB_SUCCESS).
  - apply wp_modify, wp_ret, HQ.
  - apply wp_ret, wp_ret, HQ.
Qed.

Lemma wp_read b count (Q : Z * Z -> list response -> state -> Prop) (E : outcome -> Prop) w s :
  E (Cut s) ->
  (forall v er w', w = RRead v er :: w' -> -1 <= v <= count ->
     Q (v, er) w' (set_trace (ARead b count v :: trace s) s)) ->
  wp (sys_read b count) Q E w s.
Proof.
  intros HE HQ. unfold sys_read.
  apply wp_bind. apply wp_respond; [exact HE|].
  intros r w' a -> Hr. destruct r as [| | |v er| | |]; try discriminate.
  injection Hr as <-. cbn [fst snd].
  destruct ((-1 <=? v) && (v <=? count)) eqn:Hrange.
  - apply andb_true_iff in Hrange as [H1 H2]. apply Z.leb_le in H1, H2.
    apply wp_bind, wp_log, wp_ret, HQ; auto.
  - apply wp_halt, HE.
Qed.

Lemma wp_write b off count (Q : Z * Z -> list response -> state -> Prop)
    (E : outcome -> Prop) w s :
  E (Cut s) ->
  (forall v er w', w = RWrite v er :: w' -> -1 <= v <= count ->
     Q (v, er) w' (set_trace (AWrite b off count v :: trace s) s)) ->
  wp (sys_write b off count) Q E w s.
Proof.
  intros HE HQ. unfold sys_write.
  apply wp_bind. apply wp_respond; [exact HE|].
  intros r w' a -> Hr. destruct r as [| | | |v er| |]; try discriminate.
  injection Hr as <-. cbn [fst snd].
  destruct ((-1 <=? v) && (v <=? count)) eqn:Hrange.
  - apply andb_true_iff in Hrange as [H1 H2]. apply Z.leb_le in H1, H2.
    apply wp_bind, wp_log, wp_ret, HQ; auto.
  - apply wp_halt, HE.
Qed.

Lemma wp_triple {A} (P : state -> Prop) (m : M A) (Q' : A -> state -> Prop)
    (Q : A -> list response -> state -> Prop) (E : outcome -> Prop) w s :
  triple P m Q' E -> P s -> (forall a w' s', Q' a s' -> Q a w' s') -> wp m Q E w s.
Proof.
  intros H HP HQ. specialize (H w s HP). unfold wp in *.
  destruct (m w s); auto.
Qed.

(** ** Frame lemmas *)

Section Frames.

Variable e : env.

Lemma inv_write_frame (s s' : state) :
  inv_write e s ->
  usb_write_buf s' = usb_write_buf s ->
  (we e = true -> fds s' !! 0%nat = fds s !! 0%nat) ->
  (we e = true -> xfers s' !! 0%nat = xfers s !! 0%nat) ->
  inv_write e s'.
Proof.
  intros [Hoff Hon] Hq Hf Hx. split; rewrite Hq.
  - exact Hoff.
  - intros Hwe. rewrite (Hf Hwe), (Hx Hwe). exact (Hon Hwe).
Qed.

Lemma inv_read_frame (s s' : state) :
  inv_read e s ->
  usb_read_buf s' = usb_read_buf s ->
  (re e = true -> fds s' !! ixR e = fds s !! ixR e) ->
  (re e = true -> xfers s' !! ixR e = xfers s !! ixR e) ->
  inv_read e s'.
Proof.
  intros [Hoff Hsh Hon] Hq Hf Hx. split; rewrite Hq.
  - exact Hoff.
  - exact Hsh.
  - intros Hre. rewrite (Hf Hre), (Hx Hre). exact (Hon Hre).
Qed.

(** Rebuilding the write side when it is enabled. *)
Lemma inv_write_on (s : state) (pf : pollfd_t) (t : libusb_transfer) :
  we e = true ->
  pollfd (usb_write_buf s) = Some 0%nat ->
  List.length (buf (usb_write_buf s)) = 2%nat ->
  0 <= buf_head (usb_write_buf s) < 2 ->
  0 <= buf_tail (usb_write_buf s) < 2 ->
  fds s !! 0%nat = Some pf -> xfers s !! 0%nat = Some t ->
  wside e (usb_write_buf s) pf t ->
  inv_write e s.
Proof.
  intros Hwe ? ? ? ? ? ? ?. split; [congruence|].
  intros _. repeat split; try assumption; try lia. exists pf, t. auto.
Qed.

Lemma inv_read_on (s : state) (pf : pollfd_t) (t : libusb_transfer) :
  re e = true ->
  shutdown (usb_read_buf s) = false ->
  pollfd (usb_read_buf s) = Some (ixR e) ->
  List.length (buf (usb_read_buf s)) = 2%nat ->
  0 <= buf_head (usb_read_buf s) < 2 ->
  0 <= buf_tail (usb_read_buf s) < 2 ->
  fds s !! ixR e = Some pf -> xfers s !! ixR e = Some t ->
  user_data t = Some usb_read_buf_ref ->
  endpoint t = u8 (read_ep e) ->
  buffer t = Some (ixR e) ->
  callback t = true ->
  xlength t = USB_XFER_SZ ->
  rside e (usb_read_buf s) pf t ->
  inv_read e s.
Proof.
  intros Hre ? ? ? ? ? ? ? ? ? ? ? ? ?. split; [congruence|assumption|].
  intros _. repeat split; try assumption; try lia. exists pf, t. repeat split; auto.
Qed.

(** The two sides do not share a descriptor or a transfer. *)
Lemma ixR_ne_0 : we e = true -> ixR e <> 0%nat.
Proof. unfold ixR. intros ->. discriminate. Qed.

Variable keep : option nat.

(** The trace grows by one call. *)
Lemma inv_trace_log (s s' : state) (a : action) :
  inv_trace e keep s ->
  trace s' = a :: trace s ->
  ok_after e a (trace s) ->
  (forall q, error (getq q s) = true -> error (getq q s') = true) ->
  (forall q, failed_on q a = true -> error (getq q s') = true) ->
  (shutdown (usb_write_buf s) = true -> shutdown (usb_write_buf s') = true) ->
  (is_eof a = true -> shutdown (usb_write_buf s') = true) ->
  (is_read a = true -> keep = None) ->
  inv_trace e keep s'.
Proof.
  intros [Ho He Hf Hk] Ht Hok Herr Hfail Hsh Heof Hrd. split; rewrite Ht.
  - simpl. auto.
  - intros q. rewrite errored_cons. intros H. apply orb_true_iff in H as [H|H]; auto.
  - rewrite eof_seen_cons. intros H. apply orb_true_iff in H as [H|H]; auto.
  - intros n Hn. destruct (Hk n Hn) as [H1 H2]. split; [auto|].
    rewrite reads_cons. destruct (is_read a); [|exact H2].
    rewrite Hrd in Hn by reflexivity. discriminate.
Qed.

(** The trace stays, flags are only raised. *)
Lemma inv_trace_same (s s' : state) :
  inv_trace e keep s ->
  trace s' = trace s ->
  (forall q, error (getq q s) = true -> error (getq q s') = true) ->
  (shutdown (usb_write_buf s) = true -> shutdown (usb_write_buf s') = true) ->
  inv_trace e keep s'.
Proof.
  intros [Ho He Hf Hk] Ht Herr Hsh. split; rewrite Ht; auto.
  intros n Hn. destruct (Hk n Hn). auto.
Qed.

(** No terminal completion is on record for a queue whose flag is down. *)
Lemma not_errored (s : state) (q : qref) :
  inv_trace e keep s -> error (getq q s) = false -> errored q (trace s) = false.
Proof.
  intros H Hq. destruct (errored q (trace s)) eqn:He; [|reflexivity].
  apply (it_error _ _ _ H) in He. congruence.
Qed.

Lemma not_eof_seen (s : state) :
  inv_trace e keep s -> shutdown (usb_write_buf s) = false -> eof_seen (trace s) = false.
Proof.
  intros H Hq. destruct (eof_seen (trace s)) eqn:He; [|reflexivity].
  apply (it_eof _ _ _ H) in He. congruence.
Qed.

Lemma not_kept (s : state) :
  inv_trace e keep s -> shutdown (usb_write_buf s) = false -> keep = None.
Proof.
  intros H Hq. destruct keep as [n|]; [|reflexivity].
  destruct (it_keep _ _ _ H n eq_refl). congruence.
Qed.

(** A call that is not a submission, a poll or a read may follow anything
    but a read that took bytes in. *)
Lemma ok_after_settled (a : action) (t : list action) :
  settled t ->
  match a with APoll _ | ASubmit _ _ _ _ _ | ARead _ _ _ => False | _ => True end ->
  ok_after e a t.
Proof.
  intros Hs Ha. split.
  - destruct a; try exact I; destruct Ha.
  - destruct t as [|[] ?]; try exact I. simpl in Hs. intros; lia.
Qed.

End Frames.

(** ** One turn of the loop keeps the invariant *)

Section Preservation.

Variable e : env.
Hypothesis Hcfg : well_configured e = true.
Variable keep : option nat.

Lemma ending_cut (s : state) : inv_trace e keep s -> ending e keep (Cut s).
Proof. intros H. split; [exact H | exact I]. Qed.

Lemma ending_failure (s : state) :
  inv_trace e keep s -> ending e keep (Returned EXIT_FAILURE s).
Proof. intros H. split; [exact H | reflexivity]. Qed.

(** A message on stderr changes nothing else. *)
Lemma inv_trace_stderr (s : state) (msg : string) :
  inv_trace e keep s -> settled (trace s) ->
  inv_trace e keep (set_trace (AStderr msg :: trace s) s).
Proof.
  intros H Hs. eapply inv_trace_log; [exact H | reflexivity | ..].
  - apply ok_after_settled; [exact Hs | exact I].
  - intros [] Hq; exact Hq.
  - intros [] Hq; discriminate Hq.
  - auto.
  - discriminate.
  - discriminate.
Qed.

Lemma wside_shutdown (q : buffer_queue_t) (pf : pollfd_t) (t : libusb_transfer) :
  wside e q pf t -> wside e (set_shutdown true q) pf t.
Proof.
  intros [H1 H2 H3 H4 H5 | H1 H2 H3 H4 H5 H6 H7].
  - apply W_spare; auto. simpl. destruct H5 as [H5 | [_ H5]]; auto.
  - apply W_flight; auto.
Qed.

Lemma on_stdin_ok :
  triple (fun s => scanning e keep 0 s /\ we e = true) (on_stdin e 0)
         (fun _ s => scanning e keep 1 s) (ending e keep).
Proof.
  intros w s [Hsc Hwe].
  destruct Hsc as [[Hinv Htr Hset Heof] Hwerr Hrerr Hadm Hshut].
  destruct (iw_on _ _ (inv_w _ _ Hinv) Hwe) as (Hpfd & Hlen & Hh & Ht & pf & t & Hfd0 & Hx0 & Hside).
  assert (Hadm0 := Hadm 0%nat pf (Nat.le_refl _) Hfd0).
  assert (Hadm1 : forall s', fds s' = fds s -> forall j pf', (1 <= j)%nat ->
            fds s' !! j = Some pf' -> poll_admissible pf' (revents pf') = true).
  { intros s' -> j pf' _ Hj. eapply Hadm; [|exact Hj]. lia. }
  destruct Hinv as [Hl Hs Hw Hr].
  unfold on_stdin.
  apply wp_bind, wp_get. apply wp_bind. eapply wp_deref; [exact Hfd0|]. cbv zeta.
  destruct (Z.eqb_spec (Z.land (revents pf) POLLIN) 0) as [Hin|Hin]; cbn [negb].
  - (* POLLHUP or POLLERR *)
    apply wp_modify.
    split; [split; [split|..]|..]; simpl; auto; try discriminate.
    + eapply inv_write_on; simpl; eauto using wside_shutdown.
    + eapply inv_read_frame; eauto.
    + eapply inv_trace_same; eauto. intros [] ?; simpl; auto.
    + apply Hadm1. reflexivity.
  - (* POLLIN *)
    assert (Hsp : buf_head (usb_write_buf s) <> buf_tail (usb_write_buf s)
                  /\ buf (usb_write_buf s) !! Z.to_nat (buf_head (usb_write_buf s))
                     = Some (mk_buffer (Some 0%nat) (Some 0%nat))
                  /\ submitted t = false /\ events pf = ev_stdin_on
                  /\ shutdown (usb_write_buf s) = false).
    { destruct Hside as [H1 H2 H3 H4 H5 | H1 H2 H3 H4 H5 H6 H7].
      - destruct H5 as [H5 | [_ H5]].
        + repeat split; auto. destruct (shutdown (usb_write_buf s)) eqn:Hsd; auto.
          destruct H1. auto.
        + destruct Hin. apply quiet_no_pollin; auto.
      - destruct Hin. apply quiet_no_pollin; auto. }
    destruct Hsp as (Hne & Hslot & Hsub & Hev & Hsd).
    apply wp_bind, wp_assert; [apply negb_true_iff, Z.eqb_neq, Hne|].
    apply wp_bind. eapply wp_deref; [exact Hslot|].
    apply wp_bind. eapply wp_deref; [reflexivity|].
    apply wp_bind, wp_read; [apply ending_cut, Htr|].
    intros v er w' -> Hv. cbn [fst snd data usb_xfer].
    set (s1 := set_trace (ARead 0 (USB_XFER_SZ / 2) v :: trace s) s).
    assert (Hok1 : ok_after e (ARead 0 (USB_XFER_SZ / 2) v) (trace s)).
    { split; [eapply not_eof_seen; eauto|].
      destruct (trace s) as [|[] ?]; try exact I. simpl in Hset. intros; lia. }
    assert (Hkeep : keep = None) by (eapply not_kept; eauto).
    assert (Htr1 : v <> 0 -> inv_trace e keep s1).
    { intros Hv0.
      eapply (inv_trace_log e keep s s1); [exact Htr | reflexivity | exact Hok1 | ..].
      - intros [] H; exact H.
      - intros [] H; discriminate H.
      - auto.
      - simpl. intros H. apply Z.eqb_eq in H. contradiction.
      - auto. }
    destruct (Z.ltb_spec 0 v) as [Hpos|Hpos].
    + (* bytes were read *)
      apply wp_bind. eapply wp_deref; [reflexivity|].
      apply wp_bind. eapply wp_fill; [exact Hx0|].
      apply wp_bind. eapply wp_submit.
      { cbn. rewrite list_lookup_alter_eq, Hx0. reflexivity. }
      { apply ending_cut. eapply inv_trace_same; [apply Htr1; lia | reflexivity | ..].
        - intros [] H; exact H.
        - auto. }
      intros r w'' -> ?. cbn [user_data endpoint xlength filled] in s0.
      assert (Htr0 : inv_trace e keep s0).
      { eapply (inv_trace_log e keep s1 s0); [apply Htr1; lia | reflexivity | ..].
        - split; [eapply not_errored; [apply Htr1; lia | exact Hwerr]|].
          intros _. eauto.
        - intros [] H; exact H.
        - intros [] H; discriminate H.
        - auto.
        - discriminate.
        - discriminate. }
      destruct (Z.eqb_spec r LIBUSB_SUCCESS) as [Hr0|Hr0]; cbn [negb].
      * apply wp_bind, wp_modify.
        rewrite next_index by exact Hh.
        assert (Hnext : 1 - buf_head (usb_write_buf s) = buf_tail (usb_write_buf s)) by lia.
        rewrite Hnext, Z.eqb_refl. apply wp_modify. subst s0 s1.
        split; [split; [split|..]|..]; proj; auto; try discriminate; try exact I.
        -- rewrite map_fd_alter by reflexivity. exact Hl.
        -- rewrite !length_alter. exact Hs.
        -- eapply inv_write_on; proj; eauto; try lia.
           ++ rewrite list_lookup_alter_eq, Hfd0. reflexivity.
           ++ rewrite !list_lookup_alter_eq, Hx0. reflexivity.
           ++ apply W_flight; proj; auto; [rewrite Hev; reflexivity | rewrite Hwerr; reflexivity].
        -- eapply inv_read_frame; [exact Hr | reflexivity | ..]; intros Hre; proj;
             rewrite ?list_lookup_alter_ne by (apply not_eq_sym, ixR_ne_0, Hwe); reflexivity.
        -- eapply inv_trace_same; [exact Htr0 | reflexivity | ..].
           ++ intros [] H; exact H.
           ++ auto.
        -- intros H. exfalso. rewrite !eof_seen_cons in H.
           rewrite (not_eof_seen e keep s Htr Hsd) in H. cbn [is_eof orb] in H.
           rewrite orb_false_r in H. apply Z.eqb_eq in H. lia.
        -- intros j pf' Hj Hlk. rewrite list_lookup_alter_ne in Hlk by lia.
           eapply Hadm; [|exact Hlk]. lia.
      * apply wp_bind, wp_eprint, wp_halt, ending_failure.
        apply inv_trace_stderr; [exact Htr0 | exact I].
    + destruct (Z.eqb_spec v 0) as [Hv0|Hv0].
      * (* end of input *)
        apply wp_modify.
        split; [split; [split|..]|..]; proj; auto; try discriminate; try exact I.
        -- eapply inv_write_on; proj; eauto using wside_shutdown.
        -- eapply inv_read_frame; eauto.
        -- eapply (inv_trace_log e keep s); [exact Htr | reflexivity | exact Hok1 | ..].
           ++ intros [] H; exact H.
           ++ intros [] H; discriminate H.
           ++ auto.
           ++ auto.
           ++ auto.
        -- apply Hadm1. reflexivity.
      * destruct (Z.eqb_spec er EINTR) as [Her|Her]; cbn [negb].
        -- apply wp_ret.
           split; [split; [split|..]|..]; proj; auto; try discriminate; try exact I.
           ++ eapply inv_write_frame; eauto.
           ++ eapply inv_read_frame; eauto.
           ++ apply Hadm1. reflexivity.
        -- apply wp_bind, wp_eprint, wp_halt, ending_failure.
           apply inv_trace_stderr; [auto | proj; cbn; lia].
Qed.

Lemma on_stdout_ok (i : nat) :
  triple (fun s => scanning e keep i s /\ re e = true /\ i = ixR e) (on_stdout e i)
         (fun _ s => scanning e keep (S i) s) (ending e keep).
Proof.
  intros w s (Hsc & Hre & ->).
  destruct Hsc as [[Hinv Htr Hset Heof] Hwerr Hrerr Hadm Hshut].
  destruct Hinv as [Hl Hs Hw Hr].
  destruct (ir_on _ _ Hr Hre)
    as (Hpfd & Hlen & Hh & Ht & pf & t & Hfd & Hx & Hud & Hep & Hbuf & Hcb & Hxl & Hside).
  assert (Hrsh := ir_shutdown _ _ Hr).
  assert (Hadmi := Hadm (ixR e) pf (Nat.le_refl _) Hfd).
  assert (Hadm1 : forall s', (forall j, (S (ixR e) <= j)%nat -> fds s' !! j = fds s !! j) ->
            forall j pf', (S (ixR e) <= j)%nat ->
            fds s' !! j = Some pf' -> poll_admissible pf' (revents pf') = true).
  { intros s' Hs' j pf' Hj Hlk. rewrite Hs' in Hlk by exact Hj.
    eapply Hadm; [|exact Hlk]. lia. }
  assert (Hsh1 : forall (P : Prop), S (ixR e) = 0%nat -> P) by discriminate.
  unfold on_stdout.
  apply wp_bind, wp_get. cbv zeta.
  destruct Hside as [H1 H2 H3 | H1 H2 H3 H4 H5 H6 H7 H8].
  - (* nothing is queued: POLLHUP or POLLERR on stdout *)
    apply wp_bind, wp_assert_fail; [apply negb_false_iff, Z.eqb_eq, H1|].
    split; [exact Htr|]. split; [reflexivity|].
    exists pf. repeat split; auto.
    + eapply layout_ixR; eauto.
    + apply quiet_no_pollout; auto.
  - apply wp_bind, wp_assert; [apply negb_true_iff, Z.eqb_neq, H1|].
    apply wp_bind. eapply wp_deref; [exact H3|].
    apply wp_bind. eapply wp_deref; [exact Hpfd|].
    apply wp_bind. eapply wp_deref; [exact Hfd|].
    apply wp_bind. eapply wp_deref; [reflexivity|].
    rewrite (size_t_small (xfer_length (usb_read_buf s) - xfer_written (usb_read_buf s)))
      by lia.
    apply wp_bind, wp_write; [apply ending_cut, Htr|].
    intros v er w' -> Hv. cbn [fst snd data usb_xfer].
    set (aw := AWrite (ixR e) (xfer_written (usb_read_buf s))
                 (xfer_length (usb_read_buf s) - xfer_written (usb_read_buf s)) v).
    set (s1 := set_trace (aw :: trace s) s).
    assert (Htr1 : inv_trace e keep s1).
    { eapply (inv_trace_log e keep s s1); [exact Htr | reflexivity | ..].
      - apply ok_after_settled; [exact Hset | exact I].
      - intros [] H; exact H.
      - intros [] H; discriminate H.
      - auto.
      - discriminate.
      - discriminate. }
    destruct (Z.leb_spec 0 v) as [Hpos|Hneg].
    + rewrite (size_t_small (xfer_written (usb_read_buf s) + v)) by lia.
      apply wp_bind, wp_modify.
      destruct (Z.eqb_spec (xfer_written (usb_read_buf s) + v) (xfer_length (usb_read_buf s)))
        as [Hfull|Hpart].
      * (* the buffer is fully sent *)
        apply wp_bind. eapply wp_deref; [reflexivity|].
        apply wp_bind. eapply wp_fill; [exact Hx|].
        apply wp_bind. eapply wp_submit.
        { unfold s1. proj. rewrite list_lookup_alter_eq, Hx. reflexivity. }
        { apply ending_cut. eapply inv_trace_same; [apply Htr1 | reflexivity | ..].
          - intros [] H; exact H.
          - auto. }
        intros r w'' -> s2. proj. subst s2.
        set (s2 := set_trace _ _).
        assert (Htr2 : inv_trace e keep s2).
        { eapply (inv_trace_log e keep s1 s2); [apply Htr1 | reflexivity | ..].
          - split; [eapply not_errored; [apply Htr1 | exact Hrerr]|]. exact I.
          - intros [] H; exact H.
          - intros [] H; discriminate H.
          - auto.
          - discriminate.
          - discriminate. }
        destruct (Z.eqb_spec r LIBUSB_SUCCESS) as [Hr0|Hr0]; cbn [negb].
        -- apply wp_bind, wp_modify.
           rewrite next_index by exact Hh.
           assert (Hnext : 1 - buf_head (usb_read_buf s) = buf_tail (usb_read_buf s)) by lia.
           rewrite Hnext, Z.eqb_refl. cbn [negb]. apply wp_modify. subst s2 s1.
           split; [split; [split|..]|..]; proj; auto; try discriminate; try exact I.
           ++ rewrite map_fd_alter by reflexivity. exact Hl.
           ++ rewrite !length_alter. exact Hs.
           ++ eapply inv_write_frame; [exact Hw | reflexivity | ..]; intros Hwe; proj;
                rewrite ?list_lookup_alter_ne by (apply ixR_ne_0, Hwe); reflexivity.
           ++ eapply inv_read_on with
                (pf := set_events (Z.land (events pf) (Z.lnot POLLOUT)) pf)
                (t := held true (filled (read_ep e) (Some (ixR e)) USB_XFER_SZ
                                        usb_read_buf_ref t));
                proj; auto; try lia.
              ** rewrite list_lookup_alter_eq, Hfd. reflexivity.
              ** rewrite !list_lookup_alter_eq, Hx. reflexivity.
              ** apply R_flight; proj; auto; [rewrite H2; reflexivity | rewrite Hrerr; reflexivity].
           ++ eapply inv_trace_same; [exact Htr2 | reflexivity | ..].
              ** intros [] H; exact H.
              ** auto.
           ++ intros j pf' Hj Hlk. rewrite list_lookup_alter_ne in Hlk by lia.
              eapply Hadm; [|exact Hlk]. lia.
        -- apply wp_bind, wp_eprint, wp_halt, ending_failure.
           apply inv_trace_stderr; [exact Htr2 | exact I].
      * (* part of the buffer is left *)
        apply wp_ret. subst s1.
        split; [split; [split|..]|..]; proj; auto; try discriminate; try exact I.
        -- eapply inv_write_frame; eauto.
        -- eapply inv_read_on with (pf := pf) (t := t); proj; auto; try lia.
           apply R_queued; proj; auto; lia.
        -- eapply inv_trace_same; [exact Htr1 | reflexivity | ..].
           ++ intros [] H; exact H.
           ++ auto.
        -- apply Hadm1. reflexivity.
    + destruct (Z.eqb_spec er EINTR) as [Her|Her]; cbn [negb].
      * apply wp_ret. subst s1.
        split; [split; [split|..]|..]; proj; auto; try discriminate; try exact I.
        -- eapply inv_write_frame; eauto.
        -- eapply inv_read_frame; eauto.
        -- apply Hadm1. reflexivity.
      * apply wp_bind, wp_eprint, wp_halt, ending_failure.
        apply inv_trace_stderr; [auto | exact I].
Qed.

(** Which transfers the store holds. *)
Lemma store_cases (s : state) (x : nat) (t : libusb_transfer) :
  inv e s -> xfers s !! x = Some t ->
  (we e = true /\ x = 0%nat) \/ (re e = true /\ x = ixR e).
Proof.
  intros [_ Hs _ _] Hx. apply lookup_lt_Some in Hx. rewrite Hs in Hx.
  unfold ixR. destruct (we e), (re e); simpl in Hx; [| | |lia].
  - destruct x as [|[|x]]; [auto | auto | lia].
  - left. split; [reflexivity | lia].
  - right. split; [reflexivity | lia].
Qed.

Lemma deliver_ok (c : completion) :
  triple (steady e keep) (deliver c) (fun _ s => steady e keep s) (ending e keep).
Proof.
  intros w s [Hinv Htr Hset Heof]. destruct c as [[x st] n].
  unfold deliver. apply wp_bind, wp_get.
  destruct (xfers s !! x) as [t|] eqn:Hx; [|apply wp_halt, ending_cut, Htr].
  destruct (submitted t && (0 <=? n) && (n <=? xlength t)) eqn:Hc;
    [|apply wp_halt, ending_cut, Htr].
  apply andb_true_iff in Hc as [Hc Hn2]. apply andb_true_iff in Hc as [Hsub Hn1].
  apply Z.leb_le in Hn1, Hn2.
  destruct (store_cases s x t Hinv Hx) as [[Hwe ->] | [Hre ->]];
    destruct Hinv as [Hl Hs Hw Hr].
  - (* a transfer of the write side *)
    destruct (iw_on _ _ Hw Hwe) as (Hpfd & Hlen & Hh & Ht & pf & t' & Hfd0 & Hx0 & Hside).
    assert (t' = t) as -> by congruence.
    destruct Hside as [H1 H2 H3 H4 H5 | H1 H2 H3 H4 H5 H6 H7]; [congruence|].
    assert (Herr : error (usb_write_buf s) = false).
    { rewrite Hsub in H3. destruct (error (usb_write_buf s)); [discriminate|reflexivity]. }
    apply wp_bind, wp_modify. apply wp_bind, wp_log. rewrite H7, H4.
    set (s1 := set_trace _ _).
    unfold usb_callback. apply wp_bind, wp_get.
    apply wp_bind. eapply wp_deref.
    { unfold s1. proj. rewrite list_lookup_alter_eq, Hx0. reflexivity. }
    apply wp_bind. eapply wp_deref; [proj; exact H4|]. cbv zeta.
    replace (getq usb_write_buf_ref s1) with (usb_write_buf s) by reflexivity.
    rewrite next_index by exact Ht.
    apply wp_bind, wp_assert; [apply negb_true_iff, Z.eqb_neq; lia|].
    proj.
    assert (Hok : ok_after e (ACallback 0 (Some usb_write_buf_ref) st) (trace s))
      by (apply ok_after_settled; [exact Hset | exact I]).
    assert (Htr1 : terminal st = false -> inv_trace e keep s1).
    { intros Hst. eapply (inv_trace_log e keep s s1); [exact Htr | reflexivity | exact Hok | ..].
      - intros [] H; exact H.
      - intros [] H; cbn [failed_on same_queue andb] in H; [rewrite Hst in H|];
          discriminate H.
      - auto.
      - discriminate.
      - discriminate. }
    assert (Hfail : forall msg, inv_trace e keep
              (updq usb_write_buf_ref (set_error true)
                    (set_trace (AStderr msg :: trace s1) s1))).
    { intros msg.
      eapply (inv_trace_log e keep (updq usb_write_buf_ref (set_error true) s1));
        [|reflexivity|..].
      - eapply (inv_trace_log e keep s); [exact Htr | reflexivity | exact Hok | ..].
        + intros [] H; [reflexivity | exact H].
        + intros [] H; [reflexivity | discriminate H].
        + auto.
        + discriminate.
        + discriminate.
      - apply ok_after_settled; exact I.
      - intros [] H; exact H.
      - intros [] H; discriminate H.
      - auto.
      - discriminate.
      - discriminate. }
    assert (Hbad : wp (eprint "USB transfer failed on endpoint";;
                       modify (updq usb_write_buf_ref (set_error true)))
                     (fun _ _ s' => steady e keep s') (ending e keep) w s1).
    { apply wp_bind, wp_eprint, wp_modify.
      split; [split|..]; [| | | | apply Hfail | exact I |]; unfold s1; proj.
      - exact Hl.
      - rewrite length_alter. exact Hs.
      - eapply inv_write_on with (pf := pf) (t := completed st n t); proj; auto.
        + rewrite list_lookup_alter_eq, Hx0. reflexivity.
        + apply W_flight; proj; auto.
      - eapply inv_read_frame; [exact Hr | reflexivity | ..]; intros Hre; proj;
          rewrite ?list_lookup_alter_ne by (apply not_eq_sym, ixR_ne_0, Hwe); reflexivity.
      - eof_step H. destruct (Heof H H1). }
    destruct st; try exact Hbad; clear Hbad Hfail; specialize (Htr1 eq_refl).
    + (* completed *)
      apply wp_bind, wp_modify. rewrite H1, Z.eqb_refl.
      apply wp_bind, wp_bind. eapply wp_deref; [exact Hpfd|].
      apply wp_bind. eapply wp_deref; [exact Hfd0|].
      rewrite H5, (write_ep_out e Hcfg Hwe).
      apply wp_bind, wp_assert; [rewrite H2; reflexivity|].
      assert (Hslot : <[Z.to_nat (buf_tail (usb_write_buf s)) :=
                         mk_buffer (Some 0%nat) (buffer t)]> (buf (usb_write_buf s))
                      !! Z.to_nat (buf_tail (usb_write_buf s))
                      = Some (mk_buffer (Some 0%nat) (Some 0%nat))).
      { rewrite list_lookup_insert_eq by lia. rewrite H6. reflexivity. }
      destruct (shutdown (usb_write_buf s)) eqn:Hsd.
      * apply wp_ret, wp_modify.
        split; [split|..]; [| | | | | exact I |]; unfold s1; proj.
        -- exact Hl.
        -- rewrite length_alter. exact Hs.
        -- eapply inv_write_on with (pf := pf) (t := completed LIBUSB_TRANSFER_COMPLETED n t);
             proj; auto; try lia.
           ++ rewrite length_insert. exact Hlen.
           ++ rewrite list_lookup_alter_eq, Hx0. reflexivity.
           ++ apply W_spare; proj; auto; try lia. rewrite H1. exact Hslot.
        -- eapply inv_read_frame; [exact Hr | reflexivity | ..]; intros Hre; proj;
             rewrite ?list_lookup_alter_ne by (apply not_eq_sym, ixR_ne_0, Hwe); reflexivity.
        -- eapply inv_trace_same; [exact Htr1 | reflexivity | ..].
           ++ intros [] H; exact H.
           ++ auto.
        -- eof_step H. destruct (Heof H H1).
      * apply wp_bind, wp_modify, wp_bind, wp_modify, wp_modify, wp_modify.
        split; [split|..]; [| | | | | exact I |]; unfold s1; proj.
        -- rewrite map_fd_alter by reflexivity. exact Hl.
        -- rewrite length_alter. exact Hs.
        -- eapply inv_write_on with (pf := set_events (Z.lor (events pf) POLLIN) pf)
                                    (t := completed LIBUSB_TRANSFER_COMPLETED n t);
             proj; auto; try lia.
           ++ rewrite length_insert. exact Hlen.
           ++ rewrite list_lookup_alter_eq, Hfd0. reflexivity.
           ++ rewrite list_lookup_alter_eq, Hx0. reflexivity.
           ++ apply W_spare; proj; auto; try lia.
              ** rewrite H1. exact Hslot.
              ** left. rewrite H2. reflexivity.
        -- eapply inv_read_frame; [exact Hr | reflexivity | ..]; intros Hre; proj;
             rewrite ?list_lookup_alter_ne by (apply not_eq_sym, ixR_ne_0, Hwe); reflexivity.
        -- eapply inv_trace_same; [exact Htr1 | reflexivity | ..].
           ++ intros [] H; exact H.
           ++ auto.
        -- eof_step H. destruct (Heof H H1).
    + (* timed out: submitted again *)
      apply wp_bind. eapply wp_submit.
      { unfold s1. proj. rewrite list_lookup_alter_eq, Hx0. reflexivity. }
      { apply ending_cut, Htr1. }
      intros r w' -> s2. subst s2. proj. rewrite H4. set (s2 := set_trace _ _).
      assert (Htr2 : inv_trace e keep s2).
      { eapply (inv_trace_log e keep s1 s2); [exact Htr1 | reflexivity | ..].
        - split; [eapply not_errored; [exact Htr1 | exact Herr]|]. exact I.
        - intros [] H; exact H.
        - intros [] H; discriminate H.
        - auto.
        - discriminate.
        - discriminate. }
      destruct (Z.eqb_spec r LIBUSB_SUCCESS) as [Hr0|Hr0].
      * apply wp_ret.
        split; [split|..]; [| | | | | exact I |]; unfold s2, s1; proj.
        -- exact Hl.
        -- rewrite !length_alter. exact Hs.
        -- eapply inv_write_on with (pf := pf)
             (t := held true (completed LIBUSB_TRANSFER_TIMED_OUT n t)); proj; auto.
           ++ rewrite !list_lookup_alter_eq, Hx0. reflexivity.
           ++ apply W_flight; proj; auto. rewrite Herr. reflexivity.
        -- eapply inv_read_frame; [exact Hr | reflexivity | ..]; intros Hre; proj;
             rewrite ?list_lookup_alter_ne by (apply not_eq_sym, ixR_ne_0, Hwe); reflexivity.
        -- eapply inv_trace_same; [exact Htr2 | reflexivity | ..].
           ++ intros [] H; exact H.
           ++ auto.
        -- eof_step H. destruct (Heof H H1).
      * apply wp_bind, wp_eprint, wp_halt, ending_failure.
        apply inv_trace_stderr; [exact Htr2 | exact I].
  - (* a transfer of the read side *)
    assert (Hrsh := ir_shutdown _ _ Hr).
    destruct (ir_on _ _ Hr Hre)
      as (Hpfd & Hlen & Hh & Ht & pf & t' & Hfd & Hx' & Hud & Hep & Hbuf & Hcb & Hxl & Hside).
    assert (t' = t) as -> by congruence.
    destruct Hside as [H1 H2 H3 | H1 H2 H3 H4 H5 H6 H7 H8]; [|congruence].
    assert (Herr : error (usb_read_buf s) = false).
    { rewrite Hsub in H3. destruct (error (usb_read_buf s)); [discriminate|reflexivity]. }
    apply wp_bind, wp_modify. apply wp_bind, wp_log. rewrite Hcb, Hud.
    set (s1 := set_trace _ _).
    unfold usb_callback. apply wp_bind, wp_get.
    apply wp_bind. eapply wp_deref.
    { unfold s1. proj. rewrite list_lookup_alter_eq, Hx. reflexivity. }
    apply wp_bind. eapply wp_deref; [proj; exact Hud|]. cbv zeta.
    replace (getq usb_read_buf_ref s1) with (usb_read_buf s) by reflexivity.
    rewrite next_index by exact Ht.
    apply wp_bind, wp_assert; [apply negb_true_iff, Z.eqb_neq; lia|].
    proj.
    assert (Hok : ok_after e (ACallback (ixR e) (Some usb_read_buf_ref) st) (trace s))
      by (apply ok_after_settled; [exact Hset | exact I]).
    assert (Htr1 : terminal st = false -> inv_trace e keep s1).
    { intros Hst. eapply (inv_trace_log e keep s s1); [exact Htr | reflexivity | exact Hok | ..].
      - intros [] H; exact H.
      - intros [] H; cbn [failed_on same_queue andb] in H; [|rewrite Hst in H];
          discriminate H.
      - auto.
      - discriminate.
      - discriminate. }
    assert (Hfail : forall msg, inv_trace e keep
              (updq usb_read_buf_ref (set_error true)
                    (set_trace (AStderr msg :: trace s1) s1))).
    { intros msg.
      eapply (inv_trace_log e keep (updq usb_read_buf_ref (set_error true) s1));
        [|reflexivity|..].
      - eapply (inv_trace_log e keep s); [exact Htr | reflexivity | exact Hok | ..].
        + intros [] H; [exact H | reflexivity].
        + intros [] H; [discriminate H | reflexivity].
        + auto.
        + discriminate.
        + discriminate.
      - apply ok_after_settled; exact I.
      - intros [] H; exact H.
      - intros [] H; discriminate H.
      - auto.
      - discriminate.
      - discriminate. }
    assert (Hbad : wp (eprint "USB transfer failed on endpoint";;
                       modify (updq usb_read_buf_ref (set_error true)))
                     (fun _ _ s' => steady e keep s') (ending e keep) w s1).
    { apply wp_bind, wp_eprint, wp_modify.
      split; [split|..]; [| | | | apply Hfail | exact I |]; unfold s1; proj.
      - exact Hl.
      - rewrite length_alter. exact Hs.
      - eapply inv_write_frame; [exact Hw | reflexivity | ..]; intros Hwe; proj;
          rewrite ?list_lookup_alter_ne by (apply ixR_ne_0, Hwe); reflexivity.
      - eapply inv_read_on with (pf := pf) (t := completed st n t); proj; auto.
        + rewrite list_lookup_alter_eq, Hx. reflexivity.
        + apply R_flight; proj; auto.
      - eof_step H. exact (Heof H). }
    destruct st; try exact Hbad; clear Hbad Hfail; specialize (Htr1 eq_refl).
    + (* completed *)
      apply wp_bind, wp_modify. rewrite H1, Z.eqb_refl.
      apply wp_bind, wp_bind. eapply wp_deref; [exact Hpfd|].
      apply wp_bind. eapply wp_deref; [exact Hfd|].
      rewrite Hep, (read_ep_in e Hcfg Hre).
      apply wp_bind, wp_assert; [rewrite H2; reflexivity|].
      assert (Hslot : <[Z.to_nat (buf_tail (usb_read_buf s)) :=
                         mk_buffer (Some (ixR e)) (buffer t)]> (buf (usb_read_buf s))
                      !! Z.to_nat (buf_tail (usb_read_buf s))
                      = Some (mk_buffer (Some (ixR e)) (Some (ixR e)))).
      { rewrite list_lookup_insert_eq by lia. rewrite Hbuf. reflexivity. }
      rewrite Hrsh.
      apply wp_bind, wp_modify, wp_bind, wp_modify, wp_modify, wp_modify.
      rewrite size_t_small by lia.
      split; [split|..]; [| | | | | exact I |]; unfold s1; proj.
      * rewrite map_fd_alter by reflexivity. exact Hl.
      * rewrite length_alter. exact Hs.
      * eapply inv_write_frame; [exact Hw | reflexivity | ..]; intros Hwe; proj;
          rewrite ?list_lookup_alter_ne by (apply ixR_ne_0, Hwe); reflexivity.
      * eapply inv_read_on with (pf := set_events (Z.lor (events pf) POLLOUT) pf)
                                (t := completed LIBUSB_TRANSFER_COMPLETED n t);
          proj; auto; try lia.
        -- rewrite length_insert. exact Hlen.
        -- rewrite list_lookup_alter_eq, Hfd. reflexivity.
        -- rewrite list_lookup_alter_eq, Hx. reflexivity.
        -- apply R_queued; proj; auto; try lia.
           ++ rewrite H2. reflexivity.
           ++ rewrite H1. exact Hslot.
      * eapply inv_trace_same; [exact Htr1 | reflexivity | ..].
        -- intros [] H; exact H.
        -- auto.
      * eof_step H. exact (Heof H).
    + (* timed out: submitted again *)
      apply wp_bind. eapply wp_submit.
      { unfold s1. proj. rewrite list_lookup_alter_eq, Hx. reflexivity. }
      { apply ending_cut, Htr1. }
      intros r w' -> s2. subst s2. proj. rewrite Hud. set (s2 := set_trace _ _).
      assert (Htr2 : inv_trace e keep s2).
      { eapply (inv_trace_log e keep s1 s2); [exact Htr1 | reflexivity | ..].
        - split; [eapply not_errored; [exact Htr1 | exact Herr]|]. exact I.
        - intros [] H; exact H.
        - intros [] H; discriminate H.
        - auto.
        - discriminate.
        - discriminate. }
      destruct (Z.eqb_spec r LIBUSB_SUCCESS) as [Hr0|Hr0].
      * apply wp_ret.
        split; [split|..]; [| | | | | exact I |]; unfold s2, s1; proj.
        -- exact Hl.
        -- rewrite !length_alter. exact Hs.
        -- eapply inv_write_frame; [exact Hw | reflexivity | ..]; intros Hwe; proj;
             rewrite ?list_lookup_alter_ne by (apply ixR_ne_0, Hwe); reflexivity.
        -- eapply inv_read_on with (pf := pf)
             (t := held true (completed LIBUSB_TRANSFER_TIMED_OUT n t)); proj; auto.
           ++ rewrite !list_lookup_alter_eq, Hx. reflexivity.
           ++ apply R_flight; proj; auto. rewrite Herr. reflexivity.
        -- eapply inv_trace_same; [exact Htr2 | reflexivity | ..].
           ++ intros [] H; exact H.
           ++ auto.
        -- eof_step H. exact (Heof H).
      * apply wp_bind, wp_eprint, wp_halt, ending_failure.
        apply inv_trace_stderr; [exact Htr2 | exact I].
Qed.

Lemma deliver_all_ok (cs : list completion) :
  triple (steady e keep) (deliver_all cs) (fun _ s => steady e keep s) (ending e keep).
Proof.
  induction cs as [|c cs IH]; intros w s Hs; simpl.
  - apply wp_ret, Hs.
  - apply wp_bind. eapply wp_triple; [apply deliver_ok | exact Hs |].
    intros ? w' s' Hs'. apply IH, Hs'.
Qed.

Lemma handle_events_ok :
  triple (steady e keep) libusb_handle_events_timeout (fun _ s => steady e keep s)
         (ending e keep).
Proof.
  intros w s [Hinv Htr Hset Heof]. unfold libusb_handle_events_timeout.
  apply wp_bind, wp_respond; [apply ending_cut, Htr|].
  intros r w' a -> Hr. apply wp_bind, wp_log. apply wp_bind.
  eapply wp_triple; [apply deliver_all_ok | |].
  - split; [| |exact I|].
    + destruct Hinv as [Hl Hs Hw Hr']. split; auto.
      * eapply inv_write_frame; eauto.
      * eapply inv_read_frame; eauto.
    + eapply (inv_trace_log e keep s); [exact Htr | reflexivity | ..].
      * apply ok_after_settled; [exact Hset | exact I].
      * intros [] H; exact H.
      * intros [] H; discriminate H.
      * auto.
      * discriminate.
      * discriminate.
    + eof_step H. exact (Heof H).
  - intros ? w'' s' Hs'. apply wp_ret, Hs'.
Qed.

(** What [poll] writes into [fds]. *)
Lemma poll_fill_spec (l : list pollfd_t) (revs : list Z) (l' : list pollfd_t) :
  poll_fill l revs = Some l' ->
  List.map fd l' = List.map fd l
  /\ forall j pf', l' !! j = Some pf' ->
       exists pf, l !! j = Some pf /\ events pf' = events pf /\ fd pf' = fd pf
                  /\ poll_admissible pf' (revents pf') = true.
Proof.
  revert revs l'. induction l as [|p l IH]; intros [|r revs] l' H; simpl in H;
    try discriminate.
  - injection H as <-. split; [reflexivity|]. intros j pf' Hj. destruct j; discriminate.
  - destruct (poll_admissible p r) eqn:Hp; [|discriminate].
    destruct (poll_fill l revs) as [l0|] eqn:Hl; [|discriminate].
    injection H as <-. destruct (IH _ _ Hl) as [IH1 IH2]. split.
    + simpl. f_equal. exact IH1.
    + intros [|j] pf' Hj; simpl in Hj.
      * injection Hj as <-. exists p. repeat split; auto.
      * apply IH2, Hj.
Qed.

Lemma wside_events (q : buffer_queue_t) (pf pf' : pollfd_t) (t : libusb_transfer) :
  events pf' = events pf -> wside e q pf t -> wside e q pf' t.
Proof.
  intros Hev [H1 H2 H3 H4 H5 | H1 H2 H3 H4 H5 H6 H7].
  - apply W_spare; auto. rewrite Hev. exact H5.
  - apply W_flight; auto. congruence.
Qed.

Lemma rside_events (q : buffer_queue_t) (pf pf' : pollfd_t) (t : libusb_transfer) :
  events pf' = events pf -> rside e q pf t -> rside e q pf' t.
Proof.
  intros Hev [H1 H2 H3 | H1 H2 H3 H4 H5 H6 H7 H8].
  - apply R_flight; auto. congruence.
  - apply R_queued; auto. congruence.
Qed.

(** While the loop runs, a shut-down write side has no spare buffer. *)
Lemma cond_shut (s : state) :
  inv e s -> loop_cond s = true -> shutdown (usb_write_buf s) = true ->
  buf_head (usb_write_buf s) = buf_tail (usb_write_buf s).
Proof.
  intros Hinv Hc Hsd. unfold loop_cond in Hc. rewrite Hsd in Hc.
  apply andb_true_iff in Hc as [_ Hc]. simpl in Hc.
  apply negb_true_iff, Z.eqb_neq in Hc.
  destruct (we e) eqn:Hwe.
  - destruct (iw_on _ _ (inv_w _ _ Hinv) Hwe) as (_ & _ & Hh & Ht & _).
    rewrite next_index in Hc by exact Ht. lia.
  - destruct (iw_off _ _ (inv_w _ _ Hinv) Hwe) as (H1 & H2 & _). congruence.
Qed.

Lemma poll_ok :
  triple (fun s => steady e keep s /\ loop_cond s = true) poll
         (fun r s => if 0 <? fst r then scanning e keep 0 s else steady e keep s)
         (ending e keep).
Proof.
  intros w s [[Hinv Htr Hset Heof] Hc]. unfold poll.
  assert (Hshut := cond_shut s Hinv Hc).
  unfold loop_cond in Hc. apply andb_true_iff in Hc as [Hc _].
  apply andb_true_iff in Hc as [Hwerr Hrerr]. apply negb_true_iff in Hwerr, Hrerr.
  assert (Hok : forall n, ok_after e (APoll n) (trace s)).
  { intros n. split.
    - split; eapply not_errored; eauto.
    - destruct (trace s) as [|[] ?]; try exact I. simpl in Hset. intros; lia. }
  assert (Hlog : forall n s', trace s' = APoll n :: trace s ->
            usb_write_buf s' = usb_write_buf s -> usb_read_buf s' = usb_read_buf s ->
            inv_trace e keep s').
  { intros n s' H1 H2 H3.
    eapply (inv_trace_log e keep s); [exact Htr | exact H1 | apply Hok | ..].
    - intros []; simpl; rewrite ?H2, ?H3; auto.
    - intros [] H; discriminate H.
    - rewrite H2. auto.
    - discriminate.
    - discriminate. }
  destruct Hinv as [Hl Hs Hw Hr].
  apply wp_bind, wp_respond; [apply ending_cut, Htr|].
  intros r w' a -> Hr'. apply wp_bind, wp_get.
  destruct a as [revs|er].
  - destruct (poll_fill (fds s) revs) as [l|] eqn:Hfill; [|apply wp_halt, ending_cut, Htr].
    destruct (0 <? count_ready l) eqn:Hcount; [|apply wp_halt, ending_cut, Htr].
    apply wp_bind, wp_modify, wp_bind, wp_log, wp_ret. cbn [fst]. rewrite Hcount.
    destruct (poll_fill_spec _ _ _ Hfill) as [Hfd Hent].
    split; [split; [split|..]|..]; proj; auto; try exact I.
    + congruence.
    + destruct (we e) eqn:Hwe; [|split; [exact (iw_off _ _ Hw) | intros; congruence]].
      destruct (iw_on _ _ Hw Hwe) as (? & ? & ? & ? & pf & t & Hfd0 & Hx0 & Hside).
      destruct (l !! 0%nat) as [pf'|] eqn:Hl0.
      * destruct (Hent _ _ Hl0) as (pf0 & Hp0 & Hev & _).
        assert (pf0 = pf) as -> by congruence.
        eapply inv_write_on with (pf := pf') (t := t); proj; auto.
        eapply wside_events; eauto.
      * apply lookup_ge_None in Hl0. apply lookup_lt_Some in Hfd0.
        rewrite <- (length_map fd), Hfd, length_map in Hl0. lia.
    + destruct (re e) eqn:Hre;
        [|split; [exact (ir_off _ _ Hr) | exact (ir_shutdown _ _ Hr) | intros; congruence]].
      destruct (ir_on _ _ Hr Hre)
        as (? & ? & ? & ? & pf & t & Hfd0 & Hx0 & ? & ? & ? & ? & ? & Hside).
      destruct (l !! ixR e) as [pf'|] eqn:Hl0.
      * destruct (Hent _ _ Hl0) as (pf0 & Hp0 & Hev & _).
        assert (pf0 = pf) as -> by congruence.
        eapply inv_read_on with (pf := pf') (t := t); proj; auto.
        -- exact (ir_shutdown _ _ Hr).
        -- eapply rside_events; eauto.
      * apply lookup_ge_None in Hl0. apply lookup_lt_Some in Hfd0.
        rewrite <- (length_map fd), Hfd, length_map in Hl0. lia.
    + eapply Hlog; reflexivity.
    + intros j pf' _ Hj. destruct (Hent _ _ Hj) as (_ & _ & _ & _ & H). exact H.
  - apply wp_bind, wp_log, wp_ret. cbn [fst].
    split; [split|..]; proj; auto; try exact I.
    + eapply inv_write_frame; eauto.
    + eapply inv_read_frame; eauto.
    + eapply Hlog; reflexivity.
Qed.

Lemma scan_ok (n : nat) : forall (i : nat) (r : Z),
  triple (fun s => scanning e keep i s /\ (i + n)%nat = List.length (layout e))
         (scan e n i r) (fun _ s => steady e keep s) (ending e keep).
Proof.
  induction n as [|n IH]; intros i r w s [Hsc Hlen]; simpl.
  - apply wp_ret, Hsc.
  - destruct (r =? 0); [apply wp_ret, Hsc|].
    apply wp_bind, wp_get.
    assert (Hl := inv_layout _ _ (st_inv _ _ _ (sc_steady _ _ _ _ Hsc))).
    destruct (fds s !! i) as [p|] eqn:Hp.
    2:{ apply lookup_ge_None in Hp. rewrite <- (length_map fd), Hl in Hp. lia. }
    apply wp_bind. eapply wp_deref; [reflexivity|].
    assert (Hnext : forall s', scanning e keep (S i) s' ->
              scanning e keep (S i) s' /\ (S i + n)%nat = List.length (layout e)).
    { intros s' H. split; [exact H | lia]. }
    destruct (negb (Z.land (events p) (revents p) =? 0)).
    + destruct (Z.eqb_spec (fd p) fd_in) as [Hin|Hin].
      { destruct (layout_stdin e Hcfg _ _ _ Hl Hp Hin) as [Hwe ->].
        apply wp_bind. eapply wp_triple; [apply on_stdin_ok | split; assumption |].
        intros ? w' s' Hs'. apply IH, Hnext, Hs'. }
      destruct (Z.eqb_spec (fd p) fd_out) as [Hout|Hout].
      { destruct (layout_stdout e Hcfg _ _ _ Hl Hp Hout) as [Hre ->].
        apply wp_bind. eapply wp_triple; [apply on_stdout_ok | split; [assumption | split; [assumption | reflexivity]] |].
        intros ? w' s' Hs'. apply IH, Hnext, Hs'. }
      apply wp_bind. eapply wp_triple; [apply handle_events_ok | apply Hsc |].
      intros rc w' s' Hs'. destruct (negb (rc =? LIBUSB_SUCCESS)).
      * apply wp_bind, wp_eprint, wp_halt, ending_failure.
        apply inv_trace_stderr; [apply Hs' | apply Hs'].
      * apply wp_ret, Hs'.
    + apply IH, Hnext. destruct Hsc as [H1 H2 H3 H4 H5]. split; auto.
      * intros j pf Hj. apply H4. lia.
      * discriminate.
Qed.

Lemma iteration_ok :
  triple (fun s => steady e keep s /\ loop_cond s = true) (iteration e)
         (fun _ s => steady e keep s) (ending e keep).
Proof.
  intros w s Hs. unfold iteration.
  apply wp_bind. eapply wp_triple; [apply poll_ok | exact Hs |].
  intros r w' s' Hs'. cbv beta in Hs'. destruct (0 <? fst r).
  - apply wp_bind, wp_get. eapply wp_triple; [apply scan_ok | | auto].
    split; [exact Hs'|].
    rewrite <- (inv_layout _ _ (st_inv _ _ _ (sc_steady _ _ _ _ Hs'))), length_map.
    reflexivity.
  - destruct (negb (snd r =? EINTR)).
    + apply wp_bind, wp_eprint, wp_halt, ending_failure.
      apply inv_trace_stderr; [apply Hs' | apply Hs'].
    + apply wp_ret, Hs'.
Qed.

End Preservation.

(** ** Set-up establishes the invariant *)

Section Setup.

Variable e : env.
Hypothesis Hcfg : well_configured e = true.

Lemma plain_errored (q : qref) (t : list action) : plain t = true -> errored q t = false.
Proof.
  induction t as [|a t IH]; [reflexivity|]. simpl. intros H.
  apply andb_true_iff in H as [Ha Ht]. rewrite (IH Ht).
  destruct a as [| | | |? [[]|] ? ? ?| | |]; try discriminate Ha; reflexivity.
Qed.

Lemma plain_eof (t : list action) : plain t = true -> eof_seen t = false.
Proof.
  induction t as [|a t IH]; [reflexivity|]. simpl. intros H.
  apply andb_true_iff in H as [Ha Ht]. rewrite (IH Ht).
  destruct a; try discriminate Ha; reflexivity.
Qed.

Lemma plain_settled (t : list action) : plain t = true -> settled t.
Proof. destruct t as [|[] t]; try exact (fun _ => I). discriminate. Qed.

Lemma plain_orderly (t : list action) : plain t = true -> orderly e t.
Proof.
  induction t as [|a t IH]; [exact (fun _ => I)|]. intros H.
  assert (H' := H). simpl in H'. apply andb_true_iff in H' as [Ha Ht].
  split; [|exact (IH Ht)]. split.
  - destruct a as [| | | |? [[]|] ? ? ?| | |]; try discriminate Ha; try exact I.
    apply plain_errored, Ht.
  - destruct t as [|[] t]; try exact I. discriminate Ht.
Qed.

Lemma plain_inv_trace (s : state) : plain (trace s) = true -> inv_trace e None s.
Proof.
  intros H. split.
  - apply plain_orderly, H.
  - intros q Hq. rewrite plain_errored in Hq by exact H. discriminate.
  - intros Hq. rewrite plain_eof in Hq by exact H. discriminate.
  - discriminate.
Qed.

Lemma starting_eta (s0 s : state) : starting s0 s -> s = set_trace (trace s) s0.
Proof.
  intros [(H1 & H2 & H3 & H4 & H5) _]. destruct s, s0; simpl in *. subst. reflexivity.
Qed.

Lemma non_blocking_ok (fd_ : Z) (s0 : state) :
  triple (starting s0) (non_blocking fd_) (fun _ s => starting s0 s) (ending e None).
Proof.
  assert (Hlog : forall s a, starting s0 s -> plain [a] = true ->
            starting s0 (set_trace (a :: trace s) s)).
  { intros s a [Hs Hp] Ha. split; [exact Hs|]. simpl in *.
    rewrite Hp. rewrite andb_true_r in Ha. rewrite Ha. reflexivity. }
  assert (Hend : forall s, starting s0 s -> inv_trace e None s).
  { intros s [_ Hp]. apply plain_inv_trace, Hp. }
  intros w s Hs. unfold non_blocking, fcntl, diag.
  apply wp_bind, wp_bind, wp_respond; [apply ending_cut, Hend, Hs|].
  intros r w' a -> Hr. apply wp_bind, wp_log, wp_ret.
  assert (H1 := Hlog s (AFcntl fd_) Hs eq_refl).
  apply wp_bind. destruct (negb (fst a =? -1)).
  - apply wp_ret. apply wp_bind, wp_bind, wp_respond; [apply ending_cut, Hend, H1|].
    intros r' w'' a' -> Hr'. apply wp_bind, wp_log, wp_ret.
    assert (H2 := Hlog _ (AFcntl fd_) H1 eq_refl).
    apply wp_bind. destruct (negb (fst a' =? -1)).
    + apply wp_ret, wp_ret, H2.
    + apply wp_bind, wp_eprint, wp_halt. split; [|reflexivity].
      apply Hend, (Hlog _ (AStderr "F_SETFL") H2 eq_refl).
  - apply wp_bind, wp_eprint, wp_halt. split; [|reflexivity].
    apply Hend, (Hlog _ (AStderr "F_GETFL") H1 eq_refl).
Qed.

Lemma map_fd_usb (l : list (Z * Z)) :
  List.map fd (List.map (fun p => mk_pollfd (fst p) (snd p) 0) l) = List.map fst l.
Proof. induction l as [|p l IH]; simpl; [reflexivity | f_equal; exact IH]. Qed.

Lemma wp_alloc (Q : nat -> list response -> state -> Prop) E w s :
  Q (List.length (xfers s)) w
    (set_xfers (xfers s ++ [mk_transfer 0 LIBUSB_TRANSFER_COMPLETED 0 0 None None false false]) s) ->
  wp libusb_alloc_transfer Q E w s.
Proof. intros H. exact H. Qed.

Lemma wp_malloc (Q : nat -> list response -> state -> Prop) E w s :
  Q (mallocs s) w (set_mallocs (S (mallocs s)) s) -> wp malloc Q E w s.
Proof. intros H. exact H. Qed.

Lemma setup_ok :
  triple (fun s => s = blank e) (setup e)
         (fun _ s => steady e None s /\ mallocs s = (count (we e) + count (re e))%nat)
         (ending e None).
Proof.
  intros w s ->. unfold setup, setup_write.
  apply wp_bind, wp_bind, wp_modify, wp_bind, wp_modify, wp_bind, wp_modify.
  apply wp_bind. eapply wp_triple; [apply non_blocking_ok | split; [repeat split | reflexivity] |].
  intros ? w1 s1 Hs1. cbv beta in Hs1. rewrite (starting_eta _ _ Hs1).
  destruct Hs1 as [_ Hp1]. set (t1 := trace s1) in *. clearbody t1. clear s1.
  fold (we e). fold (re e).
  assert (Hend : forall s, plain (trace s) = true -> ending e None (Cut s)).
  { intros s Hs. apply ending_cut, plain_inv_trace, Hs. }
  destruct (we e) eqn:Hwe;
    [ apply wp_bind, wp_get, wp_bind, wp_modify, wp_bind, wp_modify;
      apply wp_bind;
      cbn [Z.to_nat USB_BUFS Z.sub Z.add Z.opp Z.pos_sub Pos.to_nat Pos.iter_op Nat.add
           alloc_write_bufs Pos.pred_double];
      apply wp_bind, wp_alloc, wp_bind, wp_malloc, wp_bind, wp_modify, wp_ret;
      apply wp_modify
    | apply wp_bind, wp_modify, wp_modify ].
  all: unfold setup_read.
  all: apply wp_bind, wp_bind, wp_modify, wp_bind, wp_modify, wp_bind, wp_modify,
         wp_bind, wp_modify.
  all: apply wp_bind; (eapply wp_triple;
         [apply non_blocking_ok | split; [repeat split | exact Hp1] |]).
  all: intros ? w2 s2 Hs2; cbv beta in Hs2; rewrite (starting_eta _ _ Hs2).
  all: destruct Hs2 as [_ Hp2]; set (t2 := trace s2) in *; clearbody t2; clear s2.
  all: fold (re e); destruct (re e) eqn:Hre;
    [ apply wp_bind, wp_get, wp_bind, wp_modify; apply wp_bind;
      cbn [Z.to_nat USB_BUFS Z.sub Z.add Z.opp Z.pos_sub Pos.to_nat Pos.iter_op Nat.add
           submit_read_bufs Pos.pred_double];
      apply wp_bind, wp_alloc, wp_bind, wp_malloc;
      apply wp_bind; (eapply wp_fill; [reflexivity|]);
      apply wp_bind; (eapply wp_submit; [reflexivity | apply Hend, Hp2 |]);
      intros r w3 -> s3; subst s3;
      destruct (Z.eqb_spec r LIBUSB_SUCCESS) as [Hr0|Hr0]; cbn [negb];
      [ apply wp_ret, wp_modify, wp_modify
      | apply wp_bind, wp_eprint, wp_halt, ending_failure, plain_inv_trace;
        simpl; exact Hp2 ]
    | apply wp_modify, wp_modify ].
  all: simpl.
  all: split; [|reflexivity].
  all: split; [split | apply plain_inv_trace; simpl; assumption
                     | apply plain_settled; simpl; assumption
                     | intros Hq; rewrite plain_eof in Hq by (simpl; assumption);
                       discriminate Hq].
  all: try (unfold layout; rewrite Hwe, Hre; simpl; rewrite ?map_fd_usb; reflexivity).
  all: try (rewrite Hwe, Hre; reflexivity).
  all: try (split; [intros _; repeat split; reflexivity | intros; congruence]).
  all: try (split; [intros _; repeat split; reflexivity | reflexivity | intros; congruence]).
  all: unfold USB_BUFS in *.
  all: try (eapply inv_write_on; [exact Hwe | reflexivity | reflexivity | simpl; lia
                                  | simpl; lia | reflexivity | reflexivity |];
            apply W_spare; [simpl; lia | reflexivity | reflexivity | reflexivity
                            | left; reflexivity]).
  all: eapply inv_read_on; [exact Hre | reflexivity | unfold ixR; rewrite Hwe; reflexivity
                            | reflexivity | simpl; lia | simpl; lia
                            | unfold ixR; rewrite Hwe; reflexivity
                            | unfold ixR; rewrite Hwe; simpl; rewrite Hr0; reflexivity
                            | unfold ixR; rewrite ?Hwe; reflexivity ..
                            | ].
  all: apply R_flight; reflexivity.
Qed.

Theorem reachable_steady (s : state) : reachable e s -> steady e None s.
Proof.
  induction 1 as [w w' s Hs | s w w' s' _ IH Hc Hit].
  - assert (H := setup_ok w (blank e) eq_refl). unfold wp in H. rewrite Hs in H. apply H.
  - assert (H := iteration_ok e Hcfg None w s (conj IH Hc)). unfold wp in H.
    rewrite Hit in H. exact H.
Qed.

End Setup.

(** ** Whole runs *)

Section Runs.

Variable e : env.
Hypothesis Hcfg : well_configured e = true.

Lemma event_loop_ok (keep : option nat) (iters : list (list response)) : forall s,
  steady e keep s ->
  match event_loop e iters s with
  | Left_loop s' => steady e keep s' /\ loop_cond s' = false
  | Ended o => ending e keep o
  end.
Proof.
  induction iters as [|w iters IH]; intros s Hs; simpl.
  - destruct (loop_cond s) eqn:Hc; [|auto]. apply ending_cut, Hs.
  - destruct (loop_cond s) eqn:Hc; [|auto].
    assert (H := iteration_ok e Hcfg keep w s (conj Hs Hc)). unfold wp in H.
    destruct (iteration e w s) as [[] w' s'|o]; [apply IH, H | exact H].
Qed.

Lemma event_loop_reachable (iters : list (list response)) : forall s s',
  reachable e s -> event_loop e iters s = Left_loop s' -> reachable e s'.
Proof.
  induction iters as [|w iters IH]; intros s s' Hs; simpl.
  - destruct (loop_cond s); [discriminate|]. intros H. injection H as <-. exact Hs.
  - destruct (loop_cond s) eqn:Hc; [|intros H; injection H as <-; exact Hs].
    destruct (iteration e w s) as [[] w' s1|o] eqn:Hit; [|discriminate].
    apply IH. eapply reach_turn; eauto.
Qed.

(** How [main] can end. *)
Lemma main_ok (w0 : list response) (iters : list (list response)) :
  (exists s, main e w0 iters = Returned EXIT_SUCCESS s
             /\ reachable e s /\ loop_cond s = false /\ steady e None s)
  \/ ending e None (main e w0 iters).
Proof.
  unfold main. assert (H := setup_ok e w0 (blank e) eq_refl). unfold wp in H.
  destruct (setup e w0 (blank e)) as [[] w1 s|o] eqn:Hs; [|right; exact H].
  assert (Hr : reachable e s) by (eapply reach_setup; eauto).
  assert (H1 := event_loop_ok None iters s (proj1 H)).
  destruct (event_loop e iters s) as [s'|o] eqn:Hl; [|right; exact H1].
  left. exists s'. destruct H1 as [H1 H2].
  split; [reflexivity|]. split; [eapply event_loop_reachable; eauto|].
  split; [exact H2 | exact H1].
Qed.

Lemma main_trace (w0 : list response) (iters : list (list response)) :
  inv_trace e None (outcome_state (main e w0 iters)).
Proof.
  destruct (main_ok w0 iters) as [(s & -> & _ & _ & Hs) | [H _]]; [apply Hs | exact H].
Qed.

(** Once input is shut down the number of reads stays. *)
Lemma steady_keep (s : state) :
  steady e None s -> shutdown (usb_write_buf s) = true ->
  steady e (Some (reads (trace s))) s.
Proof.
  intros [Hi [H1 H2 H3 _] Hs He] Hsd. split; [exact Hi | | exact Hs | exact He].
  split; auto. intros n Hn. injection Hn as <-. auto.
Qed.

(** ** Counting transfers *)

Lemma list_two {A} (l : list A) (a b : A) :
  List.length l = 2%nat -> l !! 0%nat = Some a -> l !! 1%nat = Some b -> l = [a; b].
Proof.
  destruct l as [|x [|y [|z l]]]; simpl; intros H H0 H1; try discriminate.
  injection H0 as ->. injection H1 as ->. reflexivity.
Qed.

Lemma list_one {A} (l : list A) (a : A) :
  List.length l = 1%nat -> l !! 0%nat = Some a -> l = [a].
Proof.
  destruct l as [|x [|y l]]; simpl; intros H H0; try discriminate.
  injection H0 as ->. reflexivity.
Qed.

Lemma occupied_cases (q : buffer_queue_t) :
  0 <= buf_head q < 2 -> 0 <= buf_tail q < 2 ->
  (buf_head q = buf_tail q /\ occupied q = 0)
  \/ (buf_head q <> buf_tail q /\ occupied q = 1).
Proof.
  intros Hh Ht. unfold occupied.
  assert (buf_head q = 0 \/ buf_head q = 1) as [-> | ->] by lia;
  assert (buf_tail q = 0 \/ buf_tail q = 1) as [-> | ->] by lia;
  (left; split; [reflexivity|reflexivity]) || (right; split; [discriminate|reflexivity]).
Qed.

(** What the store holds, by configuration. *)
Lemma store_shape (s : state) :
  inv e s ->
  xfers s = (if we e then match xfers s !! 0%nat with Some t => [t] | None => [] end else [])
            ++ (if re e then match xfers s !! ixR e with Some t => [t] | None => [] end else []).
Proof.
  intros [_ Hs Hw Hr].
  assert (HW := iw_on _ _ Hw). assert (HR := ir_on _ _ Hr).
  unfold ixR in *.
  destruct (we e), (re e); simpl in *.
  - destruct (HW eq_refl) as (_ & _ & _ & _ & pf & t & _ & Hx0 & _).
    destruct (HR eq_refl) as (_ & _ & _ & _ & pf' & t' & _ & Hx1 & _).
    rewrite Hx0, Hx1. apply list_two; auto.
  - destruct (HW eq_refl) as (_ & _ & _ & _ & pf & t & _ & Hx0 & _).
    rewrite Hx0. apply list_one; auto.
  - destruct (HR eq_refl) as (_ & _ & _ & _ & pf' & t' & _ & Hx1 & _).
    rewrite Hx1. apply list_one; auto.
  - destruct (xfers s); [reflexivity | discriminate].
Qed.

(** The write side: the transport holds a transfer only while head equals
    tail, and none once the error flag is set. *)
Lemma in_flight_write (s : state) :
  inv e s ->
  0 <= in_flight usb_write_buf_ref s <= 1
  /\ (buf_head (usb_write_buf s) <> buf_tail (usb_write_buf s) ->
      in_flight usb_write_buf_ref s = 0)
  /\ (error (usb_write_buf s) = true -> in_flight usb_write_buf_ref s = 0)
  /\ (we e = false -> in_flight usb_write_buf_ref s = 0).
Proof.
  intros Hinv. assert (Hsh := store_shape s Hinv). destruct Hinv as [_ Hs Hw Hr].
  unfold in_flight. rewrite Hsh. clear Hsh.
  assert (HR : re e = true -> exists t, xfers s !! ixR e = Some t
                                        /\ owned_by usb_write_buf_ref t = false).
  { intros Hre. destruct (ir_on _ _ Hr Hre) as (_ & _ & _ & _ & pf & t & _ & Hx & Hud & _).
    exists t. split; [exact Hx|]. unfold owned_by. rewrite Hud. reflexivity. }
  destruct (we e) eqn:Hwe.
  - destruct (iw_on _ _ Hw Hwe) as (_ & _ & Hh & Ht & pf & t & _ & Hx0 & Hside).
    rewrite Hx0.
    assert (Hrest : List.filter (fun t => submitted t && owned_by usb_write_buf_ref t)
              (if re e then match xfers s !! ixR e with Some t => [t] | None => [] end else [])
              = []).
    { destruct (re e); [|reflexivity]. destruct (HR eq_refl) as (t' & -> & Ho).
      simpl. rewrite Ho, andb_false_r. reflexivity. }
    rewrite List.filter_app, Hrest, app_nil_r. simpl.
    destruct Hside as [H1 H2 H3 H4 H5 | H1 H2 H3 H4 H5 H6 H7].
    + rewrite H3. simpl. repeat split; intros; try lia; congruence.
    + rewrite H3. destruct (error (usb_write_buf s)); simpl.
      * repeat split; intros; try lia; congruence.
      * destruct (owned_by usb_write_buf_ref t); simpl;
          repeat split; intros; try lia; congruence.
  - simpl. destruct (re e); [|simpl; repeat split; intros; lia].
    destruct (HR eq_refl) as (t' & -> & Ho). simpl. rewrite Ho, andb_false_r. simpl.
    repeat split; intros; lia.
Qed.

Lemma in_flight_read (s : state) :
  inv e s ->
  0 <= in_flight usb_read_buf_ref s <= 1
  /\ (buf_head (usb_read_buf s) <> buf_tail (usb_read_buf s) ->
      in_flight usb_read_buf_ref s = 0).
Proof.
  intros Hinv. assert (Hsh := store_shape s Hinv). destruct Hinv as [_ Hs Hw Hr].
  unfold in_flight. rewrite Hsh. clear Hsh.
  assert (HW : we e = true -> exists t, xfers s !! 0%nat = Some t
              /\ submitted t && owned_by usb_read_buf_ref t = false).
  { intros Hwe. destruct (iw_on _ _ Hw Hwe) as (_ & _ & _ & _ & pf & t & _ & Hx & Hside).
    exists t. split; [exact Hx|].
    destruct Hside as [H1 H2 H3 H4 H5 | H1 H2 H3 H4 H5 H6 H7].
    - rewrite H3. reflexivity.
    - unfold owned_by. rewrite H4. apply andb_false_r. }
  assert (Hfirst : List.filter (fun t => submitted t && owned_by usb_read_buf_ref t)
            (if we e then match xfers s !! 0%nat with Some t => [t] | None => [] end else [])
            = []).
  { destruct (we e); [|reflexivity]. destruct (HW eq_refl) as (t' & -> & Ho).
    simpl. rewrite Ho. reflexivity. }
  rewrite List.filter_app, Hfirst. simpl.
  destruct (re e) eqn:Hre; [|simpl; split; [lia | intros; lia]].
  destruct (ir_on _ _ Hr Hre) as (_ & _ & _ & _ & pf & t & _ & Hx & _ & _ & _ & _ & _ & Hside).
  rewrite Hx. simpl.
  destruct Hside as [H1 H2 H3 | H1 H2 H3 H4 H5 H6 H7 H8].
  - destruct (submitted t && owned_by usb_read_buf_ref t); simpl;
      split; try lia; intros; congruence.
  - rewrite H4. simpl. split; [lia | intros; lia].
Qed.

Lemma queue_bounds (s : state) (q : qref) :
  inv e s -> 0 <= buf_head (getq q s) < 2 /\ 0 <= buf_tail (getq q s) < 2.
Proof.
  intros [_ _ Hw Hr]. destruct q; simpl.
  - destruct (we e) eqn:Hwe.
    + destruct (iw_on _ _ Hw Hwe) as (_ & _ & Hh & Ht & _). auto.
    + destruct (iw_off _ _ Hw Hwe) as (-> & -> & _). lia.
  - destruct (re e) eqn:Hre.
    + destruct (ir_on _ _ Hr Hre) as (_ & _ & Hh & Ht & _). auto.
    + destruct (ir_off _ _ Hr Hre) as (-> & -> & _). lia.
Qed.

(** In flight or queued: one transfer at most, on each side. *)
Lemma one_transfer (s : state) (q : qref) :
  inv e s -> 0 <= occupied (getq q s) /\ in_flight q s + occupied (getq q s) <= USB_BUFS - 1.
Proof.
  intros Hinv. destruct (queue_bounds s q Hinv) as [Hh Ht].
  change (USB_BUFS - 1) with 1.
  destruct (occupied_cases (getq q s) Hh Ht) as [[He ->] | [Hne ->]].
  - destruct q; [destruct (in_flight_write s Hinv) as (? & _)
                | destruct (in_flight_read s Hinv) as (? & _)]; lia.
  - destruct q; simpl in Hne.
    + destruct (in_flight_write s Hinv) as (_ & H & _). rewrite (H Hne). lia.
    + destruct (in_flight_read s Hinv) as (_ & H). rewrite (H Hne). lia.
Qed.

End Runs.

(** ** Order of calls *)

Section Order_facts.

Variable e : env.

Lemma orderly_app (post pre : list action) : orderly e (post ++ pre) -> orderly e pre.
Proof. induction post as [|a post IH]; simpl; [auto | intros [_ H]; auto]. Qed.

Lemma errored_app (q : qref) (post pre : list action) :
  errored q (post ++ pre) = errored q post || errored q pre.
Proof. apply existsb_app. Qed.

Lemma eof_seen_app (post pre : list action) :
  eof_seen (post ++ pre) = eof_seen post || eof_seen pre.
Proof. apply existsb_app. Qed.

Lemma same_queue_refl (q : qref) : same_queue q q = true.
Proof. destruct q; reflexivity. Qed.

(** After a read of 0 bytes there is no read. *)
Lemma orderly_no_read_after_eof (post pre : list action) (b : nat) (c : Z) :
  orderly e (post ++ ARead b c 0 :: pre) -> reads post = 0%nat.
Proof.
  induction post as [|a post IH]; [reflexivity|]. simpl. intros [[Ha _] Ho].
  rewrite reads_cons, (IH Ho). destruct a; try reflexivity.
  rewrite eof_seen_app in Ha. simpl in Ha. rewrite orb_true_r in Ha. discriminate.
Qed.

(** A read that took bytes in is followed at once by the submission of as
    many bytes to the write endpoint. *)
Lemma orderly_read_submitted (post pre : list action) (b : nat) (c n : Z) :
  orderly e (post ++ ARead b c n :: pre) -> 0 < n ->
  post = [] \/ exists post' x r,
    post = post' ++ [ASubmit x (Some usb_write_buf_ref) (u8 (write_ep e)) n r].
Proof.
  intros Ho Hn. induction post as [|a post IH]; [left; reflexivity|]. right.
  simpl in Ho. destruct Ho as [[_ Ha] Ho]. destruct (IH Ho) as [-> | (post' & x & r & ->)].
  - simpl in Ha. destruct (Ha Hn) as (x & r & ->). exists [], x, r. reflexivity.
  - exists (a :: post'), x, r. reflexivity.
Qed.

(** After a terminal completion for a queue there is no submission for
    that queue and no [poll]. *)
Lemma orderly_after_failure (post pre : list action) (x : nat) (q : qref)
    (st : libusb_transfer_status) (a : action) :
  orderly e (post ++ ACallback x (Some q) st :: pre) -> terminal st = true ->
  In a post ->
  (forall n, a <> APoll n) /\ (forall y ep len r, a <> ASubmit y (Some q) ep len r).
Proof.
  intros Ho Hst. induction post as [|a' post IH]; [intros []|].
  simpl in Ho. destruct Ho as [[Ha _] Ho]. intros [<- | Hin]; [|exact (IH Ho Hin)].
  assert (He : errored q (post ++ ACallback x (Some q) st :: pre) = true).
  { rewrite errored_app. simpl. rewrite same_queue_refl, Hst. apply orb_true_r. }
  split.
  - intros n ->. destruct Ha as [H1 H2]. destruct q; congruence.
  - intros y ep len r ->. congruence.
Qed.

Lemma errored_In (q : qref) (t : list action) :
  errored q t = true <->
  exists x st, In (ACallback x (Some q) st) t /\ terminal st = true.
Proof.
  unfold errored. rewrite existsb_exists. split.
  - intros (a & Hin & Ha). destruct a as [| | | | | |x [q'|] st|]; try discriminate Ha.
    simpl in Ha. apply andb_true_iff in Ha as [Hq Hst].
    exists x, st. split; [|exact Hst].
    destruct q, q'; try discriminate Hq; exact Hin.
  - intros (x & st & Hin & Hst). exists (ACallback x (Some q) st). split; [exact Hin|].
    simpl. rewrite same_queue_refl, Hst. reflexivity.
Qed.

End Order_facts.

(** ** Single calls with their response at hand *)

Lemma wp_run {A} (m : M A) (w : list response) (s : state) (X : res A) :
  wp m (fun a w' s' => m w s = Ok a w' s' -> X = Ok a w' s')
       (fun o => m w s = Stop o -> X = Stop o) w s ->
  m w s = X.
Proof. unfold wp. destruct (m w s); intros H; symmetry; auto. Qed.

Lemma wp_read_here b count v er (Q : Z * Z -> list response -> state -> Prop)
    (E : outcome -> Prop) w s :
  -1 <= v <= count ->
  Q (v, er) w (set_trace (ARead b count v :: trace s) s) ->
  wp (sys_read b count) Q E (RRead v er :: w) s.
Proof.
  intros Hv HQ. unfold wp, sys_read, bind, respond. cbn [fst snd].
  replace ((-1 <=? v) && (v <=? count)) with true; [exact HQ|].
  symmetry. apply andb_true_iff. split; apply Z.leb_le; lia.
Qed.

Lemma wp_write_here b off count v er (Q : Z * Z -> list response -> state -> Prop)
    (E : outcome -> Prop) w s :
  -1 <= v <= count ->
  Q (v, er) w (set_trace (AWrite b off count v :: trace s) s) ->
  wp (sys_write b off count) Q E (RWrite v er :: w) s.
Proof.
  intros Hv HQ. unfold wp, sys_write, bind, respond. cbn [fst snd].
  replace ((-1 <=? v) && (v <=? count)) with true; [exact HQ|].
  symmetry. apply andb_true_iff. split; apply Z.leb_le; lia.
Qed.

Lemma wp_submit_here x t r (Q : Z -> list response -> state -> Prop)
    (E : outcome -> Prop) w s :
  xfers s !! x = Some t ->
  (let s1 := set_trace (ASubmit x (user_data t) (endpoint t) (xlength t) r :: trace s) s in
   Q r w (if r =? LIBUSB_SUCCESS then upd_xfer x (held true) s1 else s1)) ->
  wp (libusb_submit_transfer x) Q E (RSubmit r :: w) s.
Proof.
  intros Hx HQ. unfold wp, libusb_submit_transfer, bind, get, deref, respond, log, modify, ret.
  rewrite Hx. cbv zeta in HQ. destruct (r =? LIBUSB_SUCCESS); exact HQ.
Qed.

Lemma size_t_nonneg (x : Z) : 0 <= size_t x.
Proof. unfold size_t. apply Z.mod_pos_bound. reflexivity. Qed.

(** A failing [read] in the stdin branch, a failing [write] in the stdout
    branch. *)
Lemma on_stdin_failure (e : env) (i : nat) (s : state) (w : list response) (er : Z)
    (pf : pollfd_t) (b : buffer_t) (d : nat) :
  fds s !! i = Some pf -> Z.land (revents pf) POLLIN <> 0 ->
  buf_head (usb_write_buf s) <> buf_tail (usb_write_buf s) ->
  buf (usb_write_buf s) !! Z.to_nat (buf_head (usb_write_buf s)) = Some b ->
  data b = Some d ->
  on_stdin e i (RRead (-1) er :: w) s
  = let s1 := set_trace (ARead d (USB_XFER_SZ / 2) (-1) :: trace s) s in
    if er =? EINTR then Ok tt w s1
    else Stop (Returned EXIT_FAILURE
                 (set_trace (AStderr "Error reading input" :: trace s1) s1)).
Proof.
  intros Hfd Hin Hne Hb Hd. apply wp_run. unfold on_stdin.
  apply wp_bind, wp_get. apply wp_bind. eapply wp_deref; [exact Hfd|]. cbv zeta.
  apply Z.eqb_neq in Hin. rewrite Hin. cbn [negb].
  apply wp_bind, wp_assert; [apply negb_true_iff, Z.eqb_neq, Hne|].
  apply wp_bind. eapply wp_deref; [exact Hb|].
  apply wp_bind. eapply wp_deref; [exact Hd|].
  apply wp_bind, wp_read_here; [change (USB_XFER_SZ / 2) with 256; lia|]. cbn [fst snd].
  change (0 <? -1) with false. change (-1 =? 0) with false. cbv iota.
  destruct (er =? EINTR); cbn [negb].
  - apply wp_ret. auto.
  - apply wp_bind, wp_eprint, wp_halt. auto.
Qed.

Lemma on_stdout_failure (e : env) (i : nat) (s : state) (w : list response) (er : Z)
    (pf : pollfd_t) (p : nat) (b : buffer_t) (d : nat) :
  buf_head (usb_read_buf s) <> buf_tail (usb_read_buf s) ->
  buf (usb_read_buf s) !! Z.to_nat (buf_head (usb_read_buf s)) = Some b ->
  pollfd (usb_read_buf s) = Some p -> fds s !! p = Some pf -> data b = Some d ->
  on_stdout e i (RWrite (-1) er :: w) s
  = let s1 := set_trace (AWrite d (xfer_written (usb_read_buf s))
                           (size_t (xfer_length (usb_read_buf s)
                                    - xfer_written (usb_read_buf s))) (-1)
                         :: trace s) s in
    if er =? EINTR then Ok tt w s1
    else Stop (Returned EXIT_FAILURE
                 (set_trace (AStderr "Error writing output" :: trace s1) s1)).
Proof.
  intros Hne Hb Hp Hfd Hd. apply wp_run. unfold on_stdout.
  apply wp_bind, wp_get. cbv zeta.
  apply wp_bind, wp_assert; [apply negb_true_iff, Z.eqb_neq, Hne|].
  apply wp_bind. eapply wp_deref; [exact Hb|].
  apply wp_bind. eapply wp_deref; [exact Hp|].
  apply wp_bind. eapply wp_deref; [exact Hfd|].
  apply wp_bind. eapply wp_deref; [exact Hd|].
  apply wp_bind, wp_write_here.
  { assert (H := size_t_nonneg (xfer_length (usb_read_buf s) - xfer_written (usb_read_buf s))).
    lia. }
  cbn [fst snd]. change (0 <=? -1) with false. cbv iota.
  destruct (er =? EINTR); cbn [negb].
  - apply wp_ret. auto.
  - apply wp_bind, wp_eprint, wp_halt. auto.
Qed.

Lemma size_t_id (x : Z) : 0 <= x < 2 ^ 64 -> size_t x = x.
Proof. intros H. apply Z.mod_small, H. Qed.

(** One write that leaves part of the buffer, and the write that sends the
    rest. *)
Lemma on_stdout_partial (e : env) (i : nat) (s : state) (w : list response) (k er : Z)
    (x d p : nat) (pf : pollfd_t) :
  buf_head (usb_read_buf s) <> buf_tail (usb_read_buf s) ->
  buf (usb_read_buf s) !! Z.to_nat (buf_head (usb_read_buf s))
    = Some (mk_buffer (Some x) (Some d)) ->
  pollfd (usb_read_buf s) = Some p -> fds s !! p = Some pf ->
  0 <= xfer_written (usb_read_buf s) -> xfer_length (usb_read_buf s) < 2 ^ 64 ->
  0 <= k -> xfer_written (usb_read_buf s) + k < xfer_length (usb_read_buf s) ->
  on_stdout e i (RWrite k er :: w) s
  = Ok tt w (updq usb_read_buf_ref (set_xfer_written (xfer_written (usb_read_buf s) + k))
               (set_trace (AWrite d (xfer_written (usb_read_buf s))
                             (xfer_length (usb_read_buf s) - xfer_written (usb_read_buf s)) k
                           :: trace s) s)).
Proof.
  intros Hne Hb Hp Hfd Hc HL Hk Hlt. apply wp_run. unfold on_stdout.
  apply wp_bind, wp_get. cbv zeta.
  apply wp_bind, wp_assert; [apply negb_true_iff, Z.eqb_neq, Hne|].
  apply wp_bind. eapply wp_deref; [exact Hb|].
  apply wp_bind. eapply wp_deref; [exact Hp|].
  apply wp_bind. eapply wp_deref; [exact Hfd|].
  apply wp_bind. eapply wp_deref; [reflexivity|].
  rewrite (size_t_id (xfer_length (usb_read_buf s) - xfer_written (usb_read_buf s))) by lia.
  apply wp_bind, wp_write_here; [lia|]. cbn [fst snd].
  rewrite (size_t_id (xfer_written (usb_read_buf s) + k)) by lia.
  replace (0 <=? k) with true by (symmetry; apply Z.leb_le; exact Hk).
  apply wp_bind, wp_modify.
  replace (xfer_written (usb_read_buf s) + k =? xfer_length (usb_read_buf s)) with false
    by (symmetry; apply Z.eqb_neq; lia).
  apply wp_ret. auto.
Qed.

Lemma on_stdout_full (e : env) (i : nat) (s : state) (w : list response) (k er r : Z)
    (x d p : nat) (pf : pollfd_t) (t : libusb_transfer) :
  0 <= buf_head (usb_read_buf s) < 2 -> 0 <= buf_tail (usb_read_buf s) < 2 ->
  buf_head (usb_read_buf s) <> buf_tail (usb_read_buf s) ->
  buf (usb_read_buf s) !! Z.to_nat (buf_head (usb_read_buf s))
    = Some (mk_buffer (Some x) (Some d)) ->
  pollfd (usb_read_buf s) = Some p -> fds s !! p = Some pf -> xfers s !! x = Some t ->
  0 <= xfer_written (usb_read_buf s) -> xfer_length (usb_read_buf s) < 2 ^ 64 ->
  0 <= k -> xfer_written (usb_read_buf s) + k = xfer_length (usb_read_buf s) ->
  on_stdout e i (RWrite k er :: RSubmit r :: w) s
  = let s1 := updq usb_read_buf_ref (set_xfer_written (xfer_length (usb_read_buf s)))
                (set_trace (AWrite d (xfer_written (usb_read_buf s))
                              (xfer_length (usb_read_buf s) - xfer_written (usb_read_buf s)) k
                            :: trace s) s) in
    let s2 := upd_xfer x (filled (read_ep e) (Some d) USB_XFER_SZ usb_read_buf_ref) s1 in
    let s3 := set_trace (ASubmit x (Some usb_read_buf_ref) (u8 (read_ep e)) USB_XFER_SZ r
                         :: trace s2) s2 in
    if r =? LIBUSB_SUCCESS
    then Ok tt w (upd_events i (fun ev => Z.land ev (Z.lnot POLLOUT))
                    (updq usb_read_buf_ref
                       (set_buf_head (u32 (buf_head (usb_read_buf s) + 1) mod USB_BUFS))
                       (upd_xfer x (held true) s3)))
    else Stop (Returned EXIT_FAILURE
                 (set_trace (AStderr "Error submitting USB IN transfer" :: trace s3) s3)).
Proof.
  intros Hh Ht Hne Hb Hp Hfd Hx Hc HL Hk Heq. apply wp_run. unfold on_stdout.
  apply wp_bind, wp_get. cbv zeta.
  apply wp_bind, wp_assert; [apply negb_true_iff, Z.eqb_neq, Hne|].
  apply wp_bind. eapply wp_deref; [exact Hb|].
  apply wp_bind. eapply wp_deref; [exact Hp|].
  apply wp_bind. eapply wp_deref; [exact Hfd|].
  apply wp_bind. eapply wp_deref; [reflexivity|].
  rewrite (size_t_id (xfer_length (usb_read_buf s) - xfer_written (usb_read_buf s))) by lia.
  apply wp_bind, wp_write_here; [lia|]. cbn [fst snd].
  rewrite (size_t_id (xfer_written (usb_read_buf s) + k)) by lia.
  replace (0 <=? k) with true by (symmetry; apply Z.leb_le; exact Hk).
  apply wp_bind, wp_modify. rewrite Heq, Z.eqb_refl.
  apply wp_bind. eapply wp_deref; [reflexivity|].
  apply wp_bind. eapply wp_fill; [exact Hx|].
  apply wp_bind. eapply wp_submit_here.
  { proj. rewrite list_lookup_alter_eq, Hx. reflexivity. }
  cbv zeta. proj.
  destruct (r =? LIBUSB_SUCCESS); cbn [negb].
  - apply wp_bind, wp_modify.
    replace (u32 (buf_head (usb_read_buf s) + 1) mod USB_BUFS =? buf_tail (usb_read_buf s))
      with true by (symmetry; apply Z.eqb_eq; rewrite next_index by exact Hh; lia).
    cbn [negb]. apply wp_modify. auto.
  - apply wp_bind, wp_eprint, wp_halt. auto.
Qed.

Lemma written_eta (s : state) (c : Z) :
  xfer_written (usb_read_buf s) = c ->
  updq usb_read_buf_ref (set_xfer_written c) (set_trace (trace s) s) = s.
Proof. destruct s as [f qw [] xs m t]. simpl. intros ->. reflexivity. Qed.

(** A series of writes, none of which reaches the end of the buffer. *)
Lemma repeat_stdout_partial (e : env) (i : nat) (x d p : nat) (pf : pollfd_t)
    (w : list response) (ks : list Z) : forall (s : state),
  buf_head (usb_read_buf s) <> buf_tail (usb_read_buf s) ->
  buf (usb_read_buf s) !! Z.to_nat (buf_head (usb_read_buf s))
    = Some (mk_buffer (Some x) (Some d)) ->
  pollfd (usb_read_buf s) = Some p -> fds s !! p = Some pf ->
  0 <= xfer_written (usb_read_buf s) -> xfer_length (usb_read_buf s) < 2 ^ 64 ->
  Forall (fun k => 0 <= k) ks ->
  ks = [] \/ xfer_written (usb_read_buf s) + sum_list ks < xfer_length (usb_read_buf s) ->
  repeat_stdout e i (List.length ks) (List.map (fun k => RWrite k 0) ks ++ w) s
  = Ok tt w (updq usb_read_buf_ref
               (set_xfer_written (xfer_written (usb_read_buf s) + sum_list ks))
               (set_trace (write_log d (xfer_written (usb_read_buf s))
                             (xfer_length (usb_read_buf s)) ks (trace s)) s)).
Proof.
  induction ks as [|k ks IH]; intros s Hne Hb Hp Hfd Hc HL Hks Hsum.
  - cbn [List.length List.map app repeat_stdout sum_list List.fold_right write_log].
    rewrite Z.add_0_r, written_eta by reflexivity. reflexivity.
  - destruct Hsum as [Hsum|Hsum]; [discriminate|].
    assert (Hk : 0 <= k) by (inversion Hks; assumption).
    assert (Hks' : Forall (fun k => 0 <= k) ks) by (inversion Hks; assumption).
    assert (Hpos : 0 <= sum_list ks).
    { clear -Hks'. induction Hks'; simpl; lia. }
    cbn [sum_list List.fold_right] in Hsum. fold (sum_list ks) in Hsum.
    cbn [List.length List.map app repeat_stdout sum_list List.fold_right write_log].
    fold (sum_list ks). unfold bind.
    rewrite (on_stdout_partial e i s _ k 0 x d p pf Hne Hb Hp Hfd Hc HL Hk) by lia.
    rewrite IH; proj; auto; try lia.
    rewrite Z.add_assoc. reflexivity.
Qed.

(** ** Running a computation whatever the state *)

Lemma wp_deref_any {A} (o : option A) (Q : A -> list response -> state -> Prop)
    (E : outcome -> Prop) w s :
  (forall a, o = Some a -> Q a w s) -> E (Faulted s) -> wp (deref o) Q E w s.
Proof. intros HQ HE. destruct o; [apply HQ; reflexivity | exact HE]. Qed.

Lemma wp_assert_any a b (Q : unit -> list response -> state -> Prop)
    (E : outcome -> Prop) w s :
  (b = true -> Q tt w s) -> E (Aborted a s) -> wp (assert_ a b) Q E w s.
Proof. intros HQ HE. destruct b; [apply HQ; reflexivity | exact HE]. Qed.

Lemma wp_conj {A} (m : M A) (Q1 Q2 : A -> list response -> state -> Prop)
    (E1 E2 : outcome -> Prop) w s :
  wp m Q1 E1 w s -> wp m Q2 E2 w s ->
  wp m (fun a w' s' => Q1 a w' s' /\ Q2 a w' s') (fun o => E1 o /\ E2 o) w s.
Proof. unfold wp. destruct (m w s); auto. Qed.

Lemma wp_mono {A} (m : M A) (Q Q' : A -> list response -> state -> Prop)
    (E E' : outcome -> Prop) w s :
  wp m Q E w s -> (forall a w' s', Q a w' s' -> Q' a w' s') -> (forall o, E o -> E' o) ->
  wp m Q' E' w s.
Proof. unfold wp. destruct (m w s); auto. Qed.

(** One step of a computation, with a case for each way it can go. *)
Ltac wp_step :=
  cbv beta;
  lazymatch goal with
  | |- wp (bind _ _) _ _ _ _ => apply wp_bind
  | |- wp (ret _) _ _ _ _ => apply wp_ret
  | |- wp get _ _ _ _ => apply wp_get
  | |- wp (modify _) _ _ _ _ => apply wp_modify
  | |- wp (log _) _ _ _ _ => apply wp_log
  | |- wp (eprint _) _ _ _ _ => apply wp_eprint
  | |- wp (halt _) _ _ _ _ => apply wp_halt
  | |- wp (deref _) _ _ _ _ => apply wp_deref_any; [intros ? ?|]
  | |- wp (assert_ _ _) _ _ _ _ => apply wp_assert_any; [intros ?|]
  | |- wp (respond _) _ _ _ _ => apply wp_respond; [|intros ? ? ? ? ?]
  | |- wp (if ?b then _ else _) _ _ _ _ => destruct b eqn:?
  | |- wp (match ?x with _ => _ end) _ _ _ _ => destruct x eqn:?
  | |- wp (let _ := _ in _) _ _ _ _ => cbv zeta
  | |- wp (sys_read _ _) _ _ _ _ => unfold sys_read
  | |- wp (sys_write _ _ _) _ _ _ _ => unfold sys_write
  | |- wp (libusb_submit_transfer _) _ _ _ _ => unfold libusb_submit_transfer
  | |- wp (libusb_fill_bulk_transfer _ _ _ _ _) _ _ _ _ => unfold libusb_fill_bulk_transfer
  | |- wp libusb_alloc_transfer _ _ _ _ => unfold libusb_alloc_transfer
  | |- wp malloc _ _ _ _ => unfold malloc
  | |- wp (fcntl _) _ _ _ _ => unfold fcntl
  | |- wp (diag _ _) _ _ _ _ => unfold diag
  | |- wp (non_blocking _) _ _ _ _ => unfold non_blocking
  | |- wp poll _ _ _ _ => unfold poll
  | |- wp (usb_callback _) _ _ _ _ => unfold usb_callback
  end.
Ltac wp_run_all := repeat wp_step.

(** All that a state built step by step holds, read off it. *)
Ltac proj_all :=
  cbn [fds xfers trace usb_write_buf usb_read_buf mallocs
       upd_events upd_xfer updq setq getq set_fds set_xfers set_trace set_mallocs
       buf buf_tail buf_head pollfd xfer_length xfer_written shutdown error
       set_buf set_buf_tail set_buf_head set_pollfd set_xfer_length set_xfer_written
       set_shutdown set_error
       fd events revents set_events set_revents
       endpoint status xlength actual_length buffer user_data callback submitted
       filled held completed usb_xfer data fst snd negb] in *.

(** Comparisons that a run went through, as inequalities. *)
Ltac as_bounds :=
  repeat match goal with
         | H : (_ && _) = true |- _ => apply andb_true_iff in H as [? ?]
         | H : (_ <=? _) = true |- _ => apply Z.leb_le in H
         | H : (_ <? _) = true |- _ => apply Z.ltb_lt in H
         | H : (_ <=? _) = false |- _ => apply Z.leb_gt in H
         | H : (_ <? _) = false |- _ => apply Z.ltb_ge in H
         | H : (_ =? _) = true |- _ => apply Z.eqb_eq in H
         | H : (_ =? _) = false |- _ => apply Z.eqb_neq in H
         | H : negb _ = true |- _ => apply negb_true_iff in H
         | H : negb _ = false |- _ => apply negb_false_iff in H
         end;
  unfold USB_XFER_SZ in *;
  change (512 / 2) with 256 in *.

(** What a response of the world was, and which transfer a pointer that
    was followed points at. *)
Ltac as_found :=
  repeat match goal with
         | H : match ?r with RFcntl _ _ => _ | _ => _ end = Some _ |- _ =>
             destruct r; try discriminate H; injection H as <-
         | H : context [alter _ ?x _ !! ?x] |- _ => rewrite list_lookup_alter_eq in H
         | H1 : ?l !! ?x = Some _, H2 : context [?l !! ?x] |- _ =>
             lazymatch type of H2 with
             | l !! x = Some _ => fail
             | _ => rewrite H1 in H2
             end
         | H : _ <$> Some _ = Some _ |- _ => injection H as <-
         | H : Some _ = Some _ |- _ => injection H as <-
         end.


(** ** Set-up and completions, step by step *)

Lemma wp_respond_here {A} (f : response -> option A) (Q : A -> list response -> state -> Prop)
    (E : outcome -> Prop) r w s a :
  f r = Some a -> Q a w s -> wp (respond f) Q E (r :: w) s.
Proof. intros Hf HQ. unfold wp, respond. rewrite Hf. exact HQ. Qed.

(** Set-up returns when its calls succeed. *)
Lemma setup_returns (e : env) :
  exists w s, setup e setup_fine (blank e) = Ok tt w s.
Proof.
  assert (H : wp (setup e) (fun _ _ _ => True) (fun _ => False) setup_fine (blank e)).
  { unfold setup, setup_write, setup_read, copy_usb_fds, push_fd, setup_fine.
    change (Z.to_nat (USB_BUFS - 1)) with 1%nat. cbn [alloc_write_bufs submit_read_bufs].
    repeat (cbv beta;
            lazymatch goal with
            | |- wp (respond _) _ _ (_ :: _) _ => eapply wp_respond_here; [reflexivity|]
            | |- wp (deref _) _ _ _ _ =>
                eapply wp_deref;
                [proj_all; try rewrite lookup_app_r by (simpl; lia); try reflexivity|]
            | |- wp (if ?b then _ else _) _ _ _ _ =>
                first [ change b with true | change b with false | destruct b eqn:? ];
                cbv iota
            | _ => wp_step
            end).
    all: exact I. }
  unfold wp in H. destruct (setup e setup_fine (blank e)) as [[] w s|o]; [eauto | destruct H].
Qed.

(** What each direction has when set-up returns: the write side a spare
    buffer in its ring, the read side a transfer with the transport. *)
Lemma setup_counts (e : env) (w : list response) :
  wp (setup e)
     (fun _ _ s =>
        occupied (usb_write_buf s) = Z.of_nat (count (we e)) * (USB_BUFS - 1)
        /\ in_flight usb_write_buf_ref s = 0
        /\ occupied (usb_read_buf s) = 0
        /\ in_flight usb_read_buf_ref s = Z.of_nat (count (re e)) * (USB_BUFS - 1)
        /\ (if we e
            then buf (usb_write_buf s) !! Z.to_nat (buf_head (usb_write_buf s))
                 = Some (mk_buffer (Some 0%nat) (Some 0%nat))
            else True)
        /\ (if re e
            then xfers s !! ixR e
                 = Some (mk_transfer (u8 (read_ep e)) LIBUSB_TRANSFER_COMPLETED USB_XFER_SZ 0
                                     (Some (ixR e)) (Some usb_read_buf_ref) true true)
            else True))
     (fun _ => True) w (blank e).
Proof.
  unfold setup, setup_write, setup_read, copy_usb_fds, push_fd, ixR, we, re.
  change (Z.to_nat (USB_BUFS - 1)) with 1%nat. cbn [alloc_write_bufs submit_read_bufs].
  wp_run_all; try exact I.
  all: proj_all; as_found; as_bounds; subst; try congruence;
    repeat split; first [reflexivity | exact I].
Qed.

(** A successful completion on an empty ring: the ring is no longer empty,
    and the interest is asserted unless the queue is shut down. *)
Lemma completion_on_empty (x : nat) (t : libusb_transfer) (q : qref) (n : Z) (p : nat)
    (pf : pollfd_t) (w : list response) (s : state) :
  xfers s !! x = Some t -> submitted t = true -> 0 <= n <= xlength t ->
  callback t = true -> user_data t = Some q ->
  buf_head (getq q s) = buf_tail (getq q s) -> 0 <= buf_tail (getq q s) < USB_BUFS ->
  pollfd (getq q s) = Some p -> fds s !! p = Some pf ->
  Z.land (events pf)
         (if Z.land (endpoint t) LIBUSB_ENDPOINT_DIR_MASK =? 0 then POLLIN else POLLOUT) = 0 ->
  exists s',
    deliver (x, LIBUSB_TRANSFER_COMPLETED, n) w s = Ok tt w s'
    /\ buf_head (getq q s') <> buf_tail (getq q s')
    /\ fds s'
       = if shutdown (getq q s) then fds s
         else <[p := set_events
                       (Z.lor (events pf)
                              (if Z.land (endpoint t) LIBUSB_ENDPOINT_DIR_MASK =? 0
                               then POLLIN else POLLOUT)) pf]> (fds s).
Proof.
  intros Hx Hsub Hn Hcb Hq Hempty Hb Hp Hpf Hmask.
  assert (Hnext : u32 (buf_tail (getq q s) + 1) mod USB_BUFS = 1 - buf_tail (getq q s))
    by (apply next_index; exact Hb).
  assert (H : wp (deliver (x, LIBUSB_TRANSFER_COMPLETED, n))
                 (fun _ w' s' =>
                    w' = w /\ buf_head (getq q s') <> buf_tail (getq q s')
                    /\ fds s'
                       = if shutdown (getq q s) then fds s
                         else <[p := set_events
                                       (Z.lor (events pf)
                                          (if Z.land (endpoint t) LIBUSB_ENDPOINT_DIR_MASK =? 0
                                           then POLLIN else POLLOUT)) pf]> (fds s))
                 (fun _ => False) w s).
  { unfold deliver. apply wp_bind, wp_get. rewrite Hx, Hsub.
    replace (0 <=? n) with true by (symmetry; apply Z.leb_le; lia).
    replace (n <=? xlength t) with true by (symmetry; apply Z.leb_le; lia).
    cbn [andb]. apply wp_bind, wp_modify, wp_bind, wp_log. rewrite Hcb.
    unfold usb_callback. apply wp_bind, wp_get.
    apply wp_bind. eapply wp_deref; [proj; rewrite list_lookup_alter_eq, Hx; reflexivity|].
    apply wp_bind. eapply wp_deref; [proj; exact Hq|]. cbv zeta.
    assert (Hg : forall a f, getq q (set_trace a (upd_xfer x f s)) = getq q s)
      by (intros; destruct q; reflexivity).
    rewrite !Hg. apply wp_bind, wp_assert.
    { apply negb_true_iff, Z.eqb_neq. rewrite Hnext. lia. }
    cbn [status completed endpoint buffer actual_length].
    apply wp_bind, wp_modify. apply wp_bind.
    rewrite Hempty, Z.eqb_refl. cbv zeta.
    apply wp_bind. eapply wp_deref; [exact Hp|].
    apply wp_bind. eapply wp_deref; [proj_all; exact Hpf|].
    apply wp_bind, wp_assert; [apply Z.eqb_eq; exact Hmask|].
    destruct (shutdown (getq q s)) eqn:Hsd.
    - apply wp_ret, wp_modify. split; [reflexivity|]. rewrite Hnext.
      split; [destruct q; proj_all; simpl in *; lia | destruct q; reflexivity].
    - apply wp_bind, wp_modify, wp_bind, wp_modify, wp_modify, wp_modify.
      split; [reflexivity|]. rewrite Hnext.
      split; [destruct q; proj_all; simpl in *; lia|].
      destruct q; proj_all; unfold upd_events; proj_all.
      all: apply list_eq; intros j; destruct (decide (j = p)) as [->|Hj].
      all: try (rewrite list_lookup_alter_eq, Hpf, list_lookup_insert_eq
                  by (apply lookup_lt_Some in Hpf; exact Hpf); reflexivity).
      all: rewrite list_lookup_alter_ne, list_lookup_insert_ne by auto; reflexivity. }
  unfold wp in H.
  destruct (deliver (x, LIBUSB_TRANSFER_COMPLETED, n) w s) as [[] w' s'|o]; [|destruct H].
  destruct H as (-> & H1 & H2). exists s'. auto.
Qed.

(** ** Properties of the program *)

(** C1 (a defect of the code): a stall of the inbound transfer sets the
    error flag and ends the loop, and [main] then returns [EXIT_SUCCESS] as
    it does after a clean drain. *)
Theorem C1_error_flag_exit_status :
  exists s, main cfg_read setup_fine run_stall = Returned EXIT_SUCCESS s
            /\ error (usb_read_buf s) = true
            /\ shutdown (usb_write_buf s) = false
            /\ In (ACallback 0 (Some usb_read_buf_ref) LIBUSB_TRANSFER_STALL) (trace s).
Proof.
  eexists. split; [vm_compute; reflexivity|].
  split; [reflexivity|]. split; [reflexivity|]. simpl. auto.
Qed.

(** C2, as the code has it: a [read] or [write] of the loop that fails
    with EINTR changes nothing and the loop goes on; one that fails with
    any other errno, EAGAIN and EWOULDBLOCK too, is reported on standard
    error and ends the process with [EXIT_FAILURE]. *)
Theorem C2_only_eintr_is_retried (e : env) (i : nat) (s : state) (w : list response)
    (er : Z) :
  (forall pf b d,
     fds s !! i = Some pf -> Z.land (revents pf) POLLIN <> 0 ->
     buf_head (usb_write_buf s) <> buf_tail (usb_write_buf s) ->
     buf (usb_write_buf s) !! Z.to_nat (buf_head (usb_write_buf s)) = Some b ->
     data b = Some d ->
     exists a, a = ARead d (USB_XFER_SZ / 2) (-1)
       /\ (er = EINTR ->
           on_stdin e i (RRead (-1) er :: w) s = Ok tt w (set_trace (a :: trace s) s))
       /\ (er <> EINTR ->
           on_stdin e i (RRead (-1) er :: w) s
           = Stop (Returned EXIT_FAILURE
                     (set_trace (AStderr "Error reading input" :: a :: trace s) s))))
  /\ (forall pf p b d,
        buf_head (usb_read_buf s) <> buf_tail (usb_read_buf s) ->
        buf (usb_read_buf s) !! Z.to_nat (buf_head (usb_read_buf s)) = Some b ->
        pollfd (usb_read_buf s) = Some p -> fds s !! p = Some pf -> data b = Some d ->
        exists a, a = AWrite d (xfer_written (usb_read_buf s))
                        (size_t (xfer_length (usb_read_buf s)
                                 - xfer_written (usb_read_buf s))) (-1)
          /\ (er = EINTR ->
              on_stdout e i (RWrite (-1) er :: w) s = Ok tt w (set_trace (a :: trace s) s))
          /\ (er <> EINTR ->
              on_stdout e i (RWrite (-1) er :: w) s
              = Stop (Returned EXIT_FAILURE
                        (set_trace (AStderr "Error writing output" :: a :: trace s) s)))).
Proof.
  split.
  - intros pf b d H1 H2 H3 H4 H5. eexists. split; [reflexivity|].
    rewrite (on_stdin_failure e i s w er pf b d H1 H2 H3 H4 H5). cbv zeta. split.
    + intros ->. reflexivity.
    + intros Hne. apply Z.eqb_neq in Hne. rewrite Hne. reflexivity.
  - intros pf p b d H1 H2 H3 H4 H5. eexists. split; [reflexivity|].
    rewrite (on_stdout_failure e i s w er pf p b d H1 H2 H3 H4 H5). cbv zeta. split.
    + intros ->. reflexivity.
    + intros Hne. apply Z.eqb_neq in Hne. rewrite Hne. reflexivity.
Qed.

(** C2 as stated fails: a [read], and a [write], failing with EAGAIN ends
    the process with [EXIT_FAILURE] after a message on standard error. *)
Lemma C2_eagain_is_fatal :
  (exists s, main cfg_write setup_fine run_read_eagain = Returned EXIT_FAILURE s
             /\ hd_error (trace s) = Some (AStderr "Error reading input"))
  /\ (exists s, main cfg_read setup_fine run_write_eagain = Returned EXIT_FAILURE s
                /\ hd_error (trace s) = Some (AStderr "Error writing output")).
Proof.
  split; eexists; (split; [vm_compute; reflexivity | reflexivity]).
Qed.

(** A state with a spare outbound buffer, standard input reported
    readable, and ten inbound bytes queued. *)
Lemma C2_only_eintr_is_retried_witness :
  let s := state_after cfg_both run_both_ready in
  on_stdin cfg_both 0 [RRead (-1) EINTR] s
    = Ok tt [] (set_trace (ARead 0 (USB_XFER_SZ / 2) (-1) :: trace s) s)
  /\ on_stdout cfg_both 1 [RWrite (-1) EINTR] s
     = Ok tt [] (set_trace (AWrite 1 0 (size_t (10 - 0)) (-1) :: trace s) s).
Proof.
  cbv zeta. split.
  - destruct (C2_only_eintr_is_retried cfg_both 0 (state_after cfg_both run_both_ready)
                [] EINTR) as [H _].
    destruct (H (mk_pollfd fd_in ev_stdin_on POLLIN) (mk_buffer (Some 0%nat) (Some 0%nat))
                0%nat) as (a & -> & Ha & _).
    + vm_compute. reflexivity.
    + vm_compute. discriminate.
    + vm_compute. discriminate.
    + vm_compute. reflexivity.
    + reflexivity.
    + apply Ha. reflexivity.
  - destruct (C2_only_eintr_is_retried cfg_both 1 (state_after cfg_both run_both_ready)
                [] EINTR) as [_ H].
    destruct (H (mk_pollfd fd_out ev_stdout_on 0) 1%nat
                (mk_buffer (Some 1%nat) (Some 1%nat)) 1%nat) as (a & Hq & Ha & _).
    + vm_compute. discriminate.
    + vm_compute. reflexivity.
    + vm_compute. reflexivity.
    + vm_compute. reflexivity.
    + reflexivity.
    + rewrite (Ha eq_refl), Hq. vm_compute. reflexivity.
Defined.

(** C3: after a read of 0 bytes no further read is made; every read that
    took bytes in is followed at once by the submission of those bytes to
    the write endpoint; in every state between two turns of the loop that
    comes after a read of 0 bytes the outbound shutdown flag is set, the
    transport holds no outbound transfer, so that every completion of the
    outbound direction has been delivered, and the condition of the loop is
    false; and when [main] returns after the loop in a run with a read of 0
    bytes, the transport holds no outbound transfer. *)
Theorem C3_shutdown_drain (e : env) (Hcfg : well_configured e = true)
    (w0 : list response) (iters : list (list response)) :
  let s := outcome_state (main e w0 iters) in
  (forall post pre b c, trace s = post ++ ARead b c 0 :: pre -> reads post = 0%nat)
  /\ (forall post pre b c n, trace s = post ++ ARead b c n :: pre -> 0 < n ->
        post = [] \/ exists post' x r,
          post = post' ++ [ASubmit x (Some usb_write_buf_ref) (u8 (write_ep e)) n r])
  /\ (forall s1, reachable e s1 -> eof_seen (trace s1) = true ->
        shutdown (usb_write_buf s1) = true
        /\ in_flight usb_write_buf_ref s1 = 0 /\ loop_cond s1 = false)
  /\ (forall s', main e w0 iters = Returned EXIT_SUCCESS s' -> eof_seen (trace s') = true ->
        in_flight usb_write_buf_ref s' = 0).
Proof.
  intros s. assert (Htr := main_trace e Hcfg w0 iters). fold s in Htr.
  assert (Heof : forall s1, reachable e s1 -> eof_seen (trace s1) = true ->
                 shutdown (usb_write_buf s1) = true
                 /\ in_flight usb_write_buf_ref s1 = 0 /\ loop_cond s1 = false).
  { intros s1 Hr He. assert (Hs := reachable_steady e Hcfg s1 Hr).
    assert (Hne := st_eof _ _ _ Hs He).
    assert (Hsd := it_eof _ _ _ (st_trace _ _ _ Hs) He).
    destruct (in_flight_write e s1 (st_inv _ _ _ Hs)) as (_ & Hfl & _).
    destruct (queue_bounds e s1 usb_write_buf_ref (st_inv _ _ _ Hs)) as [Hh Ht].
    simpl in Hh, Ht. split; [exact Hsd|]. split; [exact (Hfl Hne)|].
    unfold loop_cond. rewrite Hsd, next_index by exact Ht.
    replace (1 - buf_tail (usb_write_buf s1) =? buf_head (usb_write_buf s1)) with true
      by (symmetry; apply Z.eqb_eq; lia).
    apply andb_false_r. }
  split; [|split; [|split]].
  - intros post pre b c Ht. eapply orderly_no_read_after_eof.
    rewrite <- Ht. apply (it_order _ _ _ Htr).
  - intros post pre b c n Ht Hn. eapply orderly_read_submitted; [|exact Hn].
    rewrite <- Ht. apply (it_order _ _ _ Htr).
  - exact Heof.
  - intros s' Hm He. destruct (main_ok e Hcfg w0 iters) as [(s0 & H0 & Hr & _) | [_ H]].
    + rewrite Hm in H0. injection H0 as <-. apply (Heof s' Hr He).
    + rewrite Hm in H. discriminate H.
Qed.

(** Both directions: 100 bytes are sent, their transfer completes, then
    standard input is at its end and the loop is left. *)
Lemma C3_shutdown_drain_witness :
  well_configured cfg_both = true
  /\ exists s',
       main cfg_both setup_fine run_eof = Returned EXIT_SUCCESS s'
       /\ eof_seen (trace s') = true
       /\ In (ACallback 0 (Some usb_write_buf_ref) LIBUSB_TRANSFER_COMPLETED) (trace s')
       /\ in_flight usb_write_buf_ref s' = 0.
Proof.
  split; [reflexivity|].
  destruct (C3_shutdown_drain cfg_both eq_refl setup_fine run_eof) as (_ & _ & _ & H).
  exists (state_after cfg_both run_eof).
  assert (Hm : main cfg_both setup_fine run_eof
               = Returned EXIT_SUCCESS (state_after cfg_both run_eof))
    by (vm_compute; reflexivity).
  assert (He : eof_seen (trace (state_after cfg_both run_eof)) = true)
    by (vm_compute; reflexivity).
  split; [exact Hm|]. split; [exact He|].
  split; [vm_compute; auto 10|]. exact (H _ Hm He).
Defined.

(** C4: the loop is left by its condition exactly when an error flag of
    either direction is set, or the outbound shutdown flag is set and the
    tail index advanced by one, modulo the number of slots, equals the head
    index; otherwise it takes another turn. *)
Theorem C4_termination_predicate (e : env) (s : state) :
  (loop_cond s = false <->
     error (usb_write_buf s) = true \/ error (usb_read_buf s) = true
     \/ (shutdown (usb_write_buf s) = true
         /\ u32 (buf_tail (usb_write_buf s) + 1) mod USB_BUFS = buf_head (usb_write_buf s)))
  /\ (loop_cond s = false -> forall iters, event_loop e iters s = Left_loop s)
  /\ (loop_cond s = true -> forall w iters,
        event_loop e (w :: iters) s
        = match iteration e w s with
          | Ok _ _ s' => event_loop e iters s'
          | Stop o => Ended o
          end)
  /\ (forall iters s', event_loop e iters s = Left_loop s' -> loop_cond s' = false).
Proof.
  split; [|split; [|split]].
  - unfold loop_cond.
    destruct (error (usb_write_buf s)), (error (usb_read_buf s)),
      (shutdown (usb_write_buf s)); simpl;
      try (split; [auto | reflexivity]).
    + split.
      * intros H. apply negb_false_iff, Z.eqb_eq in H. auto.
      * intros [H | [H | [_ H]]]; try discriminate. apply negb_false_iff, Z.eqb_eq, H.
    + split; [discriminate|]. intros [H | [H | [H _]]]; discriminate.
  - intros Hc iters. destruct iters; simpl; rewrite Hc; reflexivity.
  - intros Hc w iters. simpl. rewrite Hc. reflexivity.
  - intros iters. revert s. induction iters as [|w iters IH]; intros s s'; simpl.
    + destruct (loop_cond s) eqn:Hc; [discriminate|]. intros H. injection H as <-. exact Hc.
    + destruct (loop_cond s) eqn:Hc; [|intros H; injection H as <-; exact Hc].
      destruct (iteration e w s) as [[] w' s1|o]; [apply IH | discriminate].
Qed.

(** C5, as the code has it, for a write endpoint that is an OUT endpoint, a
    read endpoint that is an IN endpoint and descriptors of the transport
    other than 0 and 1: between two turns of the loop the indices of each
    ring are below USB_BUFS and no more than USB_BUFS - 1 slots are
    occupied; while the transport holds a transfer of a direction, so that
    a completion can be delivered, fewer than USB_BUFS - 1 are; no run ends
    on the assertion of the callback or on that of the stdin branch, nor on
    a bad pointer; and a run that ends on the assertion of the stdout
    branch does so with a stdout entry for which [poll] reported no
    POLLOUT. *)
Theorem C5_capacity (e : env) (Hcfg : well_configured e = true) :
  (forall s, reachable e s -> forall q,
     (0 <= buf_head (getq q s) < USB_BUFS /\ 0 <= buf_tail (getq q s) < USB_BUFS)
     /\ 0 <= occupied (getq q s) <= USB_BUFS - 1
     /\ (0 < in_flight q s -> occupied (getq q s) < USB_BUFS - 1))
  /\ (forall w0 iters a s, main e w0 iters = Aborted a s ->
        a = assert_stdout_queued
        /\ exists pf, fds s !! ixR e = Some pf /\ fd pf = fd_out
                      /\ Z.land (revents pf) POLLOUT = 0
                      /\ buf_head (usb_read_buf s) = buf_tail (usb_read_buf s))
  /\ (forall w0 iters s, main e w0 iters <> Faulted s).
Proof.
  split; [|split].
  - intros s Hr q. assert (Hi := st_inv _ _ _ (reachable_steady e Hcfg s Hr)).
    destruct (one_transfer e s q Hi) as [H1 H2].
    split; [exact (queue_bounds e s q Hi)|]. split; [|lia].
    destruct q; [destruct (in_flight_write e s Hi) as (? & _)
                | destruct (in_flight_read e s Hi) as (? & _)]; lia.
  - intros w0 iters a s Hm.
    destruct (main_ok e Hcfg w0 iters) as [(s0 & H0 & _) | [_ H]].
    + rewrite Hm in H0. discriminate H0.
    + rewrite Hm in H. exact H.
  - intros w0 iters s Hm.
    destruct (main_ok e Hcfg w0 iters) as [(s0 & H0 & _) | [_ H]].
    + rewrite Hm in H0. discriminate H0.
    + rewrite Hm in H. exact H.
Qed.

(** The read-only configuration: after set-up the transport holds the
    inbound transfer and the ring is empty; after ten bytes have arrived
    the ring holds them and the transport holds nothing. *)
Lemma C5_capacity_witness :
  let s0 := state_after cfg_read [] in
  let s1 := state_after cfg_read run_arrival in
  well_configured cfg_read = true
  /\ (reachable cfg_read s0 /\ in_flight usb_read_buf_ref s0 = 1
      /\ occupied (getq usb_read_buf_ref s0) < USB_BUFS - 1)
  /\ (reachable cfg_read s1 /\ in_flight usb_read_buf_ref s1 = 0
      /\ 0 <= occupied (getq usb_read_buf_ref s1) <= USB_BUFS - 1)
  /\ (forall w0 iters s, main cfg_read w0 iters <> Faulted s).
Proof.
  intros s0 s1. destruct (C5_capacity cfg_read eq_refl) as (H & _ & Hf).
  assert (H0 : reachable cfg_read s0).
  { apply (reach_setup cfg_read setup_fine []). vm_compute. reflexivity. }
  assert (H1 : reachable cfg_read s1).
  { apply (reach_turn cfg_read s0
             [RPollReady [0; POLLIN];
              REvents [(0%nat, LIBUSB_TRANSFER_COMPLETED, 10)] LIBUSB_SUCCESS] []);
      [exact H0 | vm_compute; reflexivity | vm_compute; reflexivity]. }
  split; [reflexivity|]. split; [|split; [|exact Hf]].
  - split; [exact H0|]. split; [vm_compute; reflexivity|].
    destruct (H s0 H0 usb_read_buf_ref) as (_ & _ & Himp).
    apply Himp. vm_compute. reflexivity.
  - split; [exact H1|]. split; [vm_compute; reflexivity|].
    destruct (H s1 H1 usb_read_buf_ref) as (_ & Hocc & _). exact Hocc.
Defined.

(** C5 as stated fails twice: the loop takes the buffer at the head for a
    read in a state where USB_BUFS - 1 slots are occupied (and only there:
    the guard asks for a non-empty ring); and the assertion of the stdout
    branch fails when standard output reports POLLERR while nothing is
    queued. *)
Lemma C5_taken_when_occupied :
  (exists s0 w s1 w',
     setup cfg_write setup_fine (blank cfg_write) = Ok tt w s0
     /\ occupied (usb_write_buf s0) = USB_BUFS - 1
     /\ iteration cfg_write turn_read s0 = Ok tt w' s1
     /\ trace s1 = ASubmit 0 (Some usb_write_buf_ref) 1 100 LIBUSB_SUCCESS
                   :: ARead 0 (USB_XFER_SZ / 2) 100 :: APoll 1 :: trace s0)
  /\ (exists s, main cfg_read setup_fine run_stdout_err = Aborted assert_stdout_queued s
                /\ occupied (usb_read_buf s) = 0).
Proof.
  split.
  - eexists. eexists. eexists. eexists.
    split; [vm_compute; reflexivity|]. split; [reflexivity|].
    split; [vm_compute; reflexivity|]. reflexivity.
  - eexists. split; [vm_compute; reflexivity | reflexivity].
Qed.

(** C6, as the code has it, for a write endpoint that is an OUT endpoint, a
    read endpoint that is an IN endpoint and descriptors of the transport
    other than 0 and 1: between two turns of the loop, POLLOUT is asked for
    on standard output exactly when the inbound ring is non-empty; POLLIN
    is asked for on standard input only when the outbound ring holds a
    spare buffer, and, as long as input is not shut down, whenever it does.
    And, whatever the configuration: a successful completion delivered
    while the ring of its queue is empty makes the ring non-empty; it
    asserts the interest of the queue on its descriptor (POLLIN for an OUT
    endpoint, POLLOUT for an IN endpoint) when the shutdown flag of the
    queue is clear, and leaves the poll set as it is when the flag is
    set. *)
Theorem C6_readiness_gating (e : env) (Hcfg : well_configured e = true) :
  (forall s, reachable e s ->
     (re e = true ->
        exists pf, fds s !! ixR e = Some pf /\ fd pf = fd_out
          /\ (Z.land (events pf) POLLOUT <> 0
              <-> buf_head (usb_read_buf s) <> buf_tail (usb_read_buf s)))
     /\ (we e = true ->
           exists pf, fds s !! 0%nat = Some pf /\ fd pf = fd_in
             /\ (Z.land (events pf) POLLIN <> 0 ->
                 buf_head (usb_write_buf s) <> buf_tail (usb_write_buf s))
             /\ (shutdown (usb_write_buf s) = false ->
                 buf_head (usb_write_buf s) <> buf_tail (usb_write_buf s) ->
                 Z.land (events pf) POLLIN <> 0)))
  /\ (forall x t q n p pf w s,
        xfers s !! x = Some t -> submitted t = true -> 0 <= n <= xlength t ->
        callback t = true -> user_data t = Some q ->
        buf_head (getq q s) = buf_tail (getq q s) -> 0 <= buf_tail (getq q s) < USB_BUFS ->
        pollfd (getq q s) = Some p -> fds s !! p = Some pf ->
        let mask := if Z.land (endpoint t) LIBUSB_ENDPOINT_DIR_MASK =? 0
                    then POLLIN else POLLOUT in
        Z.land (events pf) mask = 0 ->
        exists s',
          deliver (x, LIBUSB_TRANSFER_COMPLETED, n) w s = Ok tt w s'
          /\ buf_head (getq q s') <> buf_tail (getq q s')
          /\ fds s' = if shutdown (getq q s) then fds s
                      else <[p := set_events (Z.lor (events pf) mask) pf]> (fds s)).
Proof.
  split.
  - intros s Hs. destruct (reachable_steady e Hcfg s Hs) as [[Hl _ Hw Hr] _ _]. split.
    + intros Hre.
      destruct (ir_on _ _ Hr Hre)
        as (_ & _ & _ & _ & pf & t & Hfd & _ & _ & _ & _ & _ & _ & Hside).
      exists pf. split; [exact Hfd|]. split; [eapply layout_ixR; eauto|].
      destruct Hside as [H1 H2 H3 | H1 H2 H3 H4 H5 H6 H7 H8]; rewrite H2.
      * split; [intros H; destruct H; reflexivity | intros H; destruct H; exact H1].
      * split; [intros _; exact H1 | intros _; discriminate].
    + intros Hwe.
      destruct (iw_on _ _ Hw Hwe) as (_ & _ & _ & _ & pf & t & Hfd & _ & Hside).
      exists pf. split; [exact Hfd|]. split.
      { apply lookup_map_fd in Hfd. rewrite Hl in Hfd. unfold layout in Hfd.
        rewrite Hwe in Hfd. simpl in Hfd. congruence. }
      destruct Hside as [H1 H2 H3 H4 H5 | H1 H2 H3 H4 H5 H6 H7].
      * split; [intros _; exact H1|]. intros Hsd _.
        destruct H5 as [-> | [H5 _]]; [discriminate | congruence].
      * rewrite H2. split; [intros H; destruct H; reflexivity | intros _ H; contradiction].
  - intros x t q n p pf w s Hx Hsub Hn Hcb Hq He Hb Hp Hpf mask Hmask.
    exact (completion_on_empty x t q n p pf w s Hx Hsub Hn Hcb Hq He Hb Hp Hpf Hmask).
Qed.

(** Both directions.  After an interrupted read and the arrival of ten
    bytes the inbound ring is non-empty and POLLOUT is asked for; and when
    the completion of 100 outbound bytes is delivered, the outbound ring is
    no longer empty and POLLIN is asked for on standard input again. *)
Lemma C6_readiness_gating_witness :
  let s := state_after cfg_both run_both_ready in
  let s1 := state_after cfg_both [[RPollReady [POLLIN; 0; 0]; RRead 100 0;
                                   RSubmit LIBUSB_SUCCESS]] in
  well_configured cfg_both = true
  /\ reachable cfg_both s
  /\ (exists pf, fds s !! 1%nat = Some pf /\ fd pf = fd_out
                 /\ Z.land (events pf) POLLOUT <> 0
                 /\ buf_head (usb_read_buf s) <> buf_tail (usb_read_buf s))
  /\ (exists pf, fds s1 !! 0%nat = Some pf /\ Z.land (events pf) POLLIN = 0
                 /\ buf_head (usb_write_buf s1) = buf_tail (usb_write_buf s1))
  /\ (exists s', deliver (0%nat, LIBUSB_TRANSFER_COMPLETED, 100) [] s1 = Ok tt [] s'
                 /\ buf_head (usb_write_buf s') <> buf_tail (usb_write_buf s')
                 /\ fds s' = <[0%nat := mk_pollfd fd_in ev_stdin_on POLLIN]> (fds s1)).
Proof.
  cbv zeta. destruct (C6_readiness_gating cfg_both eq_refl) as [Hinv Hcb].
  assert (Hr : reachable cfg_both (state_after cfg_both run_both_ready)).
  { apply (reach_turn cfg_both (state_after cfg_both [])
             [RPollReady [POLLIN; 0; POLLIN]; RRead (-1) EINTR;
              REvents [(1%nat, LIBUSB_TRANSFER_COMPLETED, 10)] LIBUSB_SUCCESS] []);
      [|vm_compute; reflexivity | vm_compute; reflexivity].
    apply (reach_setup cfg_both setup_fine []). vm_compute. reflexivity. }
  split; [reflexivity|]. split; [exact Hr|]. split; [|split].
  - destruct (Hinv _ Hr) as [H _]. destruct (H eq_refl) as (pf & Hpf & Hfd & Hiff).
    exists pf. split; [exact Hpf|]. split; [exact Hfd|].
    assert (Hne : buf_head (usb_read_buf (state_after cfg_both run_both_ready))
                  <> buf_tail (usb_read_buf (state_after cfg_both run_both_ready)))
      by (vm_compute; discriminate).
    split; [apply Hiff, Hne | exact Hne].
  - exists (mk_pollfd fd_in ev_quiet POLLIN). repeat split; vm_compute; reflexivity.
  - destruct (Hcb 0%nat
                (mk_transfer 1 LIBUSB_TRANSFER_COMPLETED 100 0 (Some 0%nat)
                             (Some usb_write_buf_ref) true true)
                usb_write_buf_ref 100 0%nat (mk_pollfd fd_in ev_quiet POLLIN) []
                (state_after cfg_both [[RPollReady [POLLIN; 0; 0]; RRead 100 0;
                                        RSubmit LIBUSB_SUCCESS]]))
      as (s' & H1 & H2 & H3).
    + vm_compute. reflexivity.
    + reflexivity.
    + vm_compute. split; discriminate.
    + reflexivity.
    + reflexivity.
    + vm_compute. reflexivity.
    + vm_compute. split; [discriminate | reflexivity].
    + vm_compute. reflexivity.
    + vm_compute. reflexivity.
    + vm_compute. reflexivity.
    + exists s'. split; [exact H1|]. split; [exact H2|]. rewrite H3. vm_compute. reflexivity.
Defined.

(** C6 as stated fails: standard input has hung up while 100 bytes were in
    flight; their successful completion makes the outbound ring non-empty
    again, and POLLIN is not asked for. *)
Lemma C6_no_interest_after_shutdown :
  exists s1 s2 pf,
    main cfg_write setup_fine run_drain_start = Cut s1
    /\ occupied (usb_write_buf s1) = 0
    /\ main cfg_write setup_fine run_drain = Returned EXIT_SUCCESS s2
    /\ hd_error (trace s2)
       = Some (ACallback 0 (Some usb_write_buf_ref) LIBUSB_TRANSFER_COMPLETED)
    /\ occupied (usb_write_buf s2) = 1
    /\ fds s2 !! 0%nat = Some pf /\ fd pf = fd_in
    /\ Z.land (events pf) POLLIN = 0.
Proof.
  eexists. eexists. eexists.
  split; [vm_compute; reflexivity|]. split; [reflexivity|].
  split; [vm_compute; reflexivity|]. split; [reflexivity|]. split; [reflexivity|].
  split; [reflexivity|]. split; reflexivity.
Qed.

(** C7: for every transport completion with a terminal status (error,
    cancelled, stall, no device, overflow) the callback sets the error flag
    of the transfer's direction; after it no transfer is submitted on that
    direction and [poll] is not called again: a state between two turns
    that has such a completion on record leaves the loop at once. *)
Theorem C7_terminal_completion (e : env) (Hcfg : well_configured e = true)
    (w0 : list response) (iters : list (list response)) :
  let s := outcome_state (main e w0 iters) in
  (forall x q st, In (ACallback x (Some q) st) (trace s) -> terminal st = true ->
     error (getq q s) = true)
  /\ (forall post pre x q st a,
        trace s = post ++ ACallback x (Some q) st :: pre -> terminal st = true ->
        In a post ->
        (forall n, a <> APoll n) /\ (forall y ep len r, a <> ASubmit y (Some q) ep len r))
  /\ (forall s' x q st, reachable e s' ->
        In (ACallback x (Some q) st) (trace s') -> terminal st = true ->
        forall its, event_loop e its s' = Left_loop s').
Proof.
  intros s. assert (Htr := main_trace e Hcfg w0 iters). fold s in Htr.
  split; [|split].
  - intros x q st Hin Hst. apply (it_error _ _ _ Htr). apply errored_In. eauto.
  - intros post pre x q st a Ht Hst Hin.
    eapply orderly_after_failure; [|exact Hst | exact Hin].
    rewrite <- Ht. apply (it_order _ _ _ Htr).
  - intros s' x q st Hr Hin Hst its.
    assert (Hs := reachable_steady e Hcfg s' Hr).
    assert (He : error (getq q s') = true).
    { apply (it_error _ _ _ (st_trace _ _ _ Hs)). apply errored_In. eauto. }
    assert (Hc : loop_cond s' = false).
    { unfold loop_cond. destruct q; simpl in He; rewrite He; simpl;
        [reflexivity | rewrite andb_false_r; reflexivity]. }
    destruct its; simpl; rewrite Hc; reflexivity.
Qed.

(** The configuration with both directions and a run in which the inbound
    transfer stalls. *)
Lemma C7_terminal_completion_witness :
  well_configured cfg_both = true
  /\ let s := outcome_state (main cfg_both setup_fine run_hangup_stall) in
     (forall x q st, In (ACallback x (Some q) st) (trace s) -> terminal st = true ->
        error (getq q s) = true)
     /\ (forall post pre x q st a,
           trace s = post ++ ACallback x (Some q) st :: pre -> terminal st = true ->
           In a post ->
           (forall n, a <> APoll n) /\ (forall y ep len r, a <> ASubmit y (Some q) ep len r))
     /\ (forall s' x q st, reachable cfg_both s' ->
           In (ACallback x (Some q) st) (trace s') -> terminal st = true ->
           forall its, event_loop cfg_both its s' = Left_loop s').
Proof.
  split; [reflexivity|].
  exact (C7_terminal_completion cfg_both eq_refl setup_fine run_hangup_stall).
Defined.

(** C8: writes that deliver only part of what is left of the buffer at the
    head of the inbound queue advance the cursor by what they delivered;
    each write starts at the cursor and spans what is left; the buffer
    stays at the head and its transfer is not submitted again until the
    bytes written add up to its length, and then it is, and the head
    advances. *)
Theorem C8_partial_write_resumption (e : env) (i : nat) (s : state) (x d p : nat)
    (pf : pollfd_t) (t : libusb_transfer) (ks : list Z) (k r : Z) (w : list response) :
  let q := usb_read_buf s in
  let c := xfer_written q in
  let len := xfer_length q in
  0 <= buf_head q < 2 -> 0 <= buf_tail q < 2 -> buf_head q <> buf_tail q ->
  buf q !! Z.to_nat (buf_head q) = Some (mk_buffer (Some x) (Some d)) ->
  pollfd q = Some p -> fds s !! p = Some pf -> xfers s !! x = Some t ->
  0 <= c -> len < 2 ^ 64 ->
  Forall (fun k => 0 <= k) ks -> (ks = [] \/ c + sum_list ks < len) ->
  0 <= k -> c + sum_list ks + k = len ->
  let rest := RWrite k 0 :: RSubmit r :: w in
  let s_part := updq usb_read_buf_ref (set_xfer_written (c + sum_list ks))
                  (set_trace (write_log d c len ks (trace s)) s) in
  let s_full := updq usb_read_buf_ref (set_xfer_written len)
                  (set_trace (write_log d c len (ks ++ [k]) (trace s)) s) in
  let s_fill := upd_xfer x (filled (read_ep e) (Some d) USB_XFER_SZ usb_read_buf_ref)
                  s_full in
  let s_sub := set_trace (ASubmit x (Some usb_read_buf_ref) (u8 (read_ep e)) USB_XFER_SZ r
                          :: trace s_fill) s_fill in
  repeat_stdout e i (List.length ks) (List.map (fun k => RWrite k 0) ks ++ rest) s
    = Ok tt rest s_part
  /\ buf_head (usb_read_buf s_part) = buf_head q
  /\ buf (usb_read_buf s_part) = buf q
  /\ xfers s_part = xfers s
  /\ on_stdout e i rest s_part
     = if r =? LIBUSB_SUCCESS
       then Ok tt w (upd_events i (fun ev => Z.land ev (Z.lnot POLLOUT))
                       (updq usb_read_buf_ref
                          (set_buf_head (u32 (buf_head q + 1) mod USB_BUFS))
                          (upd_xfer x (held true) s_sub)))
       else Stop (Returned EXIT_FAILURE
                    (set_trace (AStderr "Error submitting USB IN transfer" :: trace s_sub)
                               s_sub)).
Proof.
  intros q c len Hh Ht Hne Hb Hp Hfd Hx Hc HL Hks Hsum Hk Heq rest s_part s_full s_fill s_sub.
  assert (Hpos : 0 <= sum_list ks).
  { clear -Hks. induction Hks; simpl; lia. }
  split; [|split; [reflexivity | split; [reflexivity | split; [reflexivity|]]]].
  - apply (repeat_stdout_partial e i x d p pf rest ks s); auto.
  - unfold rest.
    rewrite (on_stdout_full e i s_part w k 0 r x d p pf t); unfold s_part; proj; auto;
      try lia.
    assert (Hlog : forall t0 off, write_log d off len (ks ++ [k]) t0
              = AWrite d (off + sum_list ks) (len - (off + sum_list ks)) k
                :: write_log d off len ks t0).
    { clear. induction ks as [|a ks IH]; intros t0 off; simpl.
      - rewrite Z.add_0_r. reflexivity.
      - rewrite IH. rewrite Z.add_assoc. reflexivity. }
    unfold s_sub, s_fill, s_full. rewrite Hlog. fold c. fold len.
    replace (c + sum_list ks + k) with len by lia. reflexivity.
Qed.

(** Ten bytes have arrived; they are written in pieces of 4, 3 and 3. *)
Lemma C8_partial_write_resumption_witness :
  let s := state_after cfg_read run_arrival in
  let q := usb_read_buf s in
  let rest := [RWrite 3 0; RSubmit LIBUSB_SUCCESS] in
  let s_part := updq usb_read_buf_ref (set_xfer_written 7)
                  (set_trace (write_log 0 0 10 [4; 3] (trace s)) s) in
  (xfer_written q = 0 /\ xfer_length q = 10)
  /\ repeat_stdout cfg_read 0 2 (RWrite 4 0 :: RWrite 3 0 :: rest) s = Ok tt rest s_part
  /\ buf_head (usb_read_buf s_part) = buf_head q.
Proof.
  cbv zeta. split; [split; vm_compute; reflexivity|].
  assert (H := C8_partial_write_resumption cfg_read 0 (state_after cfg_read run_arrival)
                 0 0 0 (mk_pollfd fd_out ev_stdout_on 0)
                 (mk_transfer 129 LIBUSB_TRANSFER_COMPLETED 512 10 (Some 0%nat)
                              (Some usb_read_buf_ref) true false)
                 [4; 3] 3 LIBUSB_SUCCESS []).
  cbv zeta in H.
  destruct H as (H1 & H2 & _).
  - vm_compute. split; [discriminate | reflexivity].
  - vm_compute. split; [discriminate | reflexivity].
  - vm_compute. discriminate.
  - vm_compute. reflexivity.
  - vm_compute. reflexivity.
  - vm_compute. reflexivity.
  - vm_compute. reflexivity.
  - vm_compute. discriminate.
  - vm_compute. reflexivity.
  - repeat constructor; vm_compute; discriminate.
  - right. vm_compute. reflexivity.
  - vm_compute. discriminate.
  - vm_compute. reflexivity.
  - split; [exact H1 | exact H2].
Defined.

(** C9: with no write endpoint the outbound queue starts and stays at
    head = tail = 0, no entry of the poll set is standard input, the
    shutdown flag is never set, the drained condition never holds, and
    [main] returns through the loop's condition only with an error flag
    set, which is the inbound one. *)
Theorem C9_read_only_never_clean (e : env) (Hcfg : well_configured e = true)
    (Hro : write_ep e < 0) :
  (forall s, reachable e s ->
     buf_head (usb_write_buf s) = 0 /\ buf_tail (usb_write_buf s) = 0
     /\ shutdown (usb_write_buf s) = false
     /\ (forall j p, fds s !! j = Some p -> fd p <> fd_in)
     /\ u32 (buf_tail (usb_write_buf s) + 1) mod USB_BUFS <> buf_head (usb_write_buf s))
  /\ (forall w0 iters s, main e w0 iters = Returned EXIT_SUCCESS s ->
        error (usb_read_buf s) = true /\ error (usb_write_buf s) = false
        /\ shutdown (usb_write_buf s) = false).
Proof.
  assert (Hwe : we e = false) by (unfold we; apply Z.leb_gt; exact Hro).
  assert (Hstate : forall s, steady e None s ->
            buf_head (usb_write_buf s) = 0 /\ buf_tail (usb_write_buf s) = 0
            /\ shutdown (usb_write_buf s) = false /\ error (usb_write_buf s) = false
            /\ (forall j p, fds s !! j = Some p -> fd p <> fd_in)).
  { intros s [[Hl _ Hw _] _ _].
    destruct (iw_off _ _ Hw Hwe) as (H1 & H2 & H3 & H4 & _).
    repeat split; auto. intros j p Hj Hin.
    destruct (layout_stdin e Hcfg _ _ _ Hl Hj Hin) as [H _]. congruence. }
  split.
  - intros s Hr. destruct (Hstate s (reachable_steady e Hcfg s Hr)) as (H1 & H2 & H3 & _ & H5).
    repeat split; auto. rewrite H1, H2. discriminate.
  - intros w0 iters s Hm.
    destruct (main_ok e Hcfg w0 iters) as [(s0 & H0 & _ & Hc & Hs) | [_ H]].
    + rewrite Hm in H0. injection H0 as <-.
      destruct (Hstate s Hs) as (H1 & H2 & H3 & H4 & _).
      unfold loop_cond in Hc. rewrite H3, H4 in Hc. simpl in Hc.
      rewrite andb_true_r in Hc. apply negb_false_iff in Hc. auto.
    + rewrite Hm in H. discriminate H.
Qed.

(** The read-only configuration. *)
Lemma C9_read_only_never_clean_witness :
  well_configured cfg_read = true /\ write_ep cfg_read < 0
  /\ (forall s, reachable cfg_read s ->
        buf_head (usb_write_buf s) = 0 /\ buf_tail (usb_write_buf s) = 0
        /\ shutdown (usb_write_buf s) = false
        /\ (forall j p, fds s !! j = Some p -> fd p <> fd_in)
        /\ u32 (buf_tail (usb_write_buf s) + 1) mod USB_BUFS <> buf_head (usb_write_buf s))
  /\ (forall w0 iters s, main cfg_read w0 iters = Returned EXIT_SUCCESS s ->
        error (usb_read_buf s) = true /\ error (usb_write_buf s) = false
        /\ shutdown (usb_write_buf s) = false).
Proof.
  split; [reflexivity|]. split; [reflexivity|].
  exact (C9_read_only_never_clean cfg_read eq_refl eq_refl).
Defined.

(** C10: set-up returns when its calls succeed, and it then leaves each
    enabled direction with USB_BUFS - 1 = 1 transfer handle and data
    buffer, and a disabled direction with none: the write side's handle and
    buffer are in the slot at the head of its ring, with nothing in flight,
    and the read side's buffer is in its handle, which the transport holds
    for USB_XFER_SZ bytes, with nothing queued; as many handles and as many
    buffers are allocated as there are enabled directions, and no handle is
    allocated later; and in every state between two turns of the loop each
    direction has at most USB_BUFS - 1 = 1 transfer in flight or queued. *)
Theorem C10_one_transfer_per_direction (e : env) (Hcfg : well_configured e = true) :
  (exists w s, setup e setup_fine (blank e) = Ok tt w s)
  /\ (forall w w' s, setup e w (blank e) = Ok tt w' s ->
        (in_flight usb_write_buf_ref s + occupied (usb_write_buf s)
         = Z.of_nat (count (we e)) * (USB_BUFS - 1)
         /\ in_flight usb_write_buf_ref s = 0)
        /\ (in_flight usb_read_buf_ref s + occupied (usb_read_buf s)
            = Z.of_nat (count (re e)) * (USB_BUFS - 1)
            /\ occupied (usb_read_buf s) = 0)
        /\ (we e = true ->
            buf (usb_write_buf s) !! Z.to_nat (buf_head (usb_write_buf s))
            = Some (mk_buffer (Some 0%nat) (Some 0%nat)))
        /\ (re e = true ->
            exists t, xfers s !! ixR e = Some t /\ user_data t = Some usb_read_buf_ref
                      /\ buffer t = Some (ixR e) /\ xlength t = USB_XFER_SZ
                      /\ submitted t = true)
        /\ Z.of_nat (List.length (xfers s))
           = Z.of_nat (count (we e) + count (re e)) * (USB_BUFS - 1)
        /\ Z.of_nat (mallocs s) = Z.of_nat (count (we e) + count (re e)) * (USB_BUFS - 1))
  /\ (forall s, reachable e s ->
        Z.of_nat (List.length (xfers s))
        = Z.of_nat (count (we e) + count (re e)) * (USB_BUFS - 1)
        /\ forall q,
             0 <= in_flight q s /\ 0 <= occupied (getq q s)
             /\ in_flight q s + occupied (getq q s) <= USB_BUFS - 1).
Proof.
  split; [apply setup_returns|]. split.
  - intros w w' s Hs. assert (H := setup_ok e w (blank e) eq_refl).
    assert (Hc := setup_counts e w). unfold wp in H, Hc.
    rewrite Hs in H, Hc. destruct H as [H Hm]. destruct Hc as (H1 & H2 & H3 & H4 & H5 & H6).
    rewrite (inv_store _ _ (st_inv _ _ _ H)), Hm.
    change (USB_BUFS - 1) with 1 in *.
    split; [split; lia|]. split; [split; lia|]. split; [|split; [|split; lia]].
    + intros Hwe. rewrite Hwe in H5. exact H5.
    + intros Hre. rewrite Hre in H6. eexists. split; [exact H6|]. repeat split.
  - intros s Hr. assert (Hi := st_inv _ _ _ (reachable_steady e Hcfg s Hr)). split.
    { rewrite (inv_store _ _ Hi). change (USB_BUFS - 1) with 1. lia. }
    intros q. destruct (one_transfer e s q Hi) as [H1 H2]. repeat split; auto.
    destruct q; [destruct (in_flight_write e s Hi) as (? & _)
                | destruct (in_flight_read e s Hi) as (? & _)]; lia.
Qed.

(** Both directions: set-up returns with two handles and two buffers, one
    spare in the outbound ring and one inbound with the transport. *)
Lemma C10_one_transfer_per_direction_witness :
  well_configured cfg_both = true
  /\ exists s, setup cfg_both setup_fine (blank cfg_both) = Ok tt [] s
               /\ List.length (xfers s) = 2%nat /\ mallocs s = 2%nat
               /\ occupied (usb_write_buf s) = 1 /\ in_flight usb_read_buf_ref s = 1
               /\ reachable cfg_both s
               /\ forall q, in_flight q s + occupied (getq q s) <= USB_BUFS - 1.
Proof.
  split; [reflexivity|].
  destruct (C10_one_transfer_per_direction cfg_both eq_refl) as (_ & _ & H).
  assert (Hs : setup cfg_both setup_fine (blank cfg_both)
               = Ok tt [] (state_after cfg_both [])) by (vm_compute; reflexivity).
  assert (Hr : reachable cfg_both (state_after cfg_both [])).
  { eapply reach_setup. exact Hs. }
  exists (state_after cfg_both []). split; [exact Hs|].
  split; [vm_compute; reflexivity|]. split; [vm_compute; reflexivity|].
  split; [vm_compute; reflexivity|]. split; [vm_compute; reflexivity|].
  split; [exact Hr|]. intros q. apply (H _ Hr).
Defined.

(** ** [open_device] *)

Section Open_device.

Variables vid pid : Z.

(** The loop over a list whose length is the count: it is never lost, and
    [h] ends as the first usable device before the last one. *)
Lemma open_scan_first (cnt : Z) : forall (rest : list usb_device) (i : nat),
  Z.of_nat i + Z.of_nat (List.length rest) = cnt -> rest <> [] ->
  match snd (open_scan vid pid cnt i rest) with
  | None => False
  | Some None =>
      forall j d, (S j < List.length rest)%nat -> rest !! j = Some d ->
                  usable vid pid d = false
  | Some (Some k) =>
      exists j d, k = (i + j)%nat /\ (S j < List.length rest)%nat
        /\ rest !! j = Some d /\ usable vid pid d = true
        /\ forall j' d', (j' < j)%nat -> rest !! j' = Some d' -> usable vid pid d' = false
  end.
Proof.
  induction rest as [|d rest IH]; intros i Hlen Hne; [congruence|].
  cbn [open_scan]. cbn [List.length] in Hlen.
  destruct (Z.eqb_spec (Z.of_nat i) (cnt - 1)) as [Hi|Hi].
  - cbn [snd]. intros j d' Hj. assert (rest = []) as -> by (destruct rest; [reflexivity | simpl in Hlen; lia]).
    simpl in Hj. lia.
  - assert (Hne' : rest <> []) by (intros ->; simpl in Hlen; lia).
    assert (IH' := IH (S i) ltac:(lia) Hne').
    assert (Hskip : usable vid pid d = false ->
              match snd (open_scan vid pid cnt (S i) rest) with
              | None => False
              | Some None =>
                  forall j d0, (S j < List.length (d :: rest))%nat ->
                               (d :: rest) !! j = Some d0 -> usable vid pid d0 = false
              | Some (Some k) =>
                  exists j d0, k = (i + j)%nat /\ (S j < List.length (d :: rest))%nat
                    /\ (d :: rest) !! j = Some d0 /\ usable vid pid d0 = true
                    /\ forall j' d', (j' < j)%nat -> (d :: rest) !! j' = Some d' ->
                                     usable vid pid d' = false
              end).
    { intros Hd. destruct (snd (open_scan vid pid cnt (S i) rest)) as [[k|]|]; [| |exact IH'].
      - destruct IH' as (j & d0 & -> & Hj & Hl & Hu & Hmin).
        exists (S j), d0. split; [lia|]. split; [simpl; lia|]. split; [exact Hl|].
        split; [exact Hu|].
        intros [|j'] d' Hj' Hl'; simpl in Hl'; [congruence|]. eapply Hmin; [|exact Hl']. lia.
      - intros [|j] d0 Hj Hl; simpl in Hl; [congruence|].
        eapply IH'; [|exact Hl]. simpl in Hj. lia. }
    destruct (descriptor_ret d =? 0) eqn:Hd; cbn [negb snd];
      [|apply Hskip; unfold usable; rewrite Hd; reflexivity].
    destruct ((idVendor d =? vid) && (idProduct d =? pid)) eqn:Hid; cbn [snd];
      [|apply Hskip; unfold usable; rewrite Hd; cbn [andb]; rewrite Hid; reflexivity].
    destruct (open_ret d =? 0) eqn:Ho; cbn [snd];
      [|apply Hskip; unfold usable; rewrite Hd; cbn [andb]; rewrite Hid, Ho; reflexivity].
    exists 0%nat, d. split; [lia|]. split.
    { destruct rest; [congruence | simpl; lia]. }
    split; [reflexivity|]. split.
    { unfold usable. rewrite Hd. cbn [andb]. rewrite Hid, Ho. reflexivity. }
    intros j' d' Hj'. lia.
Qed.

(** The calls of the loop concern the devices before the last one. *)
Lemma open_scan_calls (cnt : Z) : forall (rest : list usb_device) (i : nat) (c : call),
  Z.of_nat i + Z.of_nat (List.length rest) = cnt -> rest <> [] ->
  In c (fst (open_scan vid pid cnt i rest)) ->
  match c with
  | c_get_device_descriptor k _ | c_open k _ => (i <= k)%nat /\ Z.of_nat k < cnt - 1
  | c_stderr _ => True
  | _ => False
  end.
Proof.
  induction rest as [|d rest IH]; intros i c Hlen Hne; [congruence|].
  cbn [open_scan]. cbn [List.length] in Hlen.
  destruct (Z.eqb_spec (Z.of_nat i) (cnt - 1)) as [Hi|Hi]; [intros []|].
  assert (Hne' : rest <> []) by (intros ->; simpl in Hlen; lia).
  assert (IH' : In c (fst (open_scan vid pid cnt (S i) rest)) ->
                match c with
                | c_get_device_descriptor k _ | c_open k _ => (i <= k)%nat /\ Z.of_nat k < cnt - 1
                | c_stderr _ => True
                | _ => False
                end).
  { intros H. apply IH in H; [|lia|exact Hne']. destruct c; auto; lia. }
  assert (Hhere : (i <= i)%nat /\ Z.of_nat i < cnt - 1) by lia.
  destruct (descriptor_ret d =? 0); cbn [negb fst].
  - destruct ((idVendor d =? vid) && (idProduct d =? pid)); [destruct (open_ret d =? 0)|];
      cbn [fst]; intros H; cbn [In] in H;
      repeat (destruct H as [<-|H]; [first [exact Hhere | exact I]|]);
      first [exact (IH' H) | destruct H].
  - intros [<-|H]; [exact Hhere | exact (IH' H)].
Qed.

(** The last device of the list has no say. *)
Lemma open_scan_last (cnt : Z) (d d' : usb_device) : forall (l : list usb_device) (i : nat),
  Z.of_nat i + Z.of_nat (List.length l) + 1 = cnt ->
  open_scan vid pid cnt i (l ++ [d]) = open_scan vid pid cnt i (l ++ [d']).
Proof.
  induction l as [|a l IH]; intros i Hlen; cbn [app open_scan]; cbn [List.length] in Hlen.
  - replace (Z.of_nat i =? cnt - 1) with true by (symmetry; apply Z.eqb_eq; lia). reflexivity.
  - rewrite (IH (S i)) by lia. reflexivity.
Qed.

End Open_device.

(** X1: on a device list whose length is the count, [open_device] is not
    lost, and what it returns is the first device, among all but the last
    of the list, whose descriptor can be read, whose identifiers are the
    ones asked for and which can be opened; it returns NULL exactly when
    there is no such device. *)
Theorem open_device_first_usable (W : usb_world) (vid pid : Z)
    (Hcnt : device_cnt W = Z.of_nat (List.length (device_list W))) :
  match snd (open_device W vid pid) with
  | None => False
  | Some None =>
      forall j d, Z.of_nat j < device_cnt W - 1 -> device_list W !! j = Some d ->
                  usable vid pid d = false
  | Some (Some k) =>
      Z.of_nat k < device_cnt W - 1
      /\ (exists d, device_list W !! k = Some d /\ usable vid pid d = true)
      /\ forall j d, (j < k)%nat -> device_list W !! j = Some d -> usable vid pid d = false
  end.
Proof.
  unfold open_device. destruct (Z.eqb_spec (device_cnt W) 0) as [H0|H0]; cbn [snd].
  - intros j d Hj. lia.
  - assert (Hne : device_list W <> []) by (intros H; rewrite H in Hcnt; simpl in Hcnt; lia).
    assert (H := open_scan_first vid pid (device_cnt W) (device_list W) 0 ltac:(lia) Hne).
    destruct (snd (open_scan vid pid (device_cnt W) 0 (device_list W))) as [[k|]|];
      cbn [snd]; [| |exact H].
    + destruct H as (j & d & -> & Hj & Hl & Hu & Hmin). simpl. split; [lia|].
      split; [exists d; auto | exact Hmin].
    + intros j d Hj. apply H. lia.
Qed.

(** A list of three devices of which the second is the one asked for. *)
Lemma open_device_first_usable_witness :
  let W := mk_world 0 3 [mk_device 0 1 1 0; mk_device 0 1155 22336 0; mk_device 0 2 2 0]
                    0 0 [(5, POLLIN)] 0 in
  device_cnt W = Z.of_nat (List.length (device_list W))
  /\ snd (open_device W 1155 22336) = Some (Some 1%nat)
  /\ match snd (open_device W 1155 22336) with
     | None => False
     | Some None =>
         forall j d, Z.of_nat j < device_cnt W - 1 -> device_list W !! j = Some d ->
                     usable 1155 22336 d = false
     | Some (Some k) =>
         Z.of_nat k < device_cnt W - 1
         /\ (exists d, device_list W !! k = Some d /\ usable 1155 22336 d = true)
         /\ forall j d, (j < k)%nat -> device_list W !! j = Some d ->
                        usable 1155 22336 d = false
     end.
Proof.
  cbv zeta. split; [reflexivity|]. split; [reflexivity|].
  exact (open_device_first_usable
           (mk_world 0 3 [mk_device 0 1 1 0; mk_device 0 1155 22336 0; mk_device 0 2 2 0]
                     0 0 [(5, POLLIN)] 0) 1155 22336 eq_refl).
Defined.

(** X2: [open_device] never looks at the last device of the list: no call
    is made for it, what it returns and the calls it makes are the same
    whatever that device is, and with one device attached it returns NULL
    without a message. *)
Theorem open_device_skips_last (W : usb_world) (vid pid : Z)
    (Hcnt : device_cnt W = Z.of_nat (List.length (device_list W))) :
  (forall k r, In (c_get_device_descriptor k r) (fst (open_device W vid pid))
               \/ In (c_open k r) (fst (open_device W vid pid)) ->
               Z.of_nat k < device_cnt W - 1)
  /\ (forall l d d', device_list W = l ++ [d] ->
        open_device (mk_world (init_ret W) (device_cnt W) (l ++ [d']) (detach_ret W)
                              (claim_ret W) (pollfds W) (stack_junk W)) vid pid
        = open_device W vid pid)
  /\ (forall d, device_list W = [d] ->
        open_device W vid pid = ([c_get_device_list 1; c_free_device_list], Some None)).
Proof.
  split; [|split].
  - intros k r Hin. unfold open_device in Hin.
    destruct (Z.eqb_spec (device_cnt W) 0) as [H0|H0].
    { cbn [fst] in Hin. simpl in Hin. destruct Hin as [[H|[H|[]]]|[H|[H|[]]]]; discriminate H. }
    assert (Hne : device_list W <> []) by (intros H; rewrite H in Hcnt; simpl in Hcnt; lia).
    assert (Hc := fun c => open_scan_calls vid pid (device_cnt W) (device_list W) 0 c
                             ltac:(lia) Hne).
    assert (Hin' : In (c_get_device_descriptor k r)
                      (fst (open_scan vid pid (device_cnt W) 0 (device_list W)))
                   \/ In (c_open k r)
                         (fst (open_scan vid pid (device_cnt W) 0 (device_list W)))).
    { destruct (snd (open_scan vid pid (device_cnt W) 0 (device_list W))); cbn [fst] in Hin.
      - destruct Hin as [[H|H]|[H|H]]; try discriminate H;
          apply in_app_or in H as [H|[H|[]]]; auto; discriminate H.
      - destruct Hin as [[H|H]|[H|H]]; try discriminate H; auto. }
    destruct Hin' as [H|H]; apply Hc in H; apply H.
  - intros l d d' Hl. unfold open_device. cbn [device_cnt device_list].
    rewrite Hl. rewrite Hl, length_app in Hcnt. simpl in Hcnt.
    rewrite (open_scan_last vid pid (device_cnt W) d' d l 0) by lia. reflexivity.
  - intros d Hl. unfold open_device. rewrite Hl in *. simpl in Hcnt. rewrite Hcnt. reflexivity.
Qed.

(** One device, and it is the one asked for. *)
Lemma open_device_skips_last_witness :
  let W := mk_world 0 1 [mk_device 0 1155 22336 0] 0 0 [(5, POLLIN)] 0 in
  device_cnt W = Z.of_nat (List.length (device_list W))
  /\ open_device W 1155 22336 = ([c_get_device_list 1; c_free_device_list], Some None).
Proof.
  cbv zeta. split; [reflexivity|].
  destruct (open_device_skips_last
              (mk_world 0 1 [mk_device 0 1155 22336 0] 0 0 [(5, POLLIN)] 0) 1155 22336 eq_refl)
    as (_ & _ & H).
  exact (H _ eq_refl).
Defined.

(** X3: a count of 0 is reported as an error and the list is not freed; a
    negative count, which is how [libusb_get_device_list] reports an error,
    is not told from a list: [open_device] goes on to [devices[0]], which
    was never set. *)
Theorem open_device_empty_or_failed (W : usb_world) (vid pid : Z) :
  (device_cnt W = 0 ->
     open_device W vid pid
     = ([c_get_device_list 0; c_stderr "Error getting USB device list"], Some None))
  /\ (device_cnt W < 0 -> device_list W = [] ->
        open_device W vid pid = ([c_get_device_list (device_cnt W)], None)).
Proof.
  split.
  - intros H. unfold open_device. rewrite H. reflexivity.
  - intros H Hl. unfold open_device. rewrite Hl.
    destruct (Z.eqb_spec (device_cnt W) 0) as [H0|H0]; [lia|].
    cbn [open_scan]. destruct (Z.eqb_spec (Z.of_nat 0) (device_cnt W - 1)) as [H1|H1]; [lia|].
    reflexivity.
Qed.

(** ** The command line *)

Lemma getopt_fold (opts : list cli_option) : forall (l : options),
  o_help (List.fold_left set_option opts l) = o_help l || existsb is_help opts
  /\ o_ret (List.fold_left set_option opts l)
     = if existsb is_unknown opts then EXIT_FAILURE else o_ret l.
Proof.
  induction opts as [|o opts IH]; intros l; cbn [List.fold_left existsb].
  - rewrite orb_false_r. auto.
  - destruct (IH (set_option l o)) as [-> ->].
    destruct o; cbn [set_option o_help o_ret is_help is_unknown orb];
      rewrite ?orb_true_r; auto.
    destruct (existsb is_unknown opts); auto.
Qed.

Lemma getopt_help (opts : list cli_option) :
  o_help (getopt_loop opts) = existsb is_help opts.
Proof. unfold getopt_loop. rewrite (proj1 (getopt_fold opts defaults)). reflexivity. Qed.

Lemma getopt_ret (opts : list cli_option) :
  o_ret (getopt_loop opts) = if existsb is_unknown opts then EXIT_FAILURE else EXIT_SUCCESS.
Proof. unfold getopt_loop. rewrite (proj2 (getopt_fold opts defaults)). reflexivity. Qed.

(** [getopt_long] prints a line for each unknown option, and nothing else. *)
Lemma getopt_said_nil (opts : list cli_option) :
  existsb is_unknown opts = false -> getopt_said opts = [].
Proof.
  unfold getopt_said. induction opts as [|o opts IH]; cbn [existsb List.flat_map];
    [reflexivity|].
  intros H. apply orb_false_iff in H as [Ho H]. rewrite (IH H).
  destruct o; try reflexivity. discriminate Ho.
Qed.

Lemma getopt_said_stderr (opts : list cli_option) :
  existsb is_cleanup (getopt_said opts) = false /\ existsb is_init (getopt_said opts) = false.
Proof.
  unfold getopt_said. induction opts as [|o opts [IH1 IH2]]; cbn [List.flat_map];
    [split; reflexivity|].
  rewrite !existsb_app, IH1, IH2. destruct o; split; reflexivity.
Qed.

Lemma command_line_ok_known (opts : list cli_option) :
  command_line_ok opts = true -> existsb is_unknown opts = false.
Proof.
  unfold command_line_ok. intros H.
  destruct (existsb is_unknown opts); [discriminate H | reflexivity].
Qed.

(** Nothing is given back on the way to the loop. *)
Lemma open_scan_no_cleanup (vid pid cnt : Z) : forall (rest : list usb_device) (i : nat),
  existsb is_cleanup (fst (open_scan vid pid cnt i rest)) = false
  /\ existsb is_init (fst (open_scan vid pid cnt i rest)) = false.
Proof.
  induction rest as [|d rest IH]; intros i; cbn [open_scan];
    destruct (Z.of_nat i =? cnt - 1); try (split; reflexivity).
  destruct (IH (S i)) as [IH1 IH2].
  destruct (descriptor_ret d =? 0); cbn [negb fst];
    [destruct ((idVendor d =? vid) && (idProduct d =? pid)); [destruct (open_ret d =? 0)|]|];
    cbn [fst existsb is_cleanup is_init orb]; auto.
Qed.

Lemma open_device_no_cleanup (W : usb_world) (vid pid : Z) :
  existsb is_cleanup (fst (open_device W vid pid)) = false
  /\ existsb is_init (fst (open_device W vid pid)) = false.
Proof.
  unfold open_device. destruct (device_cnt W =? 0); [split; reflexivity|].
  destruct (open_scan_no_cleanup vid pid (device_cnt W) (device_list W) 0) as [H1 H2].
  destruct (snd (open_scan vid pid (device_cnt W) 0 (device_list W)));
    cbn [fst existsb is_cleanup is_init orb]; rewrite ?existsb_app, ?H1, ?H2; auto.
Qed.

(** X4: with [-h] or [--help] among the options, whatever else the
    command line holds, all that is printed is the line of [getopt_long]
    for each unknown option and then the usage text; nothing is
    initialised; the status is [EXIT_FAILURE] when an unknown option was met
    and [EXIT_SUCCESS] otherwise. *)
Theorem usbcat_help (opts : list cli_option) (W : usb_world) (w0 : list response)
    (iters : list (list response)) (Hh : In opt_h opts) :
  usbcat opts W w0 iters
  = (getopt_said opts
     ++ [c_stderr "Usage: usbcat [-d] -v vid -p pid [-i interface] [-r read-endpoint] [-w write-endoint]";
         c_stdout "Read or write raw data to USB endpoints."],
     Before (if existsb is_unknown opts then EXIT_FAILURE else EXIT_SUCCESS)).
Proof.
  assert (Hhelp : o_help (getopt_loop opts) = true).
  { rewrite getopt_help. apply existsb_exists. exists opt_h. auto. }
  unfold usbcat, before_loop. rewrite Hhelp, getopt_ret. reflexivity.
Qed.

(** An unknown option, then [-h]. *)
Lemma usbcat_help_witness :
  In opt_h [opt_unknown "usbcat: invalid option -- 'x'"; opt_h]
  /\ usbcat [opt_unknown "usbcat: invalid option -- 'x'"; opt_h]
            (mk_world 0 0 [] 0 0 [] 0) [] []
     = ([c_stderr "usbcat: invalid option -- 'x'";
         c_stderr "Usage: usbcat [-d] -v vid -p pid [-i interface] [-r read-endpoint] [-w write-endoint]";
         c_stdout "Read or write raw data to USB endpoints."],
        Before EXIT_FAILURE).
Proof.
  split; [simpl; auto|].
  exact (usbcat_help [opt_unknown "usbcat: invalid option -- 'x'"; opt_h]
                     (mk_world 0 0 [] 0 0 [] 0) [] []
                     (or_intror (or_introl eq_refl))).
Defined.

(** The status after the checks of the command line. *)
Lemma validation_ret (opts : list cli_option) :
  let l := getopt_loop opts in
  let ret_ := if (o_vid l =? 0) || (o_pid l =? 0) || (o_read_ep l <? 0) && (o_write_ep l <? 0)
              then EXIT_FAILURE else o_ret l in
  (ret_ =? EXIT_SUCCESS) = command_line_ok opts
  /\ (command_line_ok opts = false -> ret_ = EXIT_FAILURE).
Proof.
  cbv zeta. unfold command_line_ok. rewrite getopt_ret.
  set (l := getopt_loop opts).
  replace (0 <=? o_read_ep l) with (negb (o_read_ep l <? 0)) by (symmetry; apply Z.leb_antisym).
  replace (0 <=? o_write_ep l) with (negb (o_write_ep l <? 0)) by (symmetry; apply Z.leb_antisym).
  destruct (existsb is_unknown opts), (o_vid l =? 0), (o_pid l =? 0),
    (o_read_ep l <? 0), (o_write_ep l <? 0); split; first [reflexivity | discriminate].
Qed.

(** X5: without [-h], [libusb_init] is called exactly when the command
    line is in order (no unknown option, vendor and product identifiers that
    are not 0 modulo 2^32, and an endpoint that is not negative as an
    [int]), and it is then the first call, with nothing printed before it;
    otherwise all that is printed is the line of [getopt_long] for each
    unknown option, the complaints of [main] and the usage line, and the
    status is [EXIT_FAILURE]. *)
Theorem usbcat_validation (opts : list cli_option) (W : usb_world) (w0 : list response)
    (iters : list (list response)) (Hh : existsb is_help opts = false) :
  let l := getopt_loop opts in
  if command_line_ok opts
  then exists cs, fst (usbcat opts W w0 iters) = c_init (init_ret W) :: cs
  else usbcat opts W w0 iters
       = (getopt_said opts
          ++ (if (o_vid l =? 0) || (o_pid l =? 0)
              then [c_stderr "Vendor ID and product ID must be specified."] else [])
          ++ (if (o_read_ep l <? 0) && (o_write_ep l <? 0)
              then [c_stderr "At least one endpoint number must be specified."] else [])
          ++ usage false,
          Before EXIT_FAILURE)
       /\ existsb is_init (fst (usbcat opts W w0 iters)) = false.
Proof.
  cbv zeta. destruct (validation_ret opts) as [Hret Hfail]. cbv zeta in Hret, Hfail.
  unfold usbcat, before_loop. rewrite getopt_help, Hh. cbv zeta. rewrite Hret.
  set (l := getopt_loop opts) in *.
  destruct (command_line_ok opts) eqn:Hok; cbn [negb].
  - assert (Hsaid : getopt_said opts
                    ++ (if (o_vid l =? 0) || (o_pid l =? 0)
                        then [c_stderr "Vendor ID and product ID must be specified."] else [])
                    ++ (if (o_read_ep l <? 0) && (o_write_ep l <? 0)
                        then [c_stderr "At least one endpoint number must be specified."]
                        else []) = []).
    { rewrite (getopt_said_nil opts (command_line_ok_known opts Hok)).
      destruct ((o_vid l =? 0) || (o_pid l =? 0)); [discriminate Hret|].
      destruct ((o_read_ep l <? 0) && (o_write_ep l <? 0)); [discriminate Hret|].
      reflexivity. }
    rewrite Hsaid. cbn [app].
    destruct (init_ret W =? LIBUSB_SUCCESS); cbn [negb fst]; [|eexists; reflexivity].
    destruct (snd (open_device W (o_vid l) (o_pid l))) as [[dev|]|]; cbn [fst app];
      try (eexists; reflexivity).
    destruct (claim_ret W =? LIBUSB_SUCCESS); cbn [negb fst app]; [|eexists; reflexivity].
    destruct (setup _ _ _) as [[] w1 s1|o]; cbn [fst]; [|eexists; reflexivity].
    destruct (event_loop _ _ _); cbn [fst app]; eexists; reflexivity.
  - rewrite (Hfail eq_refl). split; [rewrite <- !app_assoc; reflexivity|]. cbn [fst].
    rewrite !existsb_app, (proj2 (getopt_said_stderr opts)).
    destruct ((o_vid l =? 0) || (o_pid l =? 0)), ((o_read_ep l <? 0) && (o_write_ep l <? 0));
      reflexivity.
Qed.

(** [-p] without its argument and an endpoint with bit 31 set. *)
Lemma usbcat_validation_witness :
  let opts := [opt_v 1155; opt_r 4294967169;
               opt_unknown "usbcat: option requires an argument -- 'p'"] in
  existsb is_help opts = false
  /\ usbcat opts (mk_world 0 0 [] 0 0 [] 0) [] []
     = ([c_stderr "usbcat: option requires an argument -- 'p'";
         c_stderr "Vendor ID and product ID must be specified.";
         c_stderr "At least one endpoint number must be specified.";
         c_stderr "Usage: usbcat [-d] -v vid -p pid [-i interface] [-r read-endpoint] [-w write-endoint]"],
        Before EXIT_FAILURE).
Proof.
  cbv zeta. split; [reflexivity|].
  exact (proj1 (usbcat_validation
                  [opt_v 1155; opt_r 4294967169;
                   opt_unknown "usbcat: option requires an argument -- 'p'"]
                  (mk_world 0 0 [] 0 0 [] 0) [] [] eq_refl)).
Defined.

(** How the way to the loop can end. *)
Lemma before_loop_cases (opts : list cli_option) (W : usb_world)
    (Hh : existsb is_help opts = false) :
  match snd (before_loop opts W) with
  | Exits c =>
      c = EXIT_FAILURE
      /\ exists cs msg, fst (before_loop opts W) = cs ++ [c_stderr msg]
  | Lost => snd (open_device W (o_vid (getopt_loop opts)) (o_pid (getopt_loop opts))) = None
  | Starts l dev =>
      l = getopt_loop opts /\ command_line_ok opts = true
      /\ init_ret W = LIBUSB_SUCCESS /\ claim_ret W = LIBUSB_SUCCESS
      /\ snd (open_device W (o_vid l) (o_pid l)) = Some (Some dev)
      /\ exists cs, fst (before_loop opts W) = cs ++ [c_get_pollfds]
  end.
Proof.
  destruct (validation_ret opts) as [Hret Hfail]. cbv zeta in Hret, Hfail.
  unfold before_loop. rewrite getopt_help, Hh. cbv zeta. rewrite Hret.
  set (l := getopt_loop opts) in *.
  set (said := getopt_said opts
               ++ (if (o_vid l =? 0) || (o_pid l =? 0)
                   then [c_stderr "Vendor ID and product ID must be specified."] else [])
               ++ (if (o_read_ep l <? 0) && (o_write_ep l <? 0)
                   then [c_stderr "At least one endpoint number must be specified."]
                   else [])).
  destruct (command_line_ok opts) eqn:Hok; cbn [negb].
  2:{ cbn [fst snd]. split; [exact (Hfail eq_refl)|].
      exists said. eexists. reflexivity. }
  destruct (Z.eqb_spec (init_ret W) LIBUSB_SUCCESS) as [Hi|Hi]; cbn [negb fst snd].
  2:{ split; [reflexivity|]. exists (said ++ [c_init (init_ret W)]). eexists.
      rewrite <- app_assoc. reflexivity. }
  destruct (snd (open_device W (o_vid l) (o_pid l))) as [[dev|]|] eqn:Ho; cbn [fst snd].
  - destruct (Z.eqb_spec (claim_ret W) LIBUSB_SUCCESS) as [Hc|Hc]; cbn [negb fst snd].
    + repeat split; auto. eexists. reflexivity.
    + split; [reflexivity|]. eexists. eexists. reflexivity.
  - split; [reflexivity|]. eexists. eexists. reflexivity.
  - reflexivity.
Qed.

(** X6: without [-h], a return before the loop has status [EXIT_FAILURE]
    and a message on standard error as its last action; the loop is
    reached only with a command line in order, [libusb_init] and
    [libusb_claim_interface] successful and a device opened; and what
    [libusb_detach_kernel_driver] returns has no bearing on how the way to
    the loop ends. *)
Theorem before_loop_ends (opts : list cli_option) (W : usb_world)
    (Hh : existsb is_help opts = false) :
  match snd (before_loop opts W) with
  | Exits c =>
      c = EXIT_FAILURE
      /\ exists cs msg, fst (before_loop opts W) = cs ++ [c_stderr msg]
  | Lost => snd (open_device W (o_vid (getopt_loop opts)) (o_pid (getopt_loop opts))) = None
  | Starts l dev =>
      l = getopt_loop opts /\ command_line_ok opts = true
      /\ init_ret W = LIBUSB_SUCCESS /\ claim_ret W = LIBUSB_SUCCESS
      /\ snd (open_device W (o_vid l) (o_pid l)) = Some (Some dev)
      /\ exists cs, fst (before_loop opts W) = cs ++ [c_get_pollfds]
  end
  /\ forall r, snd (before_loop opts (mk_world (init_ret W) (device_cnt W) (device_list W) r
                                              (claim_ret W) (pollfds W) (stack_junk W)))
               = snd (before_loop opts W).
Proof.
  split; [exact (before_loop_cases opts W Hh)|].
  unfold before_loop. rewrite getopt_help, Hh. cbv zeta.
  destruct (validation_ret opts) as [Hret _]. cbv zeta in Hret. rewrite Hret.
  set (l := getopt_loop opts) in *.
  intros r. cbn [init_ret claim_ret detach_ret device_cnt device_list].
  change (open_device (mk_world (init_ret W) (device_cnt W) (device_list W) r
                                (claim_ret W) (pollfds W) (stack_junk W)) (o_vid l) (o_pid l))
    with (open_device W (o_vid l) (o_pid l)).
  destruct (negb (command_line_ok opts)); [reflexivity|].
  destruct (negb (init_ret W =? LIBUSB_SUCCESS)); [reflexivity|].
  destruct (snd (open_device W (o_vid l) (o_pid l))) as [[dev|]|]; try reflexivity.
  destruct (negb (claim_ret W =? LIBUSB_SUCCESS)); reflexivity.
Qed.

(** The kernel driver cannot be detached, and the loop is reached. *)
Lemma before_loop_ends_witness :
  let opts := [opt_v 1155; opt_p 22336; opt_d; opt_r 129] in
  let W := mk_world 0 2 [mk_device 0 1155 22336 0; mk_device 0 2 2 0] (-5) 0 [(5, POLLIN)] 0 in
  existsb is_help opts = false
  /\ snd (before_loop opts W) = Starts (getopt_loop opts) 0
  /\ In (c_stderr "Error detaching the kernel driver from the interface")
        (fst (before_loop opts W))
  /\ forall r, snd (before_loop opts (mk_world (init_ret W) (device_cnt W) (device_list W) r
                                               (claim_ret W) (pollfds W) (stack_junk W)))
               = snd (before_loop opts W).
Proof.
  cbv zeta. split; [reflexivity|]. split; [reflexivity|]. split; [vm_compute; auto 10|].
  exact (proj2 (before_loop_ends [opt_v 1155; opt_p 22336; opt_d; opt_r 129]
                  (mk_world 0 2 [mk_device 0 1155 22336 0; mk_device 0 2 2 0] (-5) 0
                            [(5, POLLIN)] 0) eq_refl)).
Defined.

Lemma before_loop_no_cleanup (opts : list cli_option) (W : usb_world) :
  existsb is_cleanup (fst (before_loop opts W)) = false.
Proof.
  unfold before_loop. set (l := getopt_loop opts).
  destruct (open_device_no_cleanup W (o_vid l) (o_pid l)) as [Hopen _].
  destruct (getopt_said_stderr opts) as [Hsaid _].
  destruct (o_help l); [cbn [fst]; rewrite existsb_app, Hsaid; reflexivity|].
  destruct ((o_vid l =? 0) || (o_pid l =? 0)), ((o_read_ep l <? 0) && (o_write_ep l <? 0));
    cbn [orb app].
  all: match goal with |- context [negb (?x =? EXIT_SUCCESS)] =>
         destruct (negb (x =? EXIT_SUCCESS)) end;
    [cbn [fst]; rewrite !existsb_app, Hsaid; reflexivity|].
  all: destruct (negb (init_ret W =? LIBUSB_SUCCESS));
    [cbn [fst]; rewrite !existsb_app, Hsaid; reflexivity|].
  all: destruct (snd (open_device W (o_vid l) (o_pid l))) as [[dev|]|];
    [destruct (negb (claim_ret W =? LIBUSB_SUCCESS)),
       (o_detach l), (negb (detach_ret W =? LIBUSB_SUCCESS))| |].
  all: cbn [fst]; rewrite ?existsb_app; cbn [existsb is_cleanup orb];
    rewrite ?existsb_app, ?Hopen, ?Hsaid; reflexivity.
Qed.

(** The loop is left only with its condition false. *)
Lemma event_loop_left (e : env) (iters : list (list response)) : forall s s',
  event_loop e iters s = Left_loop s' -> loop_cond s' = false.
Proof.
  induction iters as [|w iters IH]; intros s s'; simpl.
  - destruct (loop_cond s) eqn:Hc; [discriminate|]. intros H. injection H as <-. exact Hc.
  - destruct (loop_cond s) eqn:Hc; [|intros H; injection H as <-; exact Hc].
    destruct (iteration e w s) as [[] w' s1|o]; [apply IH | discriminate].
Qed.

(** X7: [libusb_release_interface], [libusb_close] and [libusb_exit] are
    called exactly when the loop is left by its condition, and then they
    are the last three calls, in this order; whenever [main] returns earlier,
    from the way to the loop, from set-up or from inside the loop, the
    device stays open and the library initialised. *)
Theorem usbcat_cleanup (opts : list cli_option) (W : usb_world) (w0 : list response)
    (iters : list (list response)) :
  (existsb is_cleanup (fst (usbcat opts W w0 iters)) = true
   <-> exists s, snd (usbcat opts W w0 iters) = After s)
  /\ (forall s, snd (usbcat opts W w0 iters) = After s ->
        exists l dev cs w1 s0,
          before_loop opts W = (cs, Starts l dev)
          /\ setup (loop_env l W) w0 (blank (loop_env l W)) = Ok tt w1 s0
          /\ event_loop (loop_env l W) iters s0 = Left_loop s
          /\ loop_cond s = false
          /\ fst (usbcat opts W w0 iters)
             = cs ++ [c_release_interface (s32 (o_int_no l)); c_close; c_exit]).
Proof.
  assert (Hb := before_loop_no_cleanup opts W). unfold usbcat.
  destruct (before_loop opts W) as [cs [c| |l dev]]; cbn [fst snd] in *.
  1,2: split; [split; [congruence | intros [s Hs]; discriminate Hs]
              | intros s Hs; discriminate Hs].
  destruct (setup (loop_env l W) w0 (blank (loop_env l W))) as [[] w1 s0|o] eqn:Hs0;
    cbn [fst snd].
  2:{ split; [split; [congruence | intros [s Hs]; discriminate Hs]
             | intros s Hs; discriminate Hs]. }
  destruct (event_loop (loop_env l W) iters s0) as [s'|o] eqn:Hl; cbn [fst snd].
  2:{ split; [split; [congruence | intros [s Hs]; discriminate Hs]
             | intros s Hs; discriminate Hs]. }
  split.
  - split; [eauto|]. intros _. rewrite existsb_app. apply orb_true_r.
  - intros s Hs. injection Hs as <-. exists l, dev, cs, w1, s0.
    repeat split; auto.
    eapply event_loop_left; eauto.
Qed.

(** ** [non_blocking], a failing [poll] and a timed-out transfer *)

(** X8: [non_blocking] never returns -1: either both calls of [fcntl]
    succeed and it returns 0, or the first failing one is named on standard
    error and the process exits with status 1 ([F_SETFL] is not tried after
    a failed [F_GETFL]). *)
Theorem non_blocking_exits_or_succeeds (fd_ : Z) (w : list response) (s : state) :
  match non_blocking fd_ w s with
  | Ok r w' s' =>
      r = 0
      /\ exists v1 e1 v2 e2, w = RFcntl v1 e1 :: RFcntl v2 e2 :: w' /\ v1 <> -1 /\ v2 <> -1
           /\ s' = set_trace (AFcntl fd_ :: AFcntl fd_ :: trace s) s
  | Stop (Returned c s') =>
      c = 1
      /\ ((exists e1 w', w = RFcntl (-1) e1 :: w'
             /\ s' = set_trace (AStderr "F_GETFL" :: AFcntl fd_ :: trace s) s)
          \/ (exists v1 e1 e2 w', w = RFcntl v1 e1 :: RFcntl (-1) e2 :: w' /\ v1 <> -1
                /\ s' = set_trace (AStderr "F_SETFL" :: AFcntl fd_ :: AFcntl fd_ :: trace s) s))
  | Stop (Cut _) => True
  | Stop _ => False
  end.
Proof.
  unfold non_blocking, fcntl, diag, bind, respond, log, modify, eprint, halt, ret.
  destruct w as [|[v1 e1| | | | | |] w]; try exact I. cbn [fst].
  destruct (Z.eqb_spec v1 (-1)) as [->|H1]; cbn [negb].
  - split; [reflexivity|]. left. eauto.
  - destruct w as [|[v2 e2| | | | | |] w]; try exact I. cbn [fst].
    destruct (Z.eqb_spec v2 (-1)) as [->|H2]; cbn [negb].
    + split; [reflexivity|]. right. exists v1, e1, e2, w. auto.
    + split; [reflexivity|]. exists v1, e1, v2, e2. auto.
Qed.

(** X9: a [poll] that fails with EINTR changes nothing and the loop polls
    again; one that fails with any other errno is reported and [main]
    returns [EXIT_FAILURE]. *)
Theorem poll_failure (e : env) (er : Z) (w : list response) (iters : list (list response))
    (s : state) :
  iteration e (RPollFail er :: w) s
  = (if er =? EINTR then Ok tt w (set_trace (APoll (-1) :: trace s) s)
     else Stop (Returned EXIT_FAILURE
                  (set_trace (AStderr "Poll returned error" :: APoll (-1) :: trace s) s)))
  /\ loop_cond (set_trace (APoll (-1) :: trace s) s) = loop_cond s
  /\ (loop_cond s = true ->
      event_loop e ((RPollFail er :: w) :: iters) s
      = if er =? EINTR then event_loop e iters (set_trace (APoll (-1) :: trace s) s)
        else Ended (Returned EXIT_FAILURE
                      (set_trace (AStderr "Poll returned error" :: APoll (-1) :: trace s) s))).
Proof.
  assert (H : iteration e (RPollFail er :: w) s
              = (if er =? EINTR then Ok tt w (set_trace (APoll (-1) :: trace s) s)
                 else Stop (Returned EXIT_FAILURE
                              (set_trace (AStderr "Poll returned error" :: APoll (-1) :: trace s)
                                         s)))).
  { unfold iteration, poll, bind, respond, get, log, modify, eprint, halt, ret. cbn [fst snd].
    change (0 <? -1) with false. cbv iota. destruct (er =? EINTR); reflexivity. }
  split; [exact H|]. split; [reflexivity|].
  intros Hc. cbn [event_loop]. rewrite Hc, H. destruct (er =? EINTR); reflexivity.
Qed.

(** X10: a transfer that timed out is submitted again as it is (same
    queue, endpoint, length and buffer), and nothing else changes: the
    indices and flags of both queues and the poll set stay; when the
    submission fails the process exits with status 1 after a message. *)
Theorem timed_out_resubmitted (x : nat) (t : libusb_transfer) (q : qref) (n r : Z)
    (w : list response) (s : state)
    (Hx : xfers s !! x = Some t) (Hsub : submitted t = true) (Hn : 0 <= n <= xlength t)
    (Hcb : callback t = true) (Hq : user_data t = Some q)
    (Hroom : buf_head (getq q s) <> u32 (buf_tail (getq q s) + 1) mod USB_BUFS) :
  let again := ASubmit x (Some q) (endpoint t) (xlength t) r in
  let called := ACallback x (Some q) LIBUSB_TRANSFER_TIMED_OUT in
  let t' := mk_transfer (endpoint t) LIBUSB_TRANSFER_TIMED_OUT (xlength t) n (buffer t)
                        (Some q) true in
  deliver (x, LIBUSB_TRANSFER_TIMED_OUT, n) (RSubmit r :: w) s
  = if r =? LIBUSB_SUCCESS
    then Ok tt w (mk_state (fds s) (usb_write_buf s) (usb_read_buf s)
                           (<[x := t' true]> (xfers s)) (mallocs s)
                           (again :: called :: trace s))
    else Stop (Returned 1
                 (mk_state (fds s) (usb_write_buf s) (usb_read_buf s)
                           (<[x := t' false]> (xfers s)) (mallocs s)
                           (AStderr "Error re-submitting timed-out transfer"
                              :: again :: called :: trace s))).
Proof.
  cbv zeta. apply wp_run. unfold deliver.
  apply wp_bind, wp_get. rewrite Hx, Hsub.
  replace (0 <=? n) with true by (symmetry; apply Z.leb_le; lia).
  replace (n <=? xlength t) with true by (symmetry; apply Z.leb_le; lia).
  cbn [andb]. apply wp_bind, wp_modify, wp_bind, wp_log. rewrite Hcb, Hq.
  unfold usb_callback. apply wp_bind, wp_get.
  apply wp_bind. eapply wp_deref; [proj; rewrite list_lookup_alter_eq, Hx; reflexivity|].
  apply wp_bind. eapply wp_deref; [proj; exact Hq|]. cbv zeta.
  apply wp_bind, wp_assert.
  { apply negb_true_iff, Z.eqb_neq. destruct q; exact Hroom. }
  cbn [status completed].
  apply wp_bind. eapply wp_submit_here; [proj; rewrite list_lookup_alter_eq, Hx; reflexivity|].
  cbv zeta. proj. rewrite Hq.
  assert (Halter : forall b,
            alter (held b) x (alter (completed LIBUSB_TRANSFER_TIMED_OUT n) x (xfers s))
            = <[x := mk_transfer (endpoint t) LIBUSB_TRANSFER_TIMED_OUT (xlength t) n
                                 (buffer t) (Some q) true b]> (xfers s)).
  { intros b. apply list_eq. intros j. destruct (decide (j = x)) as [->|Hj].
    - rewrite !list_lookup_alter_eq, Hx, list_lookup_insert_eq
        by (apply lookup_lt_Some in Hx; exact Hx).
      cbn. unfold held, completed. cbn. rewrite Hq, Hcb. reflexivity.
    - rewrite !list_lookup_alter_ne, list_lookup_insert_ne by auto. reflexivity. }
  assert (Hsame : alter (completed LIBUSB_TRANSFER_TIMED_OUT n) x (xfers s)
                  = alter (held false) x
                      (alter (completed LIBUSB_TRANSFER_TIMED_OUT n) x (xfers s))).
  { apply list_eq. intros j. destruct (decide (j = x)) as [->|Hj].
    - rewrite !list_lookup_alter_eq, Hx. reflexivity.
    - rewrite !list_lookup_alter_ne by auto. reflexivity. }
  destruct (r =? LIBUSB_SUCCESS).
  - apply wp_ret. intros _. unfold upd_xfer, set_xfers, set_trace. proj.
    rewrite Halter. reflexivity.
  - apply wp_bind, wp_eprint, wp_halt. intros _.
    unfold upd_xfer, set_xfers, set_trace. proj.
    rewrite <- (Halter false), <- Hsame. reflexivity.
Qed.

(** Read-only, right after set-up: the inbound transfer times out with
    nothing received. *)
Lemma timed_out_resubmitted_witness :
  let s := state_after cfg_read [] in
  let t := mk_transfer 129 LIBUSB_TRANSFER_COMPLETED 512 0 (Some 0%nat)
                       (Some usb_read_buf_ref) true true in
  xfers s !! 0%nat = Some t
  /\ exists s',
       deliver (0%nat, LIBUSB_TRANSFER_TIMED_OUT, 0) [RSubmit LIBUSB_SUCCESS] s = Ok tt [] s'
       /\ trace s' = ASubmit 0 (Some usb_read_buf_ref) 129 512 LIBUSB_SUCCESS
                       :: ACallback 0 (Some usb_read_buf_ref) LIBUSB_TRANSFER_TIMED_OUT
                       :: trace s
       /\ fds s' = fds s /\ usb_read_buf s' = usb_read_buf s.
Proof.
  intros s t. split; [vm_compute; reflexivity|].
  eexists. split.
  - refine (timed_out_resubmitted 0 t usb_read_buf_ref 0 LIBUSB_SUCCESS [] s _ _ _ _ _ _).
    + vm_compute; reflexivity.
    + reflexivity.
    + vm_compute. split; discriminate.
    + reflexivity.
    + reflexivity.
    + vm_compute. discriminate.
  - repeat split; reflexivity.
Defined.

(** ** Every failure is reported *)

Ltac reported_done :=
  first [ exact I
        | split; [reflexivity | eexists; eexists; reflexivity] ].

Section Reported.

Variable e : env.

Lemma on_stdin_reported (i : nat) (w : list response) (s : state) :
  wp (on_stdin e i) (fun _ _ _ => True) reported w s.
Proof. unfold on_stdin. wp_run_all; reported_done. Qed.

Lemma on_stdout_reported (i : nat) (w : list response) (s : state) :
  wp (on_stdout e i) (fun _ _ _ => True) reported w s.
Proof. unfold on_stdout. wp_run_all; reported_done. Qed.

Lemma deliver_reported (c : completion) (w : list response) (s : state) :
  wp (deliver c) (fun _ _ _ => True) reported w s.
Proof. destruct c as [[x st] n]. unfold deliver. wp_run_all; reported_done. Qed.

Lemma deliver_all_reported (cs : list completion) : forall (w : list response) (s : state),
  wp (deliver_all cs) (fun _ _ _ => True) reported w s.
Proof.
  induction cs as [|c cs IH]; intros w s; simpl; [exact I|].
  apply wp_bind. eapply wp_mono; [apply deliver_reported | | auto].
  intros ? ? ? _. apply IH.
Qed.

Lemma handle_events_reported (w : list response) (s : state) :
  wp libusb_handle_events_timeout (fun _ _ _ => True) reported w s.
Proof.
  unfold libusb_handle_events_timeout.
  apply wp_bind, wp_respond; [exact I|]. intros r w1 a _ _.
  apply wp_bind, wp_log, wp_bind. eapply wp_mono; [apply deliver_all_reported | | auto].
  intros ? ? ? _. exact I.
Qed.

Lemma scan_reported (n : nat) : forall (i : nat) (r : Z) (w : list response) (s : state),
  wp (scan e n i r) (fun _ _ _ => True) reported w s.
Proof.
  induction n as [|n IH]; intros i r w s; cbn [scan]; [exact I|].
  destruct (r =? 0); [exact I|].
  apply wp_bind, wp_get, wp_bind, wp_deref_any; [intros a Ha|exact I].
  destruct (negb (Z.land (events a) (revents a) =? 0)); [|apply IH].
  destruct (fd a =? fd_in).
  { apply wp_bind. eapply wp_mono; [apply on_stdin_reported | | auto].
    intros ? ? ? _. apply IH. }
  destruct (fd a =? fd_out).
  { apply wp_bind. eapply wp_mono; [apply on_stdout_reported | | auto].
    intros ? ? ? _. apply IH. }
  apply wp_bind. eapply wp_mono; [apply handle_events_reported | | auto].
  intros rc ? ? _. cbv beta. wp_run_all; reported_done.
Qed.

Lemma iteration_reported (w : list response) (s : state) :
  wp (iteration e) (fun _ _ _ => True) reported w s.
Proof.
  unfold iteration. apply wp_bind.
  apply (wp_mono poll (fun _ _ _ => True) _ reported reported).
  - wp_run_all; reported_done.
  - intros r ? ? _. cbv beta. destruct (0 <? fst r).
    + wp_step. wp_step. apply scan_reported.
    + wp_run_all; reported_done.
  - auto.
Qed.

Lemma setup_reported (w : list response) (s : state) :
  wp (setup e) (fun _ _ _ => True) reported w s.
Proof.
  unfold setup, setup_write, setup_read, copy_usb_fds, push_fd.
  change (Z.to_nat (USB_BUFS - 1)) with 1%nat. cbn [alloc_write_bufs submit_read_bufs].
  wp_run_all; reported_done.
Qed.

Lemma event_loop_reported (iters : list (list response)) : forall (s : state),
  match event_loop e iters s with
  | Left_loop s' => loop_cond s' = false
  | Ended o => reported o
  end.
Proof.
  induction iters as [|w iters IH]; intros s; cbn [event_loop].
  - destruct (loop_cond s) eqn:Hc; [exact I | exact Hc].
  - destruct (loop_cond s) eqn:Hc; [|exact Hc].
    assert (H := iteration_reported w s). unfold wp in H.
    destruct (iteration e w s) as [[] w' s'|o]; [apply IH | exact H].
Qed.

End Reported.

(** X11: whatever the configuration and whatever the world answers,
    [main] returns [EXIT_SUCCESS] only by leaving the loop through its
    condition, and every other return, from set-up or from inside the loop,
    has status [EXIT_FAILURE] and a message on standard error as its last
    action. *)
Theorem main_failure_reported (e : env) (w0 : list response)
    (iters : list (list response)) :
  match main e w0 iters with
  | Returned c s =>
      (c = EXIT_SUCCESS /\ loop_cond s = false
       /\ exists w1 s0, setup e w0 (blank e) = Ok tt w1 s0
                        /\ event_loop e iters s0 = Left_loop s)
      \/ (c = EXIT_FAILURE /\ exists msg t, trace s = AStderr msg :: t)
  | _ => True
  end.
Proof.
  unfold main. assert (Hs := setup_reported e w0 (blank e)). unfold wp in Hs.
  destruct (setup e w0 (blank e)) as [[] w1 s0|o].
  - assert (Hl := event_loop_reported e iters s0).
    destruct (event_loop e iters s0) as [s'|o] eqn:Hev.
    + left. split; [reflexivity|]. split; [exact Hl|]. eauto.
    + destruct o; try exact I. right. exact Hl.
  - destruct o; try exact I. right. exact Hs.
Qed.

(** ** Calls stay within the buffers *)

Section Fits.

Variable e : env.

Lemma fits_log (s : state) (a : action) :
  within_buffer e a -> fits e s -> fits e (set_trace (a :: trace s) s).
Proof. intros Ha [H1 H2]. split; [constructor; assumption | exact H2]. Qed.

Lemma fits_frame (s s' : state) :
  trace s' = trace s -> xfers s' = xfers s -> fits e s -> fits e s'.
Proof. intros Ht Hx [H1 H2]. split; [rewrite Ht | rewrite Hx]; assumption. Qed.

Lemma fits_updq (r : qref) (f : buffer_queue_t -> buffer_queue_t) (s : state) :
  fits e s -> fits e (updq r f s).
Proof. apply fits_frame; destruct r; reflexivity. Qed.

Lemma fits_upd_events (i : nat) (f : Z -> Z) (s : state) :
  fits e s -> fits e (upd_events i f s).
Proof. apply fits_frame; reflexivity. Qed.

Lemma fits_set_fds (l : list pollfd_t) (s : state) : fits e s -> fits e (set_fds l s).
Proof. apply fits_frame; reflexivity. Qed.

Lemma fits_set_mallocs (n : nat) (s : state) : fits e s -> fits e (set_mallocs n s).
Proof. apply fits_frame; reflexivity. Qed.

Lemma fits_alter (x : nat) (f : libusb_transfer -> libusb_transfer) (s : state) :
  (forall t, xfers s !! x = Some t -> submitted (f t) = true -> sized e (f t)) ->
  fits e s -> fits e (upd_xfer x f s).
Proof.
  intros Hf [H1 H2]. split; [exact H1|]. intros y t. unfold upd_xfer. proj.
  destruct (decide (y = x)) as [->|Hy].
  - rewrite list_lookup_alter_eq. destruct (xfers s !! x) as [t0|] eqn:Hx; [|discriminate].
    intros H. injection H as <-. apply Hf. reflexivity.
  - rewrite list_lookup_alter_ne by auto. apply H2.
Qed.

Lemma fits_alloc (t : libusb_transfer) (s : state) :
  submitted t = false -> fits e s -> fits e (set_xfers (xfers s ++ [t]) s).
Proof.
  intros Ht [H1 H2]. split; [exact H1|]. intros y t'. proj. intros Hy Hs.
  apply lookup_app_Some in Hy as [Hy | [_ Hy]]; [eauto|].
  destruct (y - List.length (xfers s))%nat; simpl in Hy; [|discriminate].
  injection Hy as <-. congruence.
Qed.

End Fits.

Ltac fits_step :=
  cbv beta;
  lazymatch goal with
  | |- fits _ (outcome_state _) => cbn [outcome_state]
  | |- fits _ (set_trace (_ :: trace ?s) ?s) => apply fits_log
  | |- fits _ (updq _ _ _) => apply fits_updq
  | |- fits _ (upd_events _ _ _) => apply fits_upd_events
  | |- fits _ (set_fds _ _) => apply fits_set_fds
  | |- fits _ (set_mallocs _ _) => apply fits_set_mallocs
  | |- fits _ (upd_xfer _ _ _) => apply fits_alter
  | |- fits _ (set_xfers (xfers ?s ++ [_]) ?s) => apply fits_alloc
  | |- fits _ (if _ then _ else _) => fail
  end.
Ltac fits_peel := repeat fits_step; try assumption.

Section Fits_steps.

Variable e : env.

Lemma sized_submit (t : libusb_transfer) (x : nat) (r : Z) :
  sized e t -> within_buffer e (ASubmit x (user_data t) (endpoint t) (xlength t) r).
Proof. unfold sized, within_buffer. destruct (user_data t) as [[]|]; auto. Qed.

Lemma sized_same (t t' : libusb_transfer) :
  user_data t' = user_data t -> endpoint t' = endpoint t -> xlength t' = xlength t ->
  sized e t -> sized e t'.
Proof. unfold sized. intros -> -> ->. auto. Qed.

Ltac fits_leaf Hs :=
  intros; proj_all; as_found; proj_all; as_bounds;
  first [ exact I | discriminate | assumption
        | solve [unfold sized, within_buffer; proj_all; as_bounds; repeat split;
                 first [reflexivity | lia]]
        | solve [apply sized_submit; eapply (fit_held _ _ Hs); eauto]
        | solve [eapply sized_same; [| | |eapply (fit_held _ _ Hs); eauto]; reflexivity]
        | idtac ].

Lemma on_stdin_fits (i : nat) (w : list response) (s : state) :
  fits e s ->
  wp (on_stdin e i) (fun _ _ s' => fits e s') (fun o => fits e (outcome_state o)) w s.
Proof. intros Hs. unfold on_stdin. wp_run_all; fits_peel; fits_leaf Hs. Qed.

(** What is queued for standard output lies within its buffer. *)
Lemma queued_sizes (s : state) :
  inv e s -> buf_head (usb_read_buf s) <> buf_tail (usb_read_buf s) ->
  0 <= xfer_written (usb_read_buf s) <= xfer_length (usb_read_buf s)
  /\ xfer_length (usb_read_buf s) <= USB_XFER_SZ.
Proof.
  intros [_ _ _ Hr] Hne. destruct (re e) eqn:Hre.
  - destruct (ir_on _ _ Hr Hre) as (_ & _ & _ & _ & pf & t & _ & _ & _ & _ & _ & _ & _ & Hside).
    destruct Hside as [H1 H2 H3 | H1 H2 H3 H4 H5 H6 H7 H8]; [contradiction|]. lia.
  - destruct (ir_off _ _ Hr Hre) as (H1 & H2 & _). congruence.
Qed.

Lemma on_stdout_fits (i : nat) (w : list response) (s : state) :
  inv e s -> fits e s ->
  wp (on_stdout e i) (fun _ _ s' => fits e s') (fun o => fits e (outcome_state o)) w s.
Proof.
  intros Hinv Hs. unfold on_stdout. apply wp_bind, wp_get. cbv zeta.
  apply wp_bind, wp_assert_any; [intros Hne | exact Hs].
  apply negb_true_iff, Z.eqb_neq in Hne. assert (Hb := queued_sizes s Hinv Hne).
  rewrite (size_t_small (xfer_length (usb_read_buf s) - xfer_written (usb_read_buf s)))
    by lia.
  wp_run_all; fits_peel; fits_leaf Hs.
Qed.

Lemma deliver_fits (c : completion) (w : list response) (s : state) :
  fits e s ->
  wp (deliver c) (fun _ _ s' => fits e s') (fun o => fits e (outcome_state o)) w s.
Proof.
  intros Hs. destruct c as [[x st] n]. unfold deliver. wp_run_all; fits_peel; fits_leaf Hs.
Qed.

Lemma poll_fits (w : list response) (s : state) :
  fits e s ->
  wp poll (fun _ _ s' => fits e s') (fun o => fits e (outcome_state o)) w s.
Proof. intros Hs. wp_run_all; fits_peel; fits_leaf Hs. Qed.

Lemma setup_fits (w : list response) :
  wp (setup e) (fun _ _ s' => fits e s') (fun o => fits e (outcome_state o)) w (blank e).
Proof.
  assert (Hs : fits e (blank e)).
  { split; [constructor|]. intros x t Hx. destruct x; discriminate Hx. }
  revert Hs. generalize (blank e). intros s Hs.
  unfold setup, setup_write, setup_read, copy_usb_fds, push_fd.
  change (Z.to_nat (USB_BUFS - 1)) with 1%nat. cbn [alloc_write_bufs submit_read_bufs].
  wp_run_all; fits_peel; fits_leaf Hs.
Qed.

End Fits_steps.

(** ** Carrying a property of states through a run *)

Section Kept.

Variable e : env.
Hypothesis Hcfg : well_configured e = true.
Variable keep : option nat.

(** A property of states that each branch of the loop keeps, given the
    invariant. *)
Variable J : state -> Prop.

Hypothesis J_note : forall s a,
  match a with AStderr _ | AHandleEvents => True | _ => False end ->
  J s -> J (set_trace (a :: trace s) s).
Hypothesis J_stdin : forall w s,
  scanning e keep 0 s -> we e = true -> J s ->
  wp (on_stdin e 0) (fun _ _ s' => J s') (fun o => J (outcome_state o)) w s.
Hypothesis J_stdout : forall w s,
  scanning e keep (ixR e) s -> re e = true -> J s ->
  wp (on_stdout e (ixR e)) (fun _ _ s' => J s') (fun o => J (outcome_state o)) w s.
Hypothesis J_deliver : forall c w s,
  steady e keep s -> J s ->
  wp (deliver c) (fun _ _ s' => J s') (fun o => J (outcome_state o)) w s.
Hypothesis J_poll : forall w s,
  steady e keep s -> J s ->
  wp poll (fun _ _ s' => J s') (fun o => J (outcome_state o)) w s.

Lemma deliver_all_keeps (cs : list completion) :
  triple (fun s => steady e keep s /\ J s) (deliver_all cs)
         (fun _ s => steady e keep s /\ J s)
         (fun o => ending e keep o /\ J (outcome_state o)).
Proof.
  induction cs as [|c cs IH]; intros w s [Hs Hj]; simpl.
  - apply wp_ret. auto.
  - apply wp_bind. eapply wp_mono.
    + apply wp_conj; [apply (deliver_ok e Hcfg keep c w s Hs) | apply J_deliver; assumption].
    + intros ? w' s' Hs'. apply IH, Hs'.
    + auto.
Qed.

Lemma handle_events_keeps :
  triple (fun s => steady e keep s /\ J s) libusb_handle_events_timeout
         (fun _ s => steady e keep s /\ J s)
         (fun o => ending e keep o /\ J (outcome_state o)).
Proof.
  intros w s [Hs Hj].
  assert (Hok := handle_events_ok e Hcfg keep w s Hs).
  assert (Hj' : wp libusb_handle_events_timeout (fun _ _ s' => J s')
                   (fun o => J (outcome_state o)) w s).
  { unfold libusb_handle_events_timeout.
    apply wp_bind, wp_respond; [exact Hj|]. intros r w1 a _ _.
    apply wp_bind, wp_log, wp_bind.
    assert (Hs1 : steady e keep (set_trace (AHandleEvents :: trace s) s)).
    { destruct Hs as [Hinv Htr Hset Heof]. split.
      - destruct Hinv as [Hl Hx Hw Hr]. split; auto.
        + eapply inv_write_frame; eauto.
        + eapply inv_read_frame; eauto.
      - eapply (inv_trace_log e keep s); [exact Htr | reflexivity | ..].
        + apply ok_after_settled; [exact Hset | exact I].
        + intros [] H; exact H.
        + intros [] H; discriminate H.
        + auto.
        + discriminate.
        + discriminate.
      - exact I.
      - exact Heof. }
    eapply wp_mono;
      [apply (deliver_all_keeps (fst a) w1 _ (conj Hs1 (J_note s AHandleEvents I Hj))) | |].
    - intros ? ? ? [_ H]. exact H.
    - intros o [_ H]. exact H. }
  eapply wp_mono; [apply wp_conj; [exact Hok | exact Hj'] | auto | auto].
Qed.

Lemma scan_keeps (n : nat) : forall (i : nat) (r : Z),
  triple (fun s => (scanning e keep i s /\ (i + n)%nat = List.length (layout e)) /\ J s)
         (scan e n i r) (fun _ s => steady e keep s /\ J s)
         (fun o => ending e keep o /\ J (outcome_state o)).
Proof.
  induction n as [|n IH]; intros i r w s [[Hsc Hlen] Hf]; simpl.
  - apply wp_ret. split; [apply Hsc | exact Hf].
  - destruct (r =? 0); [apply wp_ret; split; [apply Hsc | exact Hf]|].
    apply wp_bind, wp_get.
    assert (Hl := inv_layout _ _ (st_inv _ _ _ (sc_steady _ _ _ _ Hsc))).
    destruct (fds s !! i) as [p|] eqn:Hp.
    2:{ apply lookup_ge_None in Hp. rewrite <- (length_map fd), Hl in Hp. lia. }
    apply wp_bind. eapply wp_deref; [reflexivity|].
    assert (Hnext : forall s', scanning e keep (S i) s' /\ J s' ->
              (scanning e keep (S i) s' /\ (S i + n)%nat = List.length (layout e)) /\ J s').
    { intros s' [H1 H2]. split; [split; [exact H1 | lia] | exact H2]. }
    destruct (negb (Z.land (events p) (revents p) =? 0)).
    + destruct (Z.eqb_spec (fd p) fd_in) as [Hin|Hin].
      { destruct (layout_stdin e Hcfg _ _ _ Hl Hp Hin) as [Hwe ->].
        apply wp_bind. eapply wp_mono.
        - apply wp_conj; [apply (on_stdin_ok e keep w s (conj Hsc Hwe))
                         | apply J_stdin; assumption].
        - intros ? w' s' Hs'. apply IH, Hnext, Hs'.
        - auto. }
      destruct (Z.eqb_spec (fd p) fd_out) as [Hout|Hout].
      { destruct (layout_stdout e Hcfg _ _ _ Hl Hp Hout) as [Hre ->].
        apply wp_bind. eapply wp_mono.
        - apply wp_conj; [apply (on_stdout_ok e keep (ixR e) w s
                                   (conj Hsc (conj Hre eq_refl)))
                         | apply J_stdout; assumption].
        - intros ? w' s' Hs'. apply IH, Hnext, Hs'.
        - auto. }
      apply wp_bind. eapply wp_mono.
      * apply (handle_events_keeps w s (conj (sc_steady _ _ _ _ Hsc) Hf)).
      * intros rc w' s' [Hs' Hf']. cbv beta. destruct (negb (rc =? LIBUSB_SUCCESS)).
        -- apply wp_bind, wp_eprint, wp_halt. split.
           ++ apply ending_failure. apply inv_trace_stderr; [apply Hs' | apply Hs'].
           ++ apply J_note; [exact I | exact Hf'].
        -- apply wp_ret. split; assumption.
      * auto.
    + apply IH, Hnext. split; [|exact Hf].
      destruct Hsc as [H1 H2 H3 H4 H5]. split; auto.
      * intros j pf Hj. apply H4. lia.
      * discriminate.
Qed.

Lemma iteration_keeps :
  triple (fun s => (steady e keep s /\ loop_cond s = true) /\ J s) (iteration e)
         (fun _ s => steady e keep s /\ J s)
         (fun o => ending e keep o /\ J (outcome_state o)).
Proof.
  intros w s [Hs Hf]. unfold iteration. apply wp_bind. eapply wp_mono.
  - apply wp_conj; [apply (poll_ok e keep w s Hs) | apply J_poll; [apply Hs | exact Hf]].
  - intros r w' s' [Hs' Hf']. cbv beta in Hs' |- *. destruct (0 <? fst r).
    + apply wp_bind, wp_get. eapply wp_mono; [apply scan_keeps | auto | auto].
      split; [split; [exact Hs'|] | exact Hf'].
      rewrite <- (inv_layout _ _ (st_inv _ _ _ (sc_steady _ _ _ _ Hs'))), length_map.
      reflexivity.
    + destruct (negb (snd r =? EINTR)).
      * apply wp_bind, wp_eprint, wp_halt. split.
        -- apply ending_failure. apply inv_trace_stderr; [apply Hs' | apply Hs'].
        -- apply J_note; [exact I | exact Hf'].
      * apply wp_ret. split; assumption.
  - auto.
Qed.

Lemma event_loop_keeps (iters : list (list response)) : forall s,
  steady e keep s -> J s ->
  match event_loop e iters s with
  | Left_loop s' => J s'
  | Ended o => J (outcome_state o)
  end.
Proof.
  induction iters as [|w iters IH]; intros s Hs Hf; simpl.
  - destruct (loop_cond s); exact Hf.
  - destruct (loop_cond s) eqn:Hc; [|exact Hf].
    assert (H := iteration_keeps w s (conj (conj Hs Hc) Hf)). unfold wp in H.
    destruct (iteration e w s) as [[] w' s'|o]; [apply IH; apply H | apply H].
Qed.

End Kept.

(** From set-up to the end of a run. *)
Lemma main_keeps (e : env) (Hcfg : well_configured e = true) (J : state -> Prop)
    (w0 : list response) (iters : list (list response)) :
  (forall s a, match a with AStderr _ | AHandleEvents => True | _ => False end ->
               J s -> J (set_trace (a :: trace s) s)) ->
  (forall w s, scanning e None 0 s -> we e = true -> J s ->
     wp (on_stdin e 0) (fun _ _ s' => J s') (fun o => J (outcome_state o)) w s) ->
  (forall w s, scanning e None (ixR e) s -> re e = true -> J s ->
     wp (on_stdout e (ixR e)) (fun _ _ s' => J s') (fun o => J (outcome_state o)) w s) ->
  (forall c w s, steady e None s -> J s ->
     wp (deliver c) (fun _ _ s' => J s') (fun o => J (outcome_state o)) w s) ->
  (forall w s, steady e None s -> J s ->
     wp poll (fun _ _ s' => J s') (fun o => J (outcome_state o)) w s) ->
  wp (setup e) (fun _ _ s' => J s') (fun o => J (outcome_state o)) w0 (blank e) ->
  J (outcome_state (main e w0 iters)).
Proof.
  intros H1 H2 H3 H4 H5 H. unfold main.
  assert (Hok := setup_ok e w0 (blank e) eq_refl). unfold wp in H, Hok.
  destruct (setup e w0 (blank e)) as [[] w1 s|o]; [|apply H].
  assert (Hl := event_loop_keeps e Hcfg None J H1 H2 H3 H4 H5 iters s (proj1 Hok) H).
  destruct (event_loop e iters s) as [s'|o]; apply Hl.
Qed.

(** X12: in every run, however it ends, each [read] asks for half a buffer
    (256 bytes); each [write] starts at an offset inside the 512-byte buffer
    and its span ends within it; each transfer submitted to the write
    endpoint carries between 1 and 256 bytes, and each transfer submitted to
    the read endpoint asks for the full 512 bytes. *)
Theorem run_within_buffers (e : env) (Hcfg : well_configured e = true)
    (w0 : list response) (iters : list (list response)) :
  Forall (within_buffer e) (trace (outcome_state (main e w0 iters))).
Proof.
  apply fit_trace. apply (main_keeps e Hcfg (fits e)).
  - intros s a Ha Hs. apply fits_log; [destruct a; try destruct Ha; exact I | exact Hs].
  - intros w s _ _ Hs. apply on_stdin_fits, Hs.
  - intros w s Hsc _ Hs. apply on_stdout_fits; [apply Hsc | exact Hs].
  - intros c w s _ Hs. apply deliver_fits, Hs.
  - intros w s _ Hs. apply poll_fits, Hs.
  - apply setup_fits.
Qed.

(** Both directions: 100 bytes go out, then standard input is at its end. *)
Lemma run_within_buffers_witness :
  well_configured cfg_both = true
  /\ Forall (within_buffer cfg_both)
            (trace (outcome_state (main cfg_both setup_fine run_eof))).
Proof.
  split; [reflexivity|]. exact (run_within_buffers cfg_both eq_refl setup_fine run_eof).
Defined.

(** ** What set-up leaves behind *)

(** The poll set that set-up builds. *)
Lemma setup_fds (e : env) (w : list response) :
  wp (setup e)
     (fun _ _ s =>
        fds s = (if we e then [mk_pollfd fd_in ev_stdin_on 0] else [])
                ++ (if re e then [mk_pollfd fd_out ev_quiet 0] else [])
                ++ List.map (fun p => mk_pollfd (fst p) (snd p) 0) (usb_fds e))
     (fun _ => True) w (blank e).
Proof.
  unfold setup, setup_write, setup_read, copy_usb_fds, push_fd, we, re.
  change (Z.to_nat (USB_BUFS - 1)) with 1%nat. cbn [alloc_write_bufs submit_read_bufs].
  wp_run_all; try exact I.
  all: proj_all; as_found; as_bounds; subst; try congruence; repeat split; reflexivity.
Qed.

(** X13: when set-up succeeds, [fcntl] has been called twice on standard
    input and twice on standard output, whichever directions are enabled;
    one transfer of [USB_XFER_SZ] bytes has been submitted on the read
    endpoint if there is one, and none on the write endpoint; and the poll
    set is standard input asking for POLLIN, POLLHUP and POLLERR (with a
    write endpoint), standard output asking for POLLHUP and POLLERR only
    (with a read endpoint), and the descriptors of the transport with the
    events the transport asked for. *)
Theorem setup_leaves (e : env) (w : list response) :
  match setup e w (blank e) with
  | Ok _ _ s =>
      fds s = (if we e then [mk_pollfd fd_in ev_stdin_on 0] else [])
              ++ (if re e then [mk_pollfd fd_out ev_quiet 0] else [])
              ++ List.map (fun p => mk_pollfd (fst p) (snd p) 0) (usb_fds e)
      /\ trace s = (if re e
                    then [ASubmit (count (we e)) (Some usb_read_buf_ref) (u8 (read_ep e))
                                  USB_XFER_SZ LIBUSB_SUCCESS]
                    else [])
                   ++ [AFcntl fd_out; AFcntl fd_out; AFcntl fd_in; AFcntl fd_in]
      /\ in_flight usb_read_buf_ref s = Z.of_nat (count (re e))
      /\ in_flight usb_write_buf_ref s = 0
  | Stop _ => True
  end.
Proof.
  change (wp (setup e)
             (fun _ _ s =>
                fds s = (if we e then [mk_pollfd fd_in ev_stdin_on 0] else [])
                        ++ (if re e then [mk_pollfd fd_out ev_quiet 0] else [])
                        ++ List.map (fun p => mk_pollfd (fst p) (snd p) 0) (usb_fds e)
                /\ trace s = (if re e
                              then [ASubmit (count (we e)) (Some usb_read_buf_ref)
                                            (u8 (read_ep e)) USB_XFER_SZ LIBUSB_SUCCESS]
                              else [])
                             ++ [AFcntl fd_out; AFcntl fd_out; AFcntl fd_in; AFcntl fd_in]
                /\ in_flight usb_read_buf_ref s = Z.of_nat (count (re e))
                /\ in_flight usb_write_buf_ref s = 0)
             (fun _ => True) w (blank e)).
  unfold setup, setup_write, setup_read, copy_usb_fds, push_fd, we, re.
  change (Z.to_nat (USB_BUFS - 1)) with 1%nat. cbn [alloc_write_bufs submit_read_bufs].
  wp_run_all; try exact I.
  all: proj_all; as_found; as_bounds; subst; try congruence; repeat split; reflexivity.
Qed.

(** ** The status of the process *)

(** X14: the process ends with status [EXIT_SUCCESS] in two cases only:
    [-h] was given and no unknown option was met, or the loop was left by
    its condition; every other return of [main] (and the [exit] of [diag]
    and of the callback) has status [EXIT_FAILURE], and from set-up on it
    comes after a message on standard error. *)
Theorem usbcat_status (opts : list cli_option) (W : usb_world) (w0 : list response)
    (iters : list (list response)) :
  match snd (usbcat opts W w0 iters) with
  | Before c =>
      c = if existsb is_help opts && negb (existsb is_unknown opts)
          then EXIT_SUCCESS else EXIT_FAILURE
  | Inside (Returned c s) => c = EXIT_FAILURE /\ exists msg t, trace s = AStderr msg :: t
  | After s => existsb is_help opts = false /\ loop_cond s = false
  | _ => True
  end
  /\ (exit_status (snd (usbcat opts W w0 iters)) = Some EXIT_SUCCESS
      <-> existsb is_help opts && negb (existsb is_unknown opts) = true
          \/ exists s, snd (usbcat opts W w0 iters) = After s).
Proof.
  assert (Hmain : match snd (usbcat opts W w0 iters) with
                  | Before c =>
                      c = if existsb is_help opts && negb (existsb is_unknown opts)
                          then EXIT_SUCCESS else EXIT_FAILURE
                  | Inside (Returned c s) =>
                      c = EXIT_FAILURE /\ exists msg t, trace s = AStderr msg :: t
                  | After s => existsb is_help opts = false /\ loop_cond s = false
                  | _ => True
                  end).
  { unfold usbcat. destruct (existsb is_help opts) eqn:Hh.
    - unfold before_loop. rewrite getopt_help, Hh, getopt_ret. cbn [snd andb].
      destruct (existsb is_unknown opts); reflexivity.
    - assert (Hb := before_loop_cases opts W Hh).
      destruct (before_loop opts W) as [cs [c| |l dev]]; cbn [fst snd andb] in *;
        [apply Hb | exact I |].
      assert (Hs := setup_reported (loop_env l W) w0 (blank (loop_env l W))). unfold wp in Hs.
      destruct (setup (loop_env l W) w0 (blank (loop_env l W))) as [[] w1 s0|o]; cbn [snd].
      + assert (Hl := event_loop_reported (loop_env l W) iters s0).
        destruct (event_loop (loop_env l W) iters s0) as [s'|o]; cbn [snd].
        * split; [reflexivity | exact Hl].
        * destruct o; try exact I. exact Hl.
      + destruct o; try exact I. exact Hs. }
  split; [exact Hmain|].
  destruct (existsb is_help opts) eqn:Hh; cbn [andb] in *.
  - assert (Hb : snd (usbcat opts W w0 iters)
                 = Before (if existsb is_unknown opts then EXIT_FAILURE else EXIT_SUCCESS)).
    { unfold usbcat, before_loop. rewrite getopt_help, Hh, getopt_ret. reflexivity. }
    rewrite Hb. cbn [exit_status]. destruct (existsb is_unknown opts); cbn [negb].
    + split; [discriminate|]. intros [H|[s H]]; discriminate H.
    + split; [auto | reflexivity].
  - destruct (snd (usbcat opts W w0 iters)) as [c| |[c s|a s|s|s]|s]; cbn [exit_status].
    + rewrite Hmain. split; [discriminate|]. intros [H|[s H]]; discriminate H.
    + split; [discriminate|]. intros [H|[s H]]; discriminate H.
    + destruct Hmain as [-> _]. split; [discriminate|]. intros [H|[s' H]]; discriminate H.
    + split; [discriminate|]. intros [H|[s' H]]; discriminate H.
    + split; [discriminate|]. intros [H|[s' H]]; discriminate H.
    + split; [discriminate|]. intros [H|[s' H]]; discriminate H.
    + split; [eauto | reflexivity].
Qed.

(** ** Transfers and buffers are used by one side at a time *)

Section Apart.

Variable e : env.

(** The buffer at the head of each ring, and its transfer, are not with
    the transport. *)
Lemma spare_slot (s : state) :
  inv e s -> we e = true ->
  buf_head (usb_write_buf s) <> buf_tail (usb_write_buf s) ->
  buf (usb_write_buf s) !! Z.to_nat (buf_head (usb_write_buf s))
    = Some (mk_buffer (Some 0%nat) (Some 0%nat))
  /\ exists t, xfers s !! 0%nat = Some t /\ submitted t = false.
Proof.
  intros [_ _ Hw _] Hwe Hne.
  destruct (iw_on _ _ Hw Hwe) as (_ & _ & _ & _ & pf & t & _ & Hx & Hside).
  destruct Hside as [H1 H2 H3 H4 H5 | H1 H2 H3 H4 H5 H6 H7]; [|contradiction]. eauto.
Qed.

Lemma queued_slot (s : state) :
  inv e s -> re e = true ->
  buf_head (usb_read_buf s) <> buf_tail (usb_read_buf s) ->
  buf (usb_read_buf s) !! Z.to_nat (buf_head (usb_read_buf s))
    = Some (mk_buffer (Some (ixR e)) (Some (ixR e)))
  /\ exists t, xfers s !! ixR e = Some t /\ submitted t = false.
Proof.
  intros [_ _ _ Hr] Hre Hne.
  destruct (ir_on _ _ Hr Hre) as (_ & _ & _ & _ & pf & t & _ & Hx & _ & _ & _ & _ & _ & Hside).
  destruct Hside as [H1 H2 H3 | H1 H2 H3 H4 H5 H6 H7 H8]; [contradiction|]. eauto.
Qed.

Lemma apart_frame (s s' : state) :
  trace s' = trace s -> xfers s' = xfers s -> apart s -> apart s'.
Proof. intros Ht Hx [H1 H2]. split; [rewrite Ht | rewrite Hx, Ht]; assumption. Qed.

Lemma apart_updq (r : qref) (f : buffer_queue_t -> buffer_queue_t) (s : state) :
  apart s -> apart (updq r f s).
Proof. apply apart_frame; destruct r; reflexivity. Qed.

Lemma apart_upd_events (i : nat) (f : Z -> Z) (s : state) :
  apart s -> apart (upd_events i f s).
Proof. apply apart_frame; reflexivity. Qed.

Lemma apart_set_fds (l : list pollfd_t) (s : state) : apart s -> apart (set_fds l s).
Proof. apply apart_frame; reflexivity. Qed.

Lemma apart_set_mallocs (n : nat) (s : state) : apart s -> apart (set_mallocs n s).
Proof. apply apart_frame; reflexivity. Qed.

(** A call that touches no transfer. *)
Lemma apart_note (s : state) (a : action) :
  match a with
  | ASubmit _ _ _ _ _ | ACallback _ _ _ | ARead _ _ _ | AWrite _ _ _ _ => False
  | _ => True
  end ->
  apart s -> apart (set_trace (a :: trace s) s).
Proof.
  intros Ha [H1 H2]. split; proj.
  - destruct a; try (destruct Ha; fail); (split; [exact I | exact H1]).
  - intros x t Hx. rewrite (H2 x t Hx). destruct a; try (destruct Ha; fail); reflexivity.
Qed.

(** A read or a write on a buffer that is not with the transport. *)
Lemma apart_use (s : state) (a : action) (b : nat) :
  match a with ARead _ _ _ | AWrite _ _ _ _ => touches a = Some b | _ => False end ->
  flying b (trace s) = false ->
  apart s -> apart (set_trace (a :: trace s) s).
Proof.
  intros Ha Hb [H1 H2]. split; proj.
  - destruct a; try (destruct Ha; fail); cbn [exclusive touches] in *;
      injection Ha as ->; auto.
  - intros x t Hx. rewrite (H2 x t Hx). destruct a; try (destruct Ha; fail); reflexivity.
Qed.

(** A field of a transfer is set that is not [submitted]. *)
Lemma apart_alter (x : nat) (f : libusb_transfer -> libusb_transfer) (s : state) :
  (forall t, submitted (f t) = submitted t) -> apart s -> apart (upd_xfer x f s).
Proof.
  intros Hf [H1 H2]. split; [exact H1|]. intros y t. unfold upd_xfer. proj.
  destruct (decide (y = x)) as [->|Hy].
  - rewrite list_lookup_alter_eq. destruct (xfers s !! x) as [t0|] eqn:Hx; [|discriminate].
    intros H. injection H as <-. rewrite Hf. apply H2, Hx.
  - rewrite list_lookup_alter_ne by auto. apply H2.
Qed.

(** A submission of a transfer that is not with the transport. *)
Lemma apart_submit (x : nat) (q : option qref) (ep len r : Z) (s : state) :
  flying x (trace s) = false -> apart s ->
  apart (if r =? LIBUSB_SUCCESS
         then upd_xfer x (held true) (set_trace (ASubmit x q ep len r :: trace s) s)
         else set_trace (ASubmit x q ep len r :: trace s) s).
Proof.
  intros Hx [H1 H2].
  assert (Hother : forall y, y <> x ->
            flying y (ASubmit x q ep len r :: trace s) = flying y (trace s)).
  { intros y Hy. cbn [flying]. destruct (Nat.eqb_spec x y); [congruence | reflexivity]. }
  assert (Hsame : flying x (ASubmit x q ep len r :: trace s) = (r =? LIBUSB_SUCCESS)).
  { cbn [flying]. rewrite Nat.eqb_refl. reflexivity. }
  destruct (r =? LIBUSB_SUCCESS) eqn:Hr; split; unfold upd_xfer; proj;
    try (cbn [exclusive touches]; split; assumption); intros y t.
  - destruct (decide (y = x)) as [->|Hy].
    + rewrite list_lookup_alter_eq. destruct (xfers s !! x) as [t0|] eqn:Hx0; [|discriminate].
      intros H. injection H as <-. rewrite Hsame. reflexivity.
    + rewrite list_lookup_alter_ne, Hother by auto. apply H2.
  - destruct (decide (y = x)) as [->|Hy].
    + intros Ht. rewrite Hsame, (H2 x t Ht). exact Hx.
    + rewrite Hother by auto. apply H2.
Qed.

Lemma apart_submit_done (x : nat) (q : option qref) (ep len r : Z) (s : state) :
  (r =? LIBUSB_SUCCESS) = true -> flying x (trace s) = false -> apart s ->
  apart (upd_xfer x (held true) (set_trace (ASubmit x q ep len r :: trace s) s)).
Proof.
  intros Hr Hx Ha. assert (H := apart_submit x q ep len r s Hx Ha).
  rewrite Hr in H. exact H.
Qed.

Lemma apart_submit_failed (x : nat) (q : option qref) (ep len r : Z) (s : state) :
  (r =? LIBUSB_SUCCESS) = false -> flying x (trace s) = false -> apart s ->
  apart (set_trace (ASubmit x q ep len r :: trace s) s).
Proof.
  intros Hr Hx Ha. assert (H := apart_submit x q ep len r s Hx Ha).
  rewrite Hr in H. exact H.
Qed.

(** A completion is delivered. *)
Lemma apart_completed (x : nat) (q : option qref) (st : libusb_transfer_status) (n : Z)
    (s : state) :
  apart s ->
  apart (set_trace (ACallback x q st :: trace (upd_xfer x (completed st n) s))
                   (upd_xfer x (completed st n) s)).
Proof.
  intros [H1 H2]. split; unfold upd_xfer; proj.
  - split; [exact I | exact H1].
  - intros y t. cbn [flying]. destruct (Nat.eqb_spec x y) as [<-|Hy].
    + rewrite list_lookup_alter_eq. destruct (xfers s !! x) as [t0|] eqn:Hx0; [|discriminate].
      intros H. injection H as <-. reflexivity.
    + rewrite list_lookup_alter_ne by auto. apply H2.
Qed.

Lemma apart_alloc (t : libusb_transfer) (s : state) :
  submitted t = false -> flying (List.length (xfers s)) (trace s) = false ->
  apart s -> apart (set_xfers (xfers s ++ [t]) s).
Proof.
  intros Ht Hf [H1 H2]. split; [exact H1|]. intros y t'. proj. intros Hy.
  apply lookup_app_Some in Hy as [Hy | [Hlen Hy]]; [eauto|].
  destruct (y - List.length (xfers s))%nat eqn:Hd; simpl in Hy; [|discriminate].
  injection Hy as <-. assert (y = List.length (xfers s)) as -> by lia. congruence.
Qed.

End Apart.

Lemma wp_submit_any x (Q : Z -> list response -> state -> Prop) (E : outcome -> Prop) w s :
  E (Faulted s) -> E (Cut s) ->
  (forall t r w', xfers s !! x = Some t ->
     Q r w' (if r =? LIBUSB_SUCCESS
             then upd_xfer x (held true)
                    (set_trace (ASubmit x (user_data t) (endpoint t) (xlength t) r :: trace s) s)
             else set_trace (ASubmit x (user_data t) (endpoint t) (xlength t) r :: trace s) s)) ->
  wp (libusb_submit_transfer x) Q E w s.
Proof.
  intros HF HC HQ. unfold libusb_submit_transfer.
  apply wp_bind, wp_get. apply wp_bind, wp_deref_any; [intros t Ht | exact HF].
  apply wp_bind, wp_respond; [exact HC|].
  intros r w' a _ Hr. destruct r; try discriminate. injection Hr as ->.
  apply wp_bind, wp_log. apply wp_bind.
  specialize (HQ t a w' Ht). destruct (a =? LIBUSB_SUCCESS).
  - apply wp_modify, wp_ret, HQ.
  - apply wp_ret, wp_ret, HQ.
Qed.

Ltac wp_step_s :=
  cbv beta;
  lazymatch goal with
  | |- wp (libusb_submit_transfer _) _ _ _ _ => apply wp_submit_any; [ | | intros ? ? ? ?]
  | _ => wp_step
  end.

Ltac apart_step :=
  cbv beta;
  lazymatch goal with
  | |- apart (outcome_state _) => cbn [outcome_state]
  | |- apart (updq _ _ _) => apply apart_updq
  | |- apart (upd_events _ _ _) => apply apart_upd_events
  | |- apart (set_fds _ _) => apply apart_set_fds
  | |- apart (set_mallocs _ _) => apply apart_set_mallocs
  | |- apart (if _ =? LIBUSB_SUCCESS then upd_xfer _ (held true) _ else _) =>
      apply apart_submit
  | |- apart (upd_xfer ?x (held true) (set_trace (ASubmit ?x _ _ _ _ :: trace ?s) ?s)) =>
      apply apart_submit_done; [assumption| |]
  | |- apart (set_trace (ASubmit _ _ _ _ _ :: trace ?s) ?s) =>
      apply apart_submit_failed; [assumption| |]
  | |- apart (upd_xfer _ (filled _ _ _ _) _) => apply apart_alter; [reflexivity|]
  | |- apart (set_xfers (xfers ?s ++ [_]) ?s) => apply apart_alloc; [reflexivity| |]
  | |- apart (set_trace (ACallback _ _ _ :: _) (upd_xfer _ (completed _ _) _)) =>
      apply apart_completed
  | |- apart (set_trace (ARead _ _ _ :: trace ?s) ?s) => eapply apart_use; [reflexivity| |]
  | |- apart (set_trace (AWrite _ _ _ _ :: trace ?s) ?s) => eapply apart_use; [reflexivity| |]
  | |- apart (set_trace (_ :: trace ?s) ?s) => apply apart_note; [exact I|]
  end.
Ltac apart_peel := repeat apart_step; try assumption.

Ltac not_flying := proj_all; cbn [flying]; rewrite ?Nat.eqb_refl; try assumption; try reflexivity.

Section Apart_steps.

Variable e : env.

Lemma on_stdin_apart (w : list response) (s : state) :
  inv e s -> we e = true -> apart s ->
  wp (on_stdin e 0) (fun _ _ s' => apart s') (fun o => apart (outcome_state o)) w s.
Proof.
  intros Hinv Hwe Ha. unfold on_stdin. apply wp_bind, wp_get.
  apply wp_bind, wp_deref_any; [intros p Hp | exact Ha]. cbv zeta.
  destruct (negb (Z.land (revents p) POLLIN =? 0)); [|apply wp_modify, apart_updq, Ha].
  apply wp_bind, wp_assert_any; [intros Hne | exact Ha].
  apply negb_true_iff, Z.eqb_neq in Hne.
  destruct (spare_slot e s Hinv Hwe Hne) as (Hslot & t & Hx & Hsub).
  assert (Hfly : flying 0 (trace s) = false) by (rewrite <- (ap_held _ Ha _ _ Hx); exact Hsub).
  apply wp_bind. eapply wp_deref; [exact Hslot|].
  apply wp_bind. eapply wp_deref; [reflexivity|]. cbn [data usb_xfer].
  repeat wp_step_s; apart_peel; proj_all; as_found; not_flying.
Qed.

Lemma on_stdout_apart (w : list response) (s : state) :
  inv e s -> re e = true -> apart s ->
  wp (on_stdout e (ixR e)) (fun _ _ s' => apart s') (fun o => apart (outcome_state o)) w s.
Proof.
  intros Hinv Hre Ha. unfold on_stdout. apply wp_bind, wp_get. cbv zeta.
  apply wp_bind, wp_assert_any; [intros Hne | exact Ha].
  apply negb_true_iff, Z.eqb_neq in Hne.
  destruct (queued_slot e s Hinv Hre Hne) as (Hslot & t & Hx & Hsub).
  assert (Hfly : flying (ixR e) (trace s) = false)
    by (rewrite <- (ap_held _ Ha _ _ Hx); exact Hsub).
  apply wp_bind. eapply wp_deref; [exact Hslot|]. cbn [data usb_xfer].
  repeat wp_step_s; apart_peel; proj_all; as_found; not_flying.
Qed.

Lemma deliver_apart (c : completion) (w : list response) (s : state) :
  apart s ->
  wp (deliver c) (fun _ _ s' => apart s') (fun o => apart (outcome_state o)) w s.
Proof.
  intros Ha. destruct c as [[x st] n]. unfold deliver.
  repeat wp_step_s; apart_peel; proj_all; as_found; not_flying.
Qed.

Lemma poll_apart (w : list response) (s : state) :
  apart s ->
  wp poll (fun _ _ s' => apart s') (fun o => apart (outcome_state o)) w s.
Proof. intros Ha. repeat wp_step_s; apart_peel. Qed.

Lemma setup_apart (w : list response) :
  wp (setup e) (fun _ _ s' => apart s') (fun o => apart (outcome_state o)) w (blank e).
Proof.
  assert (Hs : apart (blank e)).
  { split; [exact I|]. intros x t Hx. destruct x; discriminate Hx. }
  unfold setup, setup_write, setup_read, copy_usb_fds, push_fd.
  change (Z.to_nat (USB_BUFS - 1)) with 1%nat. cbn [alloc_write_bufs submit_read_bufs].
  repeat wp_step_s; apart_peel; unfold blank; proj_all; as_found; not_flying.
Qed.

Lemma exclusive_app (post pre : list action) : exclusive (post ++ pre) -> exclusive pre.
Proof. induction post as [|a post IH]; simpl; [auto | intros [_ H]; auto]. Qed.

End Apart_steps.

(** X15: in every run, however it ends, no transfer is submitted while the
    transport holds it (its last submission succeeded and its completion has
    not been delivered), and no [read] or [write] uses the buffer of a
    transfer that the transport holds. *)
Theorem exclusive_use (e : env) (Hcfg : well_configured e = true)
    (w0 : list response) (iters : list (list response)) :
  forall post a pre x,
    trace (outcome_state (main e w0 iters)) = post ++ a :: pre ->
    touches a = Some x -> flying x pre = false.
Proof.
  assert (H : apart (outcome_state (main e w0 iters))).
  { apply (main_keeps e Hcfg apart).
    - intros s a Ha Hs. apply apart_note; [destruct a; try destruct Ha; exact I | exact Hs].
    - intros w s Hsc Hwe Hs. apply on_stdin_apart; [apply Hsc | exact Hwe | exact Hs].
    - intros w s Hsc Hre Hs. apply on_stdout_apart; [apply Hsc | exact Hre | exact Hs].
    - intros c w s _ Hs. apply deliver_apart, Hs.
    - intros w s _ Hs. apply poll_apart, Hs.
    - apply setup_apart. }
  intros post a pre x Ht Ha. assert (Hx := ap_trace _ H). rewrite Ht in Hx.
  apply exclusive_app in Hx. cbn [exclusive] in Hx. rewrite Ha in Hx. apply Hx.
Qed.

(** Both directions: 100 bytes go out, then standard input is at its end. *)
Lemma exclusive_use_witness :
  well_configured cfg_both = true
  /\ forall post a pre x,
       trace (outcome_state (main cfg_both setup_fine run_eof)) = post ++ a :: pre ->
       touches a = Some x -> flying x pre = false.
Proof.
  split; [reflexivity|]. exact (exclusive_use cfg_both eq_refl setup_fine run_eof).
Defined.

(** ** The poll set stays *)

Section Poll_set.

Variable e : env.

Lemma poll_set_frame (s s' : state) :
  fds s' = fds s -> poll_set_kept e s -> poll_set_kept e s'.
Proof. intros Hf [H1 H2 H3]. split; rewrite Hf; assumption. Qed.

Lemma poll_set_updq (r : qref) (f : buffer_queue_t -> buffer_queue_t) (s : state) :
  poll_set_kept e s -> poll_set_kept e (updq r f s).
Proof. apply poll_set_frame; destruct r; reflexivity. Qed.

Lemma poll_set_upd_xfer (x : nat) (f : libusb_transfer -> libusb_transfer) (s : state) :
  poll_set_kept e s -> poll_set_kept e (upd_xfer x f s).
Proof. apply poll_set_frame; reflexivity. Qed.

Lemma poll_set_log (a : action) (s : state) :
  poll_set_kept e s -> poll_set_kept e (set_trace (a :: trace s) s).
Proof. apply poll_set_frame; reflexivity. Qed.

Lemma poll_set_upd_events (i : nat) (f : Z -> Z) (s : state) :
  (i < count (we e) + count (re e))%nat ->
  (forall ev, Z.land ev ev_quiet = ev_quiet -> Z.land (f ev) ev_quiet = ev_quiet) ->
  poll_set_kept e s -> poll_set_kept e (upd_events i f s).
Proof.
  intros Hi Hf [H1 H2 H3]. split; unfold upd_events; proj.
  - rewrite map_fd_alter by reflexivity. exact H1.
  - rewrite drop_alter_lt by exact Hi. exact H2.
  - intros j pf Hj. destruct (decide (j = i)) as [->|Hne].
    + rewrite list_lookup_alter_eq. destruct (fds s !! i) as [p|] eqn:Hp; [|discriminate].
      intros H. injection H as <-. cbn [events set_events]. apply Hf, (H3 i p Hj Hp).
    + rewrite list_lookup_alter_ne by auto. apply H3, Hj.
Qed.

(** What [poll] writes keeps descriptors and events. *)
Lemma poll_fill_keeps (l : list pollfd_t) : forall (revs : list Z) (l' : list pollfd_t),
  poll_fill l revs = Some l' ->
  List.map fd l' = List.map fd l /\ List.map events l' = List.map events l.
Proof.
  induction l as [|p l IH]; intros [|r revs] l' H; simpl in H; try discriminate.
  - injection H as <-. auto.
  - destruct (poll_admissible p r); [|discriminate].
    destruct (poll_fill l revs) as [l0|] eqn:Hl; [|discriminate].
    injection H as <-. destruct (IH _ _ Hl) as [H1 H2]. simpl. rewrite H1, H2. auto.
Qed.

Lemma poll_set_set_fds (l : list pollfd_t) (s : state) :
  List.map fd l = List.map fd (fds s) -> List.map events l = List.map events (fds s) ->
  poll_set_kept e s -> poll_set_kept e (set_fds l s).
Proof.
  intros Hfd Hev [H1 H2 H3]. split; proj.
  - rewrite Hfd. exact H1.
  - rewrite <- H2. change (@List.map) with (@fmap list _). rewrite !fmap_drop.
    change (@fmap list _) with (@List.map). rewrite Hev. reflexivity.
  - intros j pf Hj Hl.
    assert (H : List.map events l !! j = Some (events pf)).
    { change (@List.map) with (@fmap list _). rewrite list_lookup_fmap, Hl. reflexivity. }
    rewrite Hev in H. change (@List.map) with (@fmap list _) in H.
    rewrite list_lookup_fmap in H.
    destruct (fds s !! j) as [p|] eqn:Hp; [|discriminate]. injection H as <-.
    apply (H3 j p Hj Hp).
Qed.

(** The bits that are set and cleared are not POLLHUP or POLLERR. *)
Lemma keep_clear (m ev : Z) :
  Z.land (Z.lnot m) ev_quiet = ev_quiet ->
  Z.land ev ev_quiet = ev_quiet -> Z.land (Z.land ev (Z.lnot m)) ev_quiet = ev_quiet.
Proof. intros Hm Hev. rewrite <- Z.land_assoc, Hm. exact Hev. Qed.

Lemma keep_set (m ev : Z) :
  Z.land ev ev_quiet = ev_quiet -> Z.land (Z.lor ev m) ev_quiet = ev_quiet.
Proof.
  intros Hev. rewrite Z.land_lor_distr_l, Hev. apply Z.bits_inj'. intros n Hn.
  rewrite Z.lor_spec, Z.land_spec. destruct (Z.testbit ev_quiet n); [reflexivity|].
  rewrite andb_false_r. reflexivity.
Qed.

(** Where the queues find their descriptors. *)
Lemma pollfd_index (s : state) (q : qref) (p : nat) :
  inv e s -> pollfd (getq q s) = Some p -> (p < count (we e) + count (re e))%nat.
Proof.
  intros [_ _ Hw Hr] Hp. destruct q; simpl in Hp.
  - destruct (we e) eqn:Hwe.
    + destruct (iw_on _ _ Hw Hwe) as (H & _). rewrite H in Hp. injection Hp as <-. simpl. lia.
    + destruct (iw_off _ _ Hw Hwe) as (_ & _ & _ & _ & H). congruence.
  - destruct (re e) eqn:Hre.
    + destruct (ir_on _ _ Hr Hre) as (H & _). rewrite H in Hp. injection Hp as <-.
      unfold ixR. destruct (we e); simpl; lia.
    + destruct (ir_off _ _ Hr Hre) as (_ & _ & _ & H). congruence.
Qed.

End Poll_set.

Ltac poll_set_step :=
  cbv beta;
  lazymatch goal with
  | |- poll_set_kept _ (outcome_state _) => cbn [outcome_state]
  | |- poll_set_kept _ (updq _ _ _) => apply poll_set_updq
  | |- poll_set_kept _ (upd_xfer _ _ _) => apply poll_set_upd_xfer
  | |- poll_set_kept _ (set_trace (_ :: _) _) => apply poll_set_log
  | |- poll_set_kept _ (upd_events _ _ _) => apply poll_set_upd_events
  | |- poll_set_kept _ (set_fds _ _) => apply poll_set_set_fds
  end.
Ltac poll_set_peel := repeat poll_set_step; try assumption.

Section Poll_set_steps.

Variable e : env.

Lemma on_stdin_poll_set (w : list response) (s : state) :
  we e = true -> poll_set_kept e s ->
  wp (on_stdin e 0) (fun _ _ s' => poll_set_kept e s')
     (fun o => poll_set_kept e (outcome_state o)) w s.
Proof.
  intros Hwe Hs. unfold on_stdin. wp_run_all; poll_set_peel.
  all: try (rewrite Hwe; simpl; lia).
  all: intros ev Hev; apply keep_clear; [reflexivity | exact Hev].
Qed.

Lemma on_stdout_poll_set (w : list response) (s : state) :
  re e = true -> poll_set_kept e s ->
  wp (on_stdout e (ixR e)) (fun _ _ s' => poll_set_kept e s')
     (fun o => poll_set_kept e (outcome_state o)) w s.
Proof.
  intros Hre Hs. unfold on_stdout. wp_run_all; poll_set_peel.
  all: try (unfold ixR; rewrite Hre; destruct (we e); simpl; lia).
  all: intros ev Hev; apply keep_clear; [reflexivity | exact Hev].
Qed.

Lemma deliver_poll_set (c : completion) (w : list response) (s : state) :
  inv e s -> poll_set_kept e s ->
  wp (deliver c) (fun _ _ s' => poll_set_kept e s')
     (fun o => poll_set_kept e (outcome_state o)) w s.
Proof.
  intros Hinv Hs. destruct c as [[x st] n]. unfold deliver. wp_run_all; poll_set_peel.
  all: try (intros ev Hev; apply keep_set; exact Hev).
  all: match goal with
       | H : pollfd (getq ?q _) = Some ?p |- (?p < _)%nat =>
           apply (pollfd_index e s q p Hinv); destruct q; exact H
       end.
Qed.

Lemma poll_poll_set (w : list response) (s : state) :
  poll_set_kept e s ->
  wp poll (fun _ _ s' => poll_set_kept e s')
     (fun o => poll_set_kept e (outcome_state o)) w s.
Proof.
  intros Hs. wp_run_all; poll_set_peel.
  all: match goal with
       | H : poll_fill _ _ = Some _ |- _ => apply poll_fill_keeps in H as [? ?]; assumption
       end.
Qed.

Lemma map_events_usb (l : list (Z * Z)) :
  List.map events (List.map (fun p => mk_pollfd (fst p) (snd p) 0) l) = List.map snd l.
Proof. induction l as [|p l IH]; simpl; [reflexivity | f_equal; exact IH]. Qed.

Lemma setup_poll_set (w : list response) :
  wp (setup e) (fun _ _ s' => poll_set_kept e s')
     (fun o => True) w (blank e).
Proof.
  assert (Hfds := setup_fds e w). unfold wp in *.
  destruct (setup e w (blank e)) as [[] w' s|o]; [|exact I].
  split; rewrite Hfds.
  - unfold layout. destruct (we e), (re e); simpl; rewrite map_fd_usb; reflexivity.
  - destruct (we e), (re e); simpl; apply map_events_usb.
  - intros j pf Hj. destruct (we e), (re e); simpl in Hj.
    + destruct j as [|[|j]]; simpl; [| |lia]; intros H; injection H as <-; reflexivity.
    + destruct j as [|j]; simpl; [|lia]; intros H; injection H as <-; reflexivity.
    + destruct j as [|j]; simpl; [|lia]; intros H; injection H as <-; reflexivity.
    + lia.
Qed.

End Poll_set_steps.

(** X16: in a run whose set-up succeeded, the poll set holds, at the end as
    at the start, the same descriptors in the same places; what is asked of
    the descriptors of the transport is never changed; and POLLHUP and
    POLLERR are never withdrawn from what is asked of the standard
    streams. *)
Theorem poll_set_stays (e : env) (Hcfg : well_configured e = true)
    (w0 w1 : list response) (s1 : state) (iters : list (list response))
    (Hset : setup e w0 (blank e) = Ok tt w1 s1) :
  poll_set_kept e (outcome_state (main e w0 iters)).
Proof.
  apply (main_keeps e Hcfg (poll_set_kept e)).
  - intros s a _ Hs. apply poll_set_log, Hs.
  - intros w s _ Hwe Hs. apply on_stdin_poll_set; assumption.
  - intros w s _ Hre Hs. apply on_stdout_poll_set; assumption.
  - intros c w s Hst Hs. apply deliver_poll_set; [apply Hst | exact Hs].
  - intros w s _ Hs. apply poll_poll_set, Hs.
  - assert (H := setup_poll_set e w0). unfold wp in *. rewrite Hset in *. exact H.
Qed.

(** Both directions: 100 bytes go out, then standard input is at its end. *)
Lemma poll_set_stays_witness :
  well_configured cfg_both = true
  /\ poll_set_kept cfg_both (outcome_state (main cfg_both setup_fine run_eof)).
Proof.
  split; [reflexivity|].
  destruct (setup cfg_both setup_fine (blank cfg_both)) as [[] w1 s1|o] eqn:H.
  - exact (poll_set_stays cfg_both eq_refl setup_fine w1 s1 run_eof H).
  - vm_compute in H. discriminate.
Defined.

(** ** What a submission follows *)

Lemma trace_updq (r : qref) (f : buffer_queue_t -> buffer_queue_t) (s : state) :
  trace (updq r f s) = trace s.
Proof. destruct r; reflexivity. Qed.

Ltac prompted_leaf :=
  cbn [outcome_state]; proj_all; as_found;
  repeat (progress (cbv beta; rewrite ?trace_updq; proj_all));
  cbn [all_prompted prompted]; repeat split; try assumption; try reflexivity.

Section Prompted.

Variable e : env.

Lemma on_stdin_prompted (i : nat) (w : list response) (s : state) :
  all_prompted (trace s) ->
  wp (on_stdin e i) (fun _ _ s' => all_prompted (trace s'))
     (fun o => all_prompted (trace (outcome_state o))) w s.
Proof. intros Hs. unfold on_stdin. wp_run_all; prompted_leaf. Qed.

Lemma on_stdout_prompted (i : nat) (w : list response) (s : state) :
  all_prompted (trace s) ->
  wp (on_stdout e i) (fun _ _ s' => all_prompted (trace s'))
     (fun o => all_prompted (trace (outcome_state o))) w s.
Proof. intros Hs. unfold on_stdout. wp_run_all; prompted_leaf. Qed.

Lemma deliver_prompted (c : completion) (w : list response) (s : state) :
  all_prompted (trace s) ->
  wp (deliver c) (fun _ _ s' => all_prompted (trace s'))
     (fun o => all_prompted (trace (outcome_state o))) w s.
Proof. intros Hs. destruct c as [[x st] n]. unfold deliver. wp_run_all; prompted_leaf. Qed.

Lemma poll_prompted (w : list response) (s : state) :
  all_prompted (trace s) ->
  wp poll (fun _ _ s' => all_prompted (trace s'))
     (fun o => all_prompted (trace (outcome_state o))) w s.
Proof. intros Hs. wp_run_all; prompted_leaf. Qed.

Lemma setup_prompted (w : list response) :
  wp (setup e) (fun _ _ s' => all_prompted (trace s'))
     (fun o => all_prompted (trace (outcome_state o))) w (blank e).
Proof.
  unfold setup, setup_write, setup_read, copy_usb_fds, push_fd.
  change (Z.to_nat (USB_BUFS - 1)) with 1%nat. cbn [alloc_write_bufs submit_read_bufs].
  wp_run_all; unfold blank; prompted_leaf.
Qed.

Lemma all_prompted_app (post pre : list action) :
  all_prompted (post ++ pre) -> all_prompted pre.
Proof. induction post as [|a post IH]; simpl; [auto | intros [_ H]; auto]. Qed.

End Prompted.

(** X17: in every run, each submission of a transfer comes right after
    what prompted it: on the write side the [read] that filled its buffer,
    and the transfer then carries exactly the number of bytes that [read]
    returned; on the read side a [write] to standard output or, the first
    time, the end of set-up; and on either side the time-out of that very
    transfer. *)
Theorem submission_follows (e : env) (Hcfg : well_configured e = true)
    (w0 : list response) (iters : list (list response)) :
  forall post a pre,
    trace (outcome_state (main e w0 iters)) = post ++ a :: pre -> prompted a pre.
Proof.
  assert (H : all_prompted (trace (outcome_state (main e w0 iters)))).
  { apply (main_keeps e Hcfg (fun s => all_prompted (trace s))).
    - intros s a Ha Hs. cbn [trace set_trace all_prompted]. split; [|exact Hs].
      destruct a; try destruct Ha; exact I.
    - intros w s _ _ Hs. apply on_stdin_prompted, Hs.
    - intros w s _ _ Hs. apply on_stdout_prompted, Hs.
    - intros c w s _ Hs. apply deliver_prompted, Hs.
    - intros w s _ Hs. apply poll_prompted, Hs.
    - apply setup_prompted. }
  intros post a pre Ht. rewrite Ht in H. apply all_prompted_app in H. apply H.
Qed.

(** Both directions: 100 bytes go out, then standard input is at its end. *)
Lemma submission_follows_witness :
  well_configured cfg_both = true
  /\ forall post a pre,
       trace (outcome_state (main cfg_both setup_fine run_eof)) = post ++ a :: pre ->
       prompted a pre.
Proof.
  split; [reflexivity|]. exact (submission_follows cfg_both eq_refl setup_fine run_eof).
Defined.
